(** * The trap-room progression engine (frontend/public/aware-main/script.js)

    A shallow embedding of the quiz/task progression script and the proofs
    of its persistence, scoring and unlocking properties.  The last module
    covers the one string computation of the report page
    (frontend/src/App.js): the name of the exported file.

    Conventions of the model.
    - A JavaScript string is a Rocq [string]; its bytes are read as the UTF-8
      encoding of the text.
    - A JavaScript number that the script manipulates is either NaN or an
      integer (scores, counts, parsed ids); integers are kept exactly, which
      agrees with IEEE doubles on the safe integers (below 2^53 in absolute
      value).  Beyond them a double rounds ([x + 1] is [x] from 2^53 on) and
      its text takes the exponent form (from 10^21 on), which the model does
      not follow.  A statement below either does not depend on the exact
      value of a number, or is made for the states reached from a first
      visit, whose numbers count quizzes of the page, or carries the
      hypothesis [safe_integer] or [safe_number].
    - A JavaScript [Set] is the list of its elements in insertion order.
    - [localStorage] is a finite map from keys to strings; writes succeed.
    - The page is the list of its [.task] elements.  Of each element only
      what some branch of the script reads is kept (ids, the [locked],
      [active] and [answered] classes, [data-questions-total],
      [data-correct], the [disabled] flag of the next button, the alert box).
      Pure styling (highlight classes, feedback panes, cursors, badge texts,
      the progress bar, the score label) is left out.
    - Markup assumptions, as the handlers rely on them without checking:
      every option sits inside a quiz of its task, every quiz has both
      feedback panes, every task has a header, the alert box and its close
      button exist, and ids of the form task... belong to [.task] elements
      only. *)

From Stdlib Require Import ZArith Ascii String List Lia.
From Stdlib Require Import DecimalString DecimalPos DecimalZ.
From stdpp Require Import base option list strings gmap.

Open Scope Z_scope.

(** ** Host built-ins: numbers, strings, JSON, Set *)

Module JS.

(** Numbers reachable by the script: integers and NaN. *)
Inductive number : Type :=
| NaN
| Int (z : Z).

(** [x++] on a number: exact, as the script's own is up to 2^53. *)
Definition incr (x : number) : number :=
  match x with
  | NaN => NaN
  | Int z => Int (z + 1)
  end.

(** [a >= b]: false as soon as one side is NaN. *)
Definition ge (a b : number) : bool :=
  match a, b with
  | Int x, Int y => y <=? x
  | _, _ => false
  end.

(** Number::toString (radix 10) on integers and NaN: the decimal digits,
    which is the text of every safe integer. *)
Definition Number_toString (x : number) : string :=
  match x with
  | NaN => "NaN"
  | Int z => NilZero.string_of_int (Z.to_int z)
  end.

(** The safe integers ([Number.isSafeInteger]): a double holds each of
    them and its successor exactly, so that on them [incr], [parseInt] and
    [Number_toString] compute what the script computes. *)
Definition safe_integer (z : Z) : Prop := - 2 ^ 53 < z < 2 ^ 53.

(** NaN, or a safe integer. *)
Definition safe_number (x : number) : Prop :=
  match x with
  | NaN => True
  | Int z => safe_integer z
  end.

Definition code (c : ascii) : Z := Z.of_nat (nat_of_ascii c).

(** StrWhiteSpaceChar: the rest of [s] after one leading white space or
    line terminator (TAB, LF, VT, FF, CR, SP, and in UTF-8 U+00A0, U+1680,
    U+2000..U+200A, U+2028, U+2029, U+202F, U+205F, U+3000, U+FEFF). *)
Definition StrWhiteSpaceChar (s : string) : option string :=
  match s with
  | String c r =>
    if ((9 <=? code c) && (code c <=? 13)) || (code c =? 32) then Some r
    else
      match c, r with
      | "194"%char, String "160" r' => Some r'
      | "225"%char, String "154" (String "128" r') => Some r'
      | "226"%char, String "128" (String c3 r') =>
        if ((128 <=? code c3) && (code c3 <=? 138))
           || (code c3 =? 168) || (code c3 =? 169) || (code c3 =? 175)
        then Some r' else None
      | "226"%char, String "129" (String "159" r') => Some r'
      | "227"%char, String "128" (String "128" r') => Some r'
      | "239"%char, String "187" (String "191" r') => Some r'
      | _, _ => None
      end
  | EmptyString => None
  end.

Fixpoint trim_start_fuel (fuel : nat) (s : string) : string :=
  match fuel with
  | O => s
  | S fuel' =>
    match StrWhiteSpaceChar s with
    | Some r => trim_start_fuel fuel' r
    | None => s
    end
  end.

(** TrimString(s, start). *)
Definition trim_start (s : string) : string :=
  trim_start_fuel (String.length s) s.

(** Value of a character as a digit: 0..9, then a..z and A..Z as 10..35. *)
Definition digit_value (c : ascii) : option Z :=
  let n := code c in
  if (48 <=? n) && (n <=? 57) then Some (n - 48)
  else if (97 <=? n) && (n <=? 122) then Some (n - 87)
  else if (65 <=? n) && (n <=? 90) then Some (n - 55)
  else None.

(** The longest prefix of [s] made of radix-[R] digits, as digit values. *)
Fixpoint radix_digits (R : Z) (s : string) : list Z :=
  match s with
  | String c r =>
    match digit_value c with
    | Some d => if d <? R then d :: radix_digits R r else []
    | None => []
    end
  | EmptyString => []
  end.

Definition mathInt (R : Z) (ds : list Z) : Z :=
  fold_left (fun acc d => acc * R + d) ds 0.

(** An optional sign at the head of [s]: its value and the rest. *)
Definition split_sign (s : string) : Z * string :=
  match s with
  | String "-" r => (-1, r)
  | String "+" r => (1, r)
  | _ => (1, s)
  end.

(** An optional 0x or 0X at the head of [s]: the radix and the rest. *)
Definition split_radix (s : string) : Z * string :=
  match s with
  | String "0" (String "x" r) => (16, r)
  | String "0" (String "X" r) => (16, r)
  | _ => (10, s)
  end.

(** [parseInt(string)] with no radix argument (ECMA-262, 19.2.5): leading
    white space is skipped, then an optional sign, then an optional 0x/0X
    that switches to radix 16; NaN when no digit follows.  The value of the
    digits is kept exactly; the script gets the double nearest to it, which
    is the same number when it is a safe integer. *)
Definition parseInt (input : string) : number :=
  let '(sign, S1) := split_sign (trim_start input) in
  let '(R, S2) := split_radix S1 in
  match radix_digits R S2 with
  | [] => NaN
  | ds => Int (sign * mathInt R ds)
  end.

(** [parseInt(v)] where [v] may be [undefined]: ToString(undefined) has no
    digit. *)
Definition parseInt_opt (v : option string) : number :=
  match v with
  | Some s => parseInt s
  | None => parseInt "undefined"
  end.

(** The rest of [s] after the prefix [p], when [s] starts with [p]. *)
Fixpoint strip_prefix (p s : string) : option string :=
  match p, s with
  | EmptyString, _ => Some s
  | String a p', String b s' =>
    if Ascii.eqb a b then strip_prefix p' s' else None
  | String _ _, EmptyString => None
  end.

(** [s.replace(pat, rep)] with a string pattern: only the first occurrence
    is replaced ([rep] is taken literally; the script passes the empty
    string). *)
Fixpoint String_replace (pat rep s : string) : string :=
  match strip_prefix pat s with
  | Some r => rep +:+ r
  | None =>
    match s with
    | String c r => String c (String_replace pat rep r)
    | EmptyString => EmptyString
    end
  end.

(** *** JSON values and [JSON.parse]

    Numbers are never produced or inspected by the script: a number is kept
    as the text of its literal.  Object members are kept in source order. *)
#[local] Unset Elimination Schemes.
Inductive json : Type :=
| JNull
| JBool (b : bool)
| JNum (lexeme : string)
| JStr (s : string)
| JArr (elems : list json)
| JObj (members : list (string * json)).
#[local] Set Elimination Schemes.

Definition dquote : ascii := "034"%char.
Definition backslash : ascii := "\"%char.

Definition is_digit (c : ascii) : bool := (48 <=? code c) && (code c <=? 57).

(** JSON white space: space, tab, line feed, carriage return. *)
Definition is_json_ws (c : ascii) : bool :=
  (code c =? 32) || (code c =? 9) || (code c =? 10) || (code c =? 13).

Fixpoint skip_ws (s : string) : string :=
  match s with
  | String c r => if is_json_ws c then skip_ws r else s
  | EmptyString => s
  end.

Definition hex_value (c : ascii) : option Z :=
  match digit_value c with
  | Some d => if d <? 16 then Some d else None
  | None => None
  end.

Definition hex4 (a b c d : ascii) : option Z :=
  match hex_value a, hex_value b, hex_value c, hex_value d with
  | Some x, Some y, Some z, Some w => Some (((x * 16 + y) * 16 + z) * 16 + w)
  | _, _, _, _ => None
  end.

Definition byte (z : Z) : ascii := ascii_of_nat (Z.to_nat z).

(** UTF-8 (generalized: a lone surrogate keeps its three-byte form). *)
Definition utf8 (cp : Z) : string :=
  if cp <? 128 then String (byte cp) ""
  else if cp <? 2048 then
    String (byte (192 + cp / 64)) (String (byte (128 + cp mod 64)) "")
  else if cp <? 65536 then
    String (byte (224 + cp / 4096))
      (String (byte (128 + (cp / 64) mod 64))
         (String (byte (128 + cp mod 64)) ""))
  else
    String (byte (240 + cp / 262144))
      (String (byte (128 + (cp / 4096) mod 64))
         (String (byte (128 + (cp / 64) mod 64))
            (String (byte (128 + cp mod 64)) ""))).

(** What a JSON string literal is made of: a character copied as it is, or
    a UTF-16 code unit written as a \u escape. *)
Inductive char_token : Type :=
| Raw (c : ascii)
| Unit (cu : Z).

(** The characters of a string literal after its opening quote, up to the
    closing quote, and the text after it.  A raw control character, an
    unknown escape or a missing closing quote is a syntax error. *)
Fixpoint scan_chars (s : string) : option (list char_token * string) :=
  match s with
  | EmptyString => None
  | String c r =>
    if Ascii.eqb c dquote then Some ([], r)
    else if Ascii.eqb c backslash then
      match r with
      | String e r1 =>
        let simple (x : ascii) :=
          match scan_chars r1 with
          | Some (ts, r') => Some (Raw x :: ts, r')
          | None => None
          end in
        if Ascii.eqb e dquote then simple dquote
        else if Ascii.eqb e backslash then simple backslash
        else if Ascii.eqb e "/" then simple "/"%char
        else if Ascii.eqb e "b" then simple "008"%char
        else if Ascii.eqb e "f" then simple "012"%char
        else if Ascii.eqb e "n" then simple "010"%char
        else if Ascii.eqb e "r" then simple "013"%char
        else if Ascii.eqb e "t" then simple "009"%char
        else if Ascii.eqb e "u" then
          match r1 with
          | String h1 (String h2 (String h3 (String h4 r2))) =>
            match hex4 h1 h2 h3 h4, scan_chars r2 with
            | Some cu, Some (ts, r') => Some (Unit cu :: ts, r')
            | _, _ => None
            end
          | _ => None
          end
        else None
      | EmptyString => None
      end
    else if code c <? 32 then None
    else
      match scan_chars r with
      | Some (ts, r') => Some (Raw c :: ts, r')
      | None => None
      end
  end.

Definition is_high_surrogate (cu : Z) : bool := (55296 <=? cu) && (cu <=? 56319).
Definition is_low_surrogate (cu : Z) : bool := (56320 <=? cu) && (cu <=? 57343).

(** The string a token list denotes; an escaped surrogate pair is one code
    point. *)
Fixpoint decode_tokens (ts : list char_token) : string :=
  match ts with
  | [] => ""
  | Raw c :: r => String c (decode_tokens r)
  | Unit hi :: r =>
    match r with
    | Unit lo :: r' =>
      if is_high_surrogate hi && is_low_surrogate lo
      then utf8 (65536 + (hi - 55296) * 1024 + (lo - 56320)) +:+ decode_tokens r'
      else utf8 hi +:+ decode_tokens r
    | _ => utf8 hi +:+ decode_tokens r
    end
  end.

(** A string literal after its opening quote. *)
Definition parse_string (s : string) : option (string * string) :=
  match scan_chars s with
  | Some (ts, r) => Some (decode_tokens ts, r)
  | None => None
  end.

Fixpoint span_digits (s : string) : string * string :=
  match s with
  | String c r =>
    if is_digit c then let '(d, r') := span_digits r in (String c d, r')
    else ("", s)
  | EmptyString => ("", "")
  end.

(** The rest of [s] after the character [c], when [s] starts with it. *)
Definition eat (c : ascii) (s : string) : option string :=
  match s with
  | String c' r => if Ascii.eqb c' c then Some r else None
  | EmptyString => None
  end.

(** The same after white space. *)
Definition expect (c : ascii) (s : string) : option string := eat c (skip_ws s).

(** The integer part of a number literal: a single 0, or digits. *)
Definition lex_int (s : string) : option (string * string) :=
  match eat "0" s with
  | Some r => Some ("0", r)
  | None =>
    match span_digits s with
    | (EmptyString, _) => None
    | (String c d, r) => Some (String c d, r)
    end
  end.

(** Its optional fraction: a dot and digits. *)
Definition lex_frac (s : string) : option (string * string) :=
  match eat "." s with
  | Some r =>
    match span_digits r with
    | (EmptyString, _) => None
    | (String c d, r') => Some (String "." (String c d), r')
    end
  | None => Some ("", s)
  end.

(** Its optional exponent: e or E, an optional sign and digits. *)
Definition lex_exp (s : string) : option (string * string) :=
  match s with
  | String e r =>
    if Ascii.eqb e "e" || Ascii.eqb e "E" then
      let '(esign, r1) :=
        match eat "+" r, eat "-" r with
        | Some r', _ => ("+", r')
        | None, Some r' => ("-", r')
        | None, None => ("", r)
        end in
      match span_digits r1 with
      | (EmptyString, _) => None
      | (String c d, r2) => Some (String e esign +:+ String c d, r2)
      end
    else Some ("", s)
  | EmptyString => Some ("", s)
  end.

(** A number literal: an optional minus, the integer part, the optional
    fraction and the optional exponent. *)
Definition lex_number (s : string) : option (string * string) :=
  let '(sign, s1) :=
    match eat "-" s with
    | Some r => ("-", r)
    | None => ("", s)
    end in
  match lex_int s1 with
  | None => None
  | Some (i, s2) =>
    match lex_frac s2 with
    | None => None
    | Some (f, s3) =>
      match lex_exp s3 with
      | None => None
      | Some (x, s4) => Some (sign +:+ i +:+ f +:+ x, s4)
      end
    end
  end.

(** A value that is not an array, an object or a string: one of the three
    literals, or a number. *)
Definition parse_scalar (s : string) : option (json * string) :=
  match strip_prefix "true" s, strip_prefix "false" s, strip_prefix "null" s with
  | Some r, _, _ => Some (JBool true, r)
  | None, Some r, _ => Some (JBool false, r)
  | None, None, Some r => Some (JNull, r)
  | None, None, None =>
    match lex_number s with
    | Some (l, r) => Some (JNum l, r)
    | None => None
    end
  end.

(** A JSON value at the head of [s] (after white space) and the text after
    it.  [fuel] bounds the number of nested calls. *)
Fixpoint parse_value (fuel : nat) (s : string) : option (json * string) :=
  match fuel with
  | O => None
  | S fuel' =>
    match skip_ws s with
    | EmptyString => None
    | String c r =>
      if Ascii.eqb c "[" then
        match expect "]" r with
        | Some r' => Some (JArr [], r')
        | None => parse_elements fuel' r []
        end
      else if Ascii.eqb c "{" then
        match expect "}" r with
        | Some r' => Some (JObj [], r')
        | None => parse_members fuel' r []
        end
      else if Ascii.eqb c dquote then
        match parse_string r with
        | Some (x, r') => Some (JStr x, r')
        | None => None
        end
      else parse_scalar (String c r)
    end
  end
with parse_elements (fuel : nat) (s : string) (acc : list json)
  : option (json * string) :=
  match fuel with
  | O => None
  | S fuel' =>
    match parse_value fuel' s with
    | Some (v, r) =>
      match expect "," r, expect "]" r with
      | Some r', _ => parse_elements fuel' r' (acc ++ [v])
      | None, Some r' => Some (JArr (acc ++ [v]), r')
      | None, None => None
      end
    | None => None
    end
  end
with parse_members (fuel : nat) (s : string) (acc : list (string * json))
  : option (json * string) :=
  match fuel with
  | O => None
  | S fuel' =>
    match expect dquote s with
    | Some r =>
      match parse_string r with
      | Some (k, r1) =>
        match expect ":" r1 with
        | Some r2 =>
          match parse_value fuel' r2 with
          | Some (v, r3) =>
            match expect "," r3, expect "}" r3 with
            | Some r4, _ => parse_members fuel' r4 (acc ++ [(k, v)])
            | None, Some r4 => Some (JObj (acc ++ [(k, v)]), r4)
            | None, None => None
            end
          | None => None
          end
        | None => None
        end
      | None => None
      end
    | None => None
    end
  end.

(** [JSON.parse(text)]: [None] stands for the SyntaxError it throws.  In a
    chain of nested calls at least one character is consumed every second
    call, so twice the length of the text is fuel enough
    ([JSON_parse_complete] below). *)
Definition JSON_parse (text : string) : option json :=
  match parse_value (2 * String.length text + 2) text with
  | Some (v, r) =>
    match skip_ws r with
    | EmptyString => Some v
    | String _ _ => None
    end
  | None => None
  end.

(** *** [JSON.stringify] *)

Definition hex_digit (n : Z) : ascii :=
  if n <? 10 then byte (48 + n) else byte (87 + n).

(** QuoteJSONString on one character (the escape of an unpaired surrogate,
    which UTF-8 text does not contain, is left out). *)
Definition quote_char (c : ascii) : string :=
  if Ascii.eqb c dquote then String backslash (String dquote "")
  else if Ascii.eqb c backslash then "\\"
  else if code c =? 8 then "\b"
  else if code c =? 12 then "\f"
  else if code c =? 10 then "\n"
  else if code c =? 13 then "\r"
  else if code c =? 9 then "\t"
  else if code c <? 32 then
    "\u00" +:+ String (hex_digit (code c / 16)) (String (hex_digit (code c mod 16)) "")
  else String c "".

Fixpoint quote_body (s : string) : string :=
  match s with
  | EmptyString => ""
  | String c r => quote_char c +:+ quote_body r
  end.

Definition QuoteJSONString (s : string) : string :=
  String dquote (quote_body s +:+ String dquote "").

Fixpoint join (sep : string) (l : list string) : string :=
  match l with
  | [] => ""
  | [x] => x
  | x :: r => x +:+ sep +:+ join sep r
  end.

(** [JSON.stringify(v)] with no indentation. *)
Fixpoint JSON_stringify (v : json) : string :=
  match v with
  | JNull => "null"
  | JBool true => "true"
  | JBool false => "false"
  | JNum l => l
  | JStr s => QuoteJSONString s
  | JArr l =>
    "[" +:+ join ","
      ((fix each (l : list json) : list string :=
          match l with
          | [] => []
          | x :: r => JSON_stringify x :: each r
          end) l) +:+ "]"
  | JObj m =>
    "{" +:+ join ","
      ((fix each (m : list (string * json)) : list string :=
          match m with
          | [] => []
          | (k, x) :: r => (QuoteJSONString k +:+ ":" +:+ JSON_stringify x) :: each r
          end) m) +:+ "}"
  end.

(** *** [Set]

    A set is the list of its elements in insertion order. *)
Definition JSSet : Type := list json.

(** SameValueZero on parsed values: strings by content, arrays and objects
    by identity (two parsed ones are never the same).  Numbers are compared
    by the text of their literals, which tells apart two literals of one
    value ([1] and [1.0]) that a [Set] takes for one element: the sets of
    the script hold strings, and no statement below is about a set with
    numbers in it. *)
Definition SameValueZero (a b : json) : bool :=
  match a, b with
  | JNull, JNull => true
  | JBool x, JBool y => Bool.eqb x y
  | JNum x, JNum y => String.eqb x y
  | JStr x, JStr y => String.eqb x y
  | _, _ => false
  end.

Definition Set_has (s : JSSet) (v : json) : bool :=
  existsb (SameValueZero v) s.

Definition Set_add (s : JSSet) (v : json) : JSSet :=
  if Set_has s v then s else s ++ [v].

Definition Set_size (s : JSSet) : nat := length s.

(** Length in bytes of the UTF-8 sequence that [c] starts. *)
Definition utf8_len (c : ascii) : nat :=
  if code c <? 192 then 1%nat
  else if code c <? 224 then 2%nat
  else if code c <? 240 then 3%nat
  else 4%nat.

Fixpoint split_at (n : nat) (s : string) : string * string :=
  match n, s with
  | S n', String c r => let '(a, b) := split_at n' r in (String c a, b)
  | _, _ => ("", s)
  end.

(** The code points of a string, each as a string (string iteration). *)
Fixpoint code_points (fuel : nat) (s : string) : list string :=
  match fuel, s with
  | S fuel', String c _ =>
    let '(cp, r) := split_at (utf8_len c) s in cp :: code_points fuel' r
  | _, _ => []
  end.

(** [new Set(iterable)] on a parsed value: [None] stands for the TypeError
    thrown on a value that is not iterable. *)
Definition new_Set (iterable : json) : option JSSet :=
  match iterable with
  | JNull => Some []
  | JArr l => Some (fold_left Set_add l [])
  | JStr s => Some (fold_left Set_add (JStr <$> code_points (String.length s) s) [])
  | JBool _ | JNum _ | JObj _ => None
  end.

(** [Array.from(set)]. *)
Definition Array_from (s : JSSet) : json := JArr s.

End JS.

(** ** The page: what the script reads and writes of the document *)

Module Dom.

(** A [.quiz] element: whether it carries the [answered] class, and the
    [data-correct] attribute of each of its [.option] elements. *)
Record Quiz : Type := {
  answered : bool;
  options : list (option string)
}.

(** A [.task] element; [nextButton] is the [disabled] flag of its
    [.btn-next] element, when it has one. *)
Record Task : Type := {
  id : string;
  locked : bool;
  active : bool;
  questionsTotal : option string;
  quizzes : list Quiz;
  nextButton : option bool
}.

(** The custom alert box. *)
Record Alert : Type := {
  title : string;
  message : string;
  hidden : bool
}.

Record Document : Type := {
  tasks : list Task;
  alert : Alert;
  resetBtn : bool
}.

Definition set_answered (b : bool) (q : Quiz) : Quiz :=
  {| answered := b; options := options q |}.

Definition set_locked (b : bool) (t : Task) : Task :=
  {| id := id t; locked := b; active := active t;
     questionsTotal := questionsTotal t; quizzes := quizzes t;
     nextButton := nextButton t |}.

Definition set_active (b : bool) (t : Task) : Task :=
  {| id := id t; locked := locked t; active := b;
     questionsTotal := questionsTotal t; quizzes := quizzes t;
     nextButton := nextButton t |}.

Definition set_quizzes (qs : list Quiz) (t : Task) : Task :=
  {| id := id t; locked := locked t; active := active t;
     questionsTotal := questionsTotal t; quizzes := qs;
     nextButton := nextButton t |}.

(** [nextButton.disabled = false], guarded by [if (nextButton)]. *)
Definition enable_nextButton (t : Task) : Task :=
  {| id := id t; locked := locked t; active := active t;
     questionsTotal := questionsTotal t; quizzes := quizzes t;
     nextButton := match nextButton t with Some _ => Some false | None => None end |}.

Definition set_tasks (ts : list Task) (d : Document) : Document :=
  {| tasks := ts; alert := alert d; resetBtn := resetBtn d |}.

Definition set_alert (a : Alert) (d : Document) : Document :=
  {| tasks := tasks d; alert := a; resetBtn := resetBtn d |}.

(** [task.querySelectorAll('.quiz.answered').length]. *)
Definition answeredInTask (t : Task) : nat :=
  length (filter (fun q => answered q = true) (quizzes t)).

(** [document.getElementById(i)]: the first task with that id, by index. *)
Definition getElementById (i : string) (ts : list Task) : option (nat * Task) :=
  list_find (fun t => id t = i) ts.

(** [document.querySelectorAll('.quiz').length]. *)
Definition count_quizzes (d : Document) : nat :=
  length (concat (quizzes <$> tasks d)).

End Dom.

(** ** The script *)

Module Engine.
Import JS Dom.

(** Local-storage keys. *)
Definition LS_SCORE : string := "aware_score".
Definition LS_ANSWERED : string := "aware_answered".
Definition LS_UNLOCKED : string := "aware_unlocked".

(** The variables of the script, the store and the page.  [listeners]
    tells whether [setupEventListeners] has run. *)
Record State : Type := {
  score : number;
  answeredCorrectlyCount : nat;
  answeredQuizIds : JSSet;
  unlockedTaskIds : JSSet;
  localStorage : gmap string string;
  document : Document;
  listeners : bool
}.

Definition set_score (x : number) (st : State) : State :=
  {| score := x; answeredCorrectlyCount := answeredCorrectlyCount st;
     answeredQuizIds := answeredQuizIds st; unlockedTaskIds := unlockedTaskIds st;
     localStorage := localStorage st; document := document st;
     listeners := listeners st |}.

Definition set_answeredCorrectlyCount (n : nat) (st : State) : State :=
  {| score := score st; answeredCorrectlyCount := n;
     answeredQuizIds := answeredQuizIds st; unlockedTaskIds := unlockedTaskIds st;
     localStorage := localStorage st; document := document st;
     listeners := listeners st |}.

Definition set_answeredQuizIds (s : JSSet) (st : State) : State :=
  {| score := score st; answeredCorrectlyCount := answeredCorrectlyCount st;
     answeredQuizIds := s; unlockedTaskIds := unlockedTaskIds st;
     localStorage := localStorage st; document := document st;
     listeners := listeners st |}.

Definition set_unlockedTaskIds (s : JSSet) (st : State) : State :=
  {| score := score st; answeredCorrectlyCount := answeredCorrectlyCount st;
     answeredQuizIds := answeredQuizIds st; unlockedTaskIds := s;
     localStorage := localStorage st; document := document st;
     listeners := listeners st |}.

Definition set_localStorage (ls : gmap string string) (st : State) : State :=
  {| score := score st; answeredCorrectlyCount := answeredCorrectlyCount st;
     answeredQuizIds := answeredQuizIds st; unlockedTaskIds := unlockedTaskIds st;
     localStorage := ls; document := document st;
     listeners := listeners st |}.

Definition set_document (d : Document) (st : State) : State :=
  {| score := score st; answeredCorrectlyCount := answeredCorrectlyCount st;
     answeredQuizIds := answeredQuizIds st; unlockedTaskIds := unlockedTaskIds st;
     localStorage := localStorage st; document := d;
     listeners := listeners st |}.

Definition set_listeners (b : bool) (st : State) : State :=
  {| score := score st; answeredCorrectlyCount := answeredCorrectlyCount st;
     answeredQuizIds := answeredQuizIds st; unlockedTaskIds := unlockedTaskIds st;
     localStorage := localStorage st; document := document st;
     listeners := b |}.

(** The tasks of the page after [f]. *)
Definition on_tasks (f : list Task -> list Task) (st : State) : State :=
  set_document (set_tasks (f (tasks (document st))) (document st)) st.

(** Exceptions of the host that the script does not catch. *)
Inductive error : Type :=
| SyntaxError
| TypeError.

(** How a call ends, with the state it leaves. *)
Inductive outcome : Type :=
| Returned (st : State)
| Thrown (e : error) (st : State).

Definition state_of (o : outcome) : State :=
  match o with
  | Returned st => st
  | Thrown _ st => st
  end.

(** Truthiness of what [getItem] returns: [null] and the empty string are
    falsy. *)
Definition truthy (v : option string) : bool :=
  match v with
  | Some (String _ _) => true
  | _ => false
  end.

(** [`${task.id}_${quizIdx}`]. *)
Definition quizId_of (task : Task) (quizIdx : nat) : string :=
  id task +:+ "_" +:+ Number_toString (Int (Z.of_nat quizIdx)).

(** [showCustomAlert(title, message)]. *)
Definition showCustomAlert (t m : string) (st : State) : State :=
  set_document
    (set_alert {| title := t; message := m; hidden := false |} (document st)) st.

(** [hideCustomAlert()]. *)
Definition hideCustomAlert (st : State) : State :=
  let a := alert (document st) in
  set_document
    (set_alert {| title := title a; message := message a; hidden := true |}
       (document st)) st.

(** [saveStateToLocalStorage()]. *)
Definition saveStateToLocalStorage (st : State) : State :=
  let ls1 := <[LS_SCORE := Number_toString (score st)]> (localStorage st) in
  let ls2 := <[LS_ANSWERED := JSON_stringify (Array_from (answeredQuizIds st))]> ls1 in
  let ls3 := <[LS_UNLOCKED := JSON_stringify (Array_from (unlockedTaskIds st))]> ls2 in
  set_localStorage ls3 st.

(** [new Set(JSON.parse(saved))], or the exception it throws. *)
Definition Set_of_saved (saved : string) : error + JSSet :=
  match JSON_parse saved with
  | None => inl SyntaxError
  | Some v =>
    match new_Set v with
    | None => inl TypeError
    | Some s => inr s
    end
  end.

(** [saved ? new Set(JSON.parse(saved)) : new Set()]. *)
Definition Set_of_slot (saved : option string) : error + JSSet :=
  match saved with
  | Some s => if truthy saved then Set_of_saved s else inr []
  | None => inr []
  end.

(** [saved ? parseInt(saved) : 0]. *)
Definition score_of_slot (saved : option string) : number :=
  match saved with
  | Some s => if truthy saved then parseInt s else Int 0
  | None => Int 0
  end.

(** [restoreStateFromLocalStorage()]: the three assignments in source
    order; an exception leaves the later ones undone. *)
Definition restoreStateFromLocalStorage (st : State) : outcome :=
  let savedScore := localStorage st !! LS_SCORE in
  let st1 := set_score (score_of_slot savedScore) st in
  let savedAnswered := localStorage st1 !! LS_ANSWERED in
  match Set_of_slot savedAnswered with
  | inl e => Thrown e st1
  | inr a =>
    let st2 := set_answeredQuizIds a st1 in
    let st3 := set_answeredCorrectlyCount (Set_size (answeredQuizIds st2)) st2 in
    let savedUnlocked := localStorage st3 !! LS_UNLOCKED in
    match Set_of_slot savedUnlocked with
    | inl e => Thrown e st3
    | inr u => Returned (set_unlockedTaskIds u st3)
    end
  end.

(** Whether the answered count of a task has reached its declared total:
    the test [answeredInTask >= totalInTask] of the script. *)
Definition task_complete (t : Task) : bool :=
  let totalInTask := parseInt_opt (questionsTotal t) in
  ge (Int (Z.of_nat (answeredInTask t))) totalInTask.

(** [restoreUIState()]: its three passes over the tasks. *)
Definition restoreUIState (st : State) : State :=
  let pass1 (task : Task) :=
    set_quizzes
      (imap (fun quizIdx quiz =>
               if Set_has (answeredQuizIds st) (JStr (quizId_of task quizIdx))
               then set_answered true quiz else quiz)
            (quizzes task)) task in
  let pass2 (task : Task) :=
    if Set_has (unlockedTaskIds st) (JStr (id task))
    then set_locked false task else task in
  let pass3 (task : Task) :=
    if task_complete task then enable_nextButton task else task in
  on_tasks (fun ts => pass3 <$> (pass2 <$> (pass1 <$> ts))) st.

(** [setupEventListeners()]. *)
Definition setupEventListeners (st : State) : State := set_listeners true st.

(** [initializeGame()]. *)
Definition initializeGame (st : State) : outcome :=
  match restoreStateFromLocalStorage st with
  | Thrown e st' => Thrown e st'
  | Returned st1 => Returned (restoreUIState (setupEventListeners st1))
  end.

(** The script run on a freshly loaded page [page] over the store [ls]:
    the declarations at its top, then [initializeGame()]. *)
Definition script (page : Document) (ls : gmap string string) : outcome :=
  initializeGame
    {| score := Int 0; answeredCorrectlyCount := 0%nat;
       answeredQuizIds := []; unlockedTaskIds := [];
       localStorage := ls; document := page; listeners := false |}.

(** [handleTaskHeaderClick(task)], the task given by its index. *)
Definition handleTaskHeaderClick (ti : nat) (st : State) : State :=
  match tasks (document st) !! ti with
  | None => st
  | Some task =>
    if locked task then
      showCustomAlert "Task Locked!"
        "You must complete the previous tasks to unlock this one." st
    else
      on_tasks (fun ts =>
        alter (fun t => set_active (negb (active t)) t) ti
          (imap (fun i activeTask =>
                   if active activeTask && negb (Nat.eqb i ti)
                   then set_active false activeTask else activeTask) ts)) st
  end.

(** [handleOptionClick(selectedOption, currentTask)]: the option given by
    the index of its task, of its quiz in the task and of the option in the
    quiz. *)
Definition handleOptionClick (ti qi oi : nat) (st : State) : State :=
  match tasks (document st) !! ti with
  | None => st
  | Some currentTask =>
    match quizzes currentTask !! qi with
    | None => st
    | Some quiz =>
      match options quiz !! oi with
      | None => st
      | Some selectedOption =>
        let quizId := quizId_of currentTask qi in
        if Set_has (answeredQuizIds st) (JStr quizId) then st
        else
          let isCorrect := bool_decide (selectedOption = Some "true") in
          if isCorrect then
            let st1 :=
              on_tasks (alter (fun t =>
                set_quizzes (alter (set_answered true) qi (quizzes t)) t) ti) st in
            let st2 := set_score (incr (score st1)) st1 in
            let st3 := set_answeredCorrectlyCount (S (answeredCorrectlyCount st2)) st2 in
            let st4 := set_answeredQuizIds (Set_add (answeredQuizIds st3) (JStr quizId)) st3 in
            let st5 := saveStateToLocalStorage st4 in
            match tasks (document st5) !! ti with
            | None => st5
            | Some currentTask' =>
              if task_complete currentTask' then
                let st6 := on_tasks (alter enable_nextButton ti) st5 in
                let st7 :=
                  set_unlockedTaskIds
                    (Set_add (unlockedTaskIds st6) (JStr (id currentTask'))) st6 in
                saveStateToLocalStorage st7
              else st5
            end
          else st
      end
    end
  end.

(** [unlockAndActivateTask(task)]. *)
Definition unlockAndActivateTask (ti : nat) (st : State) : State :=
  on_tasks (alter (fun t => set_active true (set_locked false t)) ti) st.

(** The id the script computes for the task after [currentTask]. *)
Definition nextTaskId_of (currentTask : Task) : string :=
  let currentTaskId := parseInt (String_replace "task" "" (id currentTask)) in
  "task" +:+ Number_toString (incr currentTaskId).

(** [handleNextButtonClick(currentTask)]. *)
Definition handleNextButtonClick (ti : nat) (st : State) : State :=
  match tasks (document st) !! ti with
  | None => st
  | Some currentTask =>
    let st1 := on_tasks (alter (set_active false) ti) st in
    let nextTaskId := nextTaskId_of currentTask in
    match getElementById nextTaskId (tasks (document st1)) with
    | Some (ni, nextTask) =>
      let st2 := unlockAndActivateTask ni st1 in
      let st3 :=
        set_unlockedTaskIds (Set_add (unlockedTaskIds st2) (JStr (id nextTask))) st2 in
      saveStateToLocalStorage st3
    | None =>
      showCustomAlert "Congratulations!"
        ("You've completed the Cyber Trap Room! Your final score is "
           +:+ Number_toString (score st1) +:+ "/"
           +:+ Number_toString (Int (Z.of_nat (count_quizzes (document st1))))
           +:+ ". Keep an eye out for phishing attempts!") st1
    end
  end.

(** The click listener of the reset button: the three slots are removed
    and the page is reloaded, which runs the script again on the page as
    served. *)
Definition resetBtn_click (page : Document) (st : State) : outcome :=
  let ls1 := delete LS_SCORE (localStorage st) in
  let ls2 := delete LS_ANSWERED ls1 in
  let ls3 := delete LS_UNLOCKED ls2 in
  script page ls3.

(** What the user can do on the page within one session. *)
Inductive Command : Type :=
| HeaderClick (ti : nat)
| OptionClick (ti qi oi : nat)
| NextClick (ti : nat)
| AlertClose.

(** The handler of a command. *)
Definition handle (c : Command) (st : State) : State :=
  match c with
  | HeaderClick ti => handleTaskHeaderClick ti st
  | OptionClick ti qi oi => handleOptionClick ti qi oi st
  | NextClick ti => handleNextButtonClick ti st
  | AlertClose => hideCustomAlert st
  end.

(** Delivery of a click by the browser: nothing is handled before
    [setupEventListeners] has run, and a disabled button fires no click. *)
Definition dispatch (c : Command) (st : State) : State :=
  if listeners st then
    match c with
    | NextClick ti =>
      match tasks (document st) !! ti with
      | Some t =>
        match nextButton t with
        | Some false => handle c st
        | _ => st
        end
      | None => st
      end
    | _ => handle c st
    end
  else st.

Definition run (cs : list Command) (st : State) : State :=
  fold_left (fun s c => dispatch c s) cs st.

End Engine.

(** ** Notions used in the statements *)

Module Props.
Import JS Dom Engine.

(** A set of ids: strings, without repetition. *)
Definition id_set (s : JSSet) : Prop :=
  exists l : list string, s = JStr <$> l /\ NoDup l.

(** The two sets of a state hold ids. *)
Definition id_sets (st : State) : Prop :=
  id_set (answeredQuizIds st) /\ id_set (unlockedTaskIds st).

(** A slot of the store holds [text], or is absent while the variable has
    its default value. *)
Definition slot_mirrors (slot : option string) (text : string) (is_default : Prop)
  : Prop :=
  slot = Some text \/ (slot = None /\ is_default).

(** The store holds what [saveStateToLocalStorage] would write for the
    variables of the state; a slot never written is absent, and its variable
    has the default value. *)
Definition mirrors (st : State) : Prop :=
  let ls := localStorage st in
  slot_mirrors (ls !! LS_SCORE) (Number_toString (score st)) (score st = Int 0) /\
  slot_mirrors (ls !! LS_ANSWERED)
    (JSON_stringify (Array_from (answeredQuizIds st))) (answeredQuizIds st = []) /\
  slot_mirrors (ls !! LS_UNLOCKED)
    (JSON_stringify (Array_from (unlockedTaskIds st))) (unlockedTaskIds st = []).

(** The score is the number of answered ids. *)
Definition score_counts (st : State) : Prop :=
  score st = Int (Z.of_nat (Set_size (answeredQuizIds st))).

(** The invariant of the states reached from a first visit. *)
Definition consistent (st : State) : Prop :=
  id_sets st /\ score_counts st /\ mirrors st.

(** How the script may change a task element: the id and the declared
    total stay, a task that is not locked stays so, answered marks are only
    added, and the next button is left as it is or enabled on a complete
    task. *)
Definition task_evolves (t t' : Task) : Prop :=
  id t' = id t /\
  questionsTotal t' = questionsTotal t /\
  (locked t = false -> locked t' = false) /\
  (answeredInTask t <= answeredInTask t')%nat /\
  (nextButton t' = nextButton t \/
   (nextButton t' = Some false /\ task_complete t' = true)).

(** Every enabled next button belongs to a complete task. *)
Definition buttons_gated (ts : list Task) : Prop :=
  Forall (fun t => nextButton t = Some false -> task_complete t = true) ts.


(** [a <= b] on scores; NaN compares with itself only. *)
Definition score_le (a b : number) : Prop :=
  match a, b with
  | Int x, Int y => x <= y
  | NaN, NaN => True
  | _, _ => False
  end.

(** The states a visitor can reach from a first visit (empty store): by
    commands, by reloading the page, and by the reset button, whose listener
    is attached when the button exists and [setupEventListeners] has run. *)
Inductive reachable (page : Document) : State -> Prop :=
| reach_first_visit :
    reachable page (state_of (script page ∅))
| reach_command (c : Command) (st : State) :
    reachable page st -> reachable page (dispatch c st)
| reach_reload (st : State) :
    reachable page st -> reachable page (state_of (script page (localStorage st)))
| reach_reset (st : State) :
    reachable page st ->
    listeners st = true -> resetBtn (document st) = true ->
    reachable page (state_of (resetBtn_click page st)).

(** *** A page for examples: two tasks, the second one locked *)

Definition demo_quiz : Quiz :=
  {| answered := false; options := [Some "true"; Some "false"; None] |}.

Definition demo_task1 : Task :=
  {| id := "task1"; locked := false; active := true;
     questionsTotal := Some "2"; quizzes := [demo_quiz; demo_quiz];
     nextButton := Some true |}.

Definition demo_task2 : Task :=
  {| id := "task2"; locked := true; active := false;
     questionsTotal := Some "1"; quizzes := [demo_quiz];
     nextButton := Some true |}.

Definition demo_page : Document :=
  {| tasks := [demo_task1; demo_task2];
     alert := {| title := ""; message := ""; hidden := true |};
     resetBtn := true |}.

(** A task with no answered quiz and the given [data-questions-total]. *)
Definition demo_task_with_total (total : option string) : Task :=
  {| id := "task1"; locked := false; active := true;
     questionsTotal := total; quizzes := [demo_quiz];
     nextButton := Some true |}.

(** The state of a first visit of the demo page. *)
Definition demo_start : State := state_of (script demo_page ∅).


(** *** Notions for the properties of a whole session *)

(** A click on the reset button, as the browser delivers it: the listener
    is attached by [setupEventListeners], and only when the button exists. *)
Definition resetBtn_dispatch (page : Document) (st : State) : outcome :=
  if listeners st && resetBtn (document st) then resetBtn_click page st
  else Returned st.

(** The task element with its quiz [quizIdx] marked as answered. *)
Definition marked_task (quizIdx : nat) (t : Task) : Task :=
  set_quizzes (alter (set_answered true) quizIdx (quizzes t)) t.

(** The task element after the first correct answer to its quiz [quizIdx]:
    the quiz is marked, and the next button is enabled when the task is
    complete by then. *)
Definition answered_task (quizIdx : nat) (t : Task) : Task :=
  let t1 := marked_task quizIdx t in
  if task_complete t1 then enable_nextButton t1 else t1.

(** The task elements after a click on the header of the unlocked task
    [ti]: the other active tasks are closed, then the task is toggled. *)
Definition header_tasks (ti : nat) (ts : list Task) : list Task :=
  alter (fun t => set_active (negb (active t)) t) ti
    (imap (fun i activeTask =>
             if active activeTask && negb (Nat.eqb i ti)
             then set_active false activeTask else activeTask) ts).

(** The task element after [restoreUIState], for the two sets given. *)
Definition restored_task (answeredIds unlockedIds : JSSet) (task : Task) : Task :=
  let t1 :=
    set_quizzes
      (imap (fun quizIdx quiz =>
               if Set_has answeredIds (JStr (quizId_of task quizIdx))
               then set_answered true quiz else quiz)
            (quizzes task)) task in
  let t2 := if Set_has unlockedIds (JStr (id t1)) then set_locked false t1 else t1 in
  if task_complete t2 then enable_nextButton t2 else t2.

(** How the script may change a quiz element: the options stay, and an
    answered mark is never taken away. *)
Definition quiz_evolves (q q' : Quiz) : Prop :=
  options q' = options q /\ (answered q = true -> answered q' = true).

(** The same for the quizzes of a task element. *)
Definition quizzes_evolve (t t' : Task) : Prop :=
  id t' = id t /\ Forall2 quiz_evolves (quizzes t) (quizzes t').

(** The quiz ids of a page, in document order. *)
Definition quiz_ids (ts : list Task) : list string :=
  concat ((fun t => imap (fun quizIdx _ => quizId_of t quizIdx) (quizzes t)) <$> ts).

(** The page is served with no quiz marked as answered. *)
Definition served_unanswered (ts : list Task) : Prop :=
  Forall (fun t => Forall (fun q => answered q = false) (quizzes t)) ts.

(** No two task elements share an id. *)
Definition distinct_ids (ts : list Task) : Prop := NoDup (id <$> ts).

(** The next button of a complete task is not disabled. *)
Definition buttons_open (ts : list Task) : Prop :=
  Forall (fun t => task_complete t = true -> nextButton t <> Some true) ts.

(** Every answered mark that the page was not served with has its quiz id
    in [answeredQuizIds]. *)
Definition marks_recorded (page : list Task) (st : State) : Prop :=
  forall ti t0 t qi q0 q,
    page !! ti = Some t0 -> tasks (document st) !! ti = Some t ->
    quizzes t0 !! qi = Some q0 -> quizzes t !! qi = Some q ->
    answered q = true ->
    answered q0 = true \/
    Set_has (answeredQuizIds st) (JStr (quizId_of t qi)) = true.

(** Every quiz whose id is in [answeredQuizIds] carries the answered
    mark. *)
Definition recorded_marked (st : State) : Prop :=
  forall ti t qi q,
    tasks (document st) !! ti = Some t -> quizzes t !! qi = Some q ->
    Set_has (answeredQuizIds st) (JStr (quizId_of t qi)) = true ->
    answered q = true.

(** Every task that is unlocked without being served so has its id in
    [unlockedTaskIds]. *)
Definition unlocks_recorded (page : list Task) (st : State) : Prop :=
  forall ti t0 t,
    page !! ti = Some t0 -> tasks (document st) !! ti = Some t ->
    locked t = false ->
    locked t0 = false \/ Set_has (unlockedTaskIds st) (JStr (id t)) = true.

(** Every answered id is the id of a quiz of the page. *)
Definition answers_known (page : list Task) (st : State) : Prop :=
  forall x, JStr x ∈ answeredQuizIds st -> x ∈ quiz_ids page.

(** A string of decimal digits. *)
Fixpoint digits_only (s : string) : bool :=
  match s with
  | String c r => is_digit c && digits_only r
  | EmptyString => true
  end.

End Props.

(** ** The name of the exported report (frontend/src/App.js) *)

Module Report.

(** A JavaScript string as the sequence of its UTF-16 code units, on which
    a regular expression without the flag [u] works. *)
Definition ustring : Type := list N.

(** The code units of an ASCII text. *)
Definition of_ascii (s : string) : ustring :=
  N_of_ascii <$> list_ascii_of_string s.

(** Whether the class [a-z0-9] matches a code unit under the flag [i]:
    the letters of both cases and the digits.  No code unit from 128 on
    matches, since Canonicalize never maps one below 128. *)
Definition matches_alnum (cu : N) : bool :=
  (((97 <=? cu) && (cu <=? 122)) || ((65 <=? cu) && (cu <=? 90))
   || ((48 <=? cu) && (cu <=? 57)))%N.

(** [url.replace(/[^a-z0-9]/gi, '_')]: every code unit that the class does
    not match becomes an underscore. *)
Definition sanitize (url : ustring) : ustring :=
  (fun cu => if matches_alnum cu then cu else 95%N) <$> url.

(** The name under which [generatePDF] saves the report of [url]. *)
Definition pdf_file_name (url : ustring) : ustring :=
  of_ascii "phishguard-report-" ++ sanitize url ++ of_ascii ".pdf".

(** The characters of a file name that cannot leave its directory:
    letters, digits, underscore, hyphen and dot. *)
Definition plain_char (cu : N) : bool :=
  matches_alnum cu || (cu =? 95)%N || (cu =? 45)%N || (cu =? 46)%N.

End Report.

(** * Properties *)

Import JS Dom Engine Props.

(** ** Numbers and their decimal text *)

Ltac eval_digits :=
  repeat match goal with
  | |- context [digit_value ?c] =>
    let v := eval vm_compute in (digit_value c) in
    change (digit_value c) with v; cbv iota beta
  end.

Lemma mathInt_of_lu (d a : Decimal.uint) :
  fold_left (fun acc x => acc * 10 + x) (radix_digits 10 (NilEmpty.string_of_uint d))
    (Z.of_N (DecimalPos.Unsigned.of_lu a))
  = Z.of_N (DecimalPos.Unsigned.of_lu (Decimal.revapp d a)).
Proof.
  revert a; induction d; intros a; [reflexivity | ..];
    cbn [NilEmpty.string_of_uint radix_digits Decimal.revapp];
    (match goal with
     | |- context [Decimal.revapp _ ?x] => rewrite <- (IHd x)
     end);
    eval_digits; cbn [Z.ltb Z.compare Pos.compare Pos.compare_cont fold_left];
    f_equal; cbn [Unsigned.of_lu]; lia.
Qed.

Lemma mathInt_uint (d : Decimal.uint) :
  mathInt 10 (radix_digits 10 (NilEmpty.string_of_uint d)) = Z.of_uint d.
Proof.
  unfold mathInt, Z.of_uint.
  rewrite DecimalPos.Unsigned.of_uint_alt.
  exact (mathInt_of_lu d Decimal.Nil).
Qed.

Lemma radix_digits_nonnil (d : Decimal.uint) :
  d <> Decimal.Nil -> radix_digits 10 (NilEmpty.string_of_uint d) <> [].
Proof.
  destruct d; [congruence | ..]; intros _;
    cbn [NilEmpty.string_of_uint radix_digits]; eval_digits; discriminate.
Qed.

Lemma parseInt_stages (input S1 S2 : string) (sign R : Z) :
  split_sign (trim_start input) = (sign, S1) ->
  split_radix S1 = (R, S2) ->
  parseInt input =
    match radix_digits R S2 with
    | [] => NaN
    | ds => Int (sign * mathInt R ds)
    end.
Proof. intros H1 H2. unfold parseInt. rewrite H1, H2. reflexivity. Qed.

Lemma split_radix_uint (d : Decimal.uint) :
  split_radix (NilEmpty.string_of_uint d) = (10, NilEmpty.string_of_uint d).
Proof. destruct d as [|d|d|d|d|d|d|d|d|d|d]; try reflexivity. destruct d; reflexivity. Qed.

Lemma split_sign_uint (d : Decimal.uint) :
  split_sign (trim_start (NilEmpty.string_of_uint d)) = (1, NilEmpty.string_of_uint d).
Proof. destruct d; reflexivity. Qed.

(** The decimal text of a non-empty digit sequence parses to its value,
    with or without a minus sign before it. *)
Lemma parseInt_uint (d : Decimal.uint) :
  d <> Decimal.Nil ->
  parseInt (NilEmpty.string_of_uint d) = Int (Z.of_uint d) /\
  parseInt (String "-" (NilEmpty.string_of_uint d)) = Int (- Z.of_uint d).
Proof.
  intros Hd.
  pose proof (radix_digits_nonnil d Hd) as Hne.
  pose proof (mathInt_uint d) as Hv.
  split.
  - rewrite (parseInt_stages _ _ _ _ _ (split_sign_uint d) (split_radix_uint d)).
    destruct (radix_digits _ _); [congruence|]. rewrite Hv; f_equal; lia.
  - rewrite (parseInt_stages (String "-" (NilEmpty.string_of_uint d)) _ _ (-1) _
               eq_refl (split_radix_uint d)).
    destruct (radix_digits _ _); [congruence|]. rewrite Hv; f_equal; lia.
Qed.

Lemma NilZero_string_of_uint_nonnil (d : Decimal.uint) :
  d <> Decimal.Nil -> NilZero.string_of_uint d = NilEmpty.string_of_uint d.
Proof. destruct d; [congruence | reflexivity..]. Qed.

Lemma parseInt_Number_toString (x : number) : parseInt (Number_toString x) = x.
Proof.
  destruct x as [|z]; [reflexivity|].
  unfold Number_toString.
  destruct z as [|p|p]; [reflexivity | ..]; cbn [Z.to_int NilZero.string_of_int];
    pose proof (DecimalPos.Unsigned.to_uint_nonnil p) as Hn;
    rewrite (NilZero_string_of_uint_nonnil _ Hn).
  - rewrite (proj1 (parseInt_uint _ Hn)); f_equal.
    exact (DecimalZ.of_to (Z.pos p)).
  - rewrite (proj2 (parseInt_uint _ Hn)); f_equal.
    exact (DecimalZ.of_to (Z.neg p)).
Qed.

Lemma Number_toString_truthy (x : number) :
  truthy (Some (Number_toString x)) = true.
Proof.
  destruct x as [|z]; [reflexivity|].
  unfold Number_toString; destruct z as [|p|p]; [reflexivity | ..];
    cbn [Z.to_int NilZero.string_of_int]; [|reflexivity].
  pose proof (DecimalPos.Unsigned.to_uint_nonnil p) as Hn.
  rewrite (NilZero_string_of_uint_nonnil _ Hn).
  destruct (Pos.to_uint p); [congruence | reflexivity..].
Qed.

(** ** JSON text of a list of ids *)

Lemma append_cons (x : ascii) (a b : string) :
  String x a +:+ b = String x (a +:+ b).
Proof. reflexivity. Qed.

Lemma append_assoc (a b c : string) : (a +:+ b) +:+ c = a +:+ (b +:+ c).
Proof.
  induction a as [|x a IH]; [reflexivity |].
  now rewrite !append_cons, IH.
Qed.

Lemma length_append (a b : string) :
  String.length (a +:+ b) = (String.length a + String.length b)%nat.
Proof.
  induction a as [|x a IH]; [reflexivity |].
  rewrite append_cons. cbn [String.length]. now rewrite IH.
Qed.

(** One quoted character is scanned back as one token that denotes it. *)
Lemma scan_quote_char (c : ascii) :
  exists t : char_token,
    (forall ts, decode_tokens (t :: ts) = String c (decode_tokens ts)) /\
    (forall r, scan_chars (quote_char c +:+ r) =
               match scan_chars r with
               | Some (ts, r') => Some (t :: ts, r')
               | None => None
               end).
Proof.
  destruct c as [[] [] [] [] [] [] [] []];
    eexists; (split; [| intros r; reflexivity]);
    intros ts; try reflexivity; destruct ts as [|[] ?]; reflexivity.
Qed.

Lemma scan_quote_body (s r : string) :
  exists ts, decode_tokens ts = s /\
    scan_chars (quote_body s +:+ String dquote r) = Some (ts, r).
Proof.
  induction s as [|c s [ts [Hd Hs]]].
  - exists []. split; reflexivity.
  - destruct (scan_quote_char c) as [t [Ht Hc]].
    exists (t :: ts). split.
    + now rewrite Ht, Hd.
    + cbn [quote_body]. rewrite append_assoc, Hc, Hs. reflexivity.
Qed.

Lemma parse_string_quote (s r : string) :
  parse_string (quote_body s +:+ String dquote r) = Some (s, r).
Proof.
  unfold parse_string.
  destruct (scan_quote_body s r) as [ts [Hd Hs]].
  now rewrite Hs, Hd.
Qed.

Lemma parse_value_dquote (fuel : nat) (s : string) :
  parse_value (S fuel) (String dquote s) =
    match parse_string s with
    | Some (x, r) => Some (JStr x, r)
    | None => None
    end.
Proof. reflexivity. Qed.

Lemma parse_value_QuoteJSONString (fuel : nat) (s r : string) :
  parse_value (S fuel) (QuoteJSONString s +:+ r) = Some (JStr s, r).
Proof.
  unfold QuoteJSONString.
  rewrite append_cons, append_assoc, append_cons, parse_value_dquote.
  change ("" +:+ r) with r.
  now rewrite parse_string_quote.
Qed.

Lemma stringify_each_JStr (l : list string) :
  (fix each (l : list json) : list string :=
     match l with
     | [] => []
     | x :: r => JSON_stringify x :: each r
     end) (JStr <$> l) = QuoteJSONString <$> l.
Proof. induction l as [|x l IH]; [reflexivity |]. cbn. now rewrite IH. Qed.

Lemma JSON_stringify_ids (l : list string) :
  JSON_stringify (JArr (JStr <$> l)) =
    "[" +:+ join "," (QuoteJSONString <$> l) +:+ "]".
Proof. cbn [JSON_stringify]. now rewrite stringify_each_JStr. Qed.

Lemma parse_elements_S (fuel : nat) (s : string) (acc : list json) :
  parse_elements (S fuel) s acc =
    match parse_value fuel s with
    | Some (v, r) =>
      match expect "," r, expect "]" r with
      | Some r', _ => parse_elements fuel r' (acc ++ [v])
      | None, Some r' => Some (JArr (acc ++ [v]), r')
      | None, None => None
      end
    | None => None
    end.
Proof. reflexivity. Qed.

Lemma parse_elements_ids (l : list string) :
  forall (x : string) (acc : list json) (fuel : nat) (r : string),
    (length l < fuel)%nat ->
    parse_elements (S fuel) (join "," (QuoteJSONString <$> (x :: l)) +:+ String "]" r) acc
    = Some (JArr (acc ++ (JStr <$> (x :: l))), r).
Proof.
  induction l as [|y l IH]; intros x acc fuel r Hf;
    (destruct fuel as [|fuel]; [cbn in Hf; lia |]);
    rewrite parse_elements_S.
  - cbn [fmap list_fmap join].
    rewrite parse_value_QuoteJSONString. reflexivity.
  - change (join "," (QuoteJSONString <$> x :: y :: l))
      with (QuoteJSONString x +:+ "," +:+ join "," (QuoteJSONString <$> y :: l)).
    rewrite !append_assoc, parse_value_QuoteJSONString.
    change (expect "," ("," +:+ join "," (QuoteJSONString <$> y :: l) +:+ String "]" r))
      with (Some (join "," (QuoteJSONString <$> y :: l) +:+ String "]" r)).
    cbv iota.
    rewrite IH by (cbn in Hf; lia).
    now rewrite <- app_assoc.
Qed.

Lemma length_join_ids (l : list string) (x : string) :
  (length l < String.length (join "," (QuoteJSONString <$> x :: l)))%nat.
Proof.
  revert x. induction l as [|y l IH]; intros x.
  - cbn. lia.
  - change (join "," (QuoteJSONString <$> x :: y :: l))
      with (QuoteJSONString x +:+ "," +:+ join "," (QuoteJSONString <$> y :: l)).
    rewrite !length_append. specialize (IH y).
    change (String.length ",") with 1%nat. cbn [length]. lia.
Qed.

Lemma parse_value_bracket_ids (fuel : nat) (x : string) (l : list string) (r : string) :
  parse_value (S fuel) (String "[" (join "," (QuoteJSONString <$> x :: l) +:+ r))
  = parse_elements fuel (join "," (QuoteJSONString <$> x :: l) +:+ r) [].
Proof. destruct l; reflexivity. Qed.

(** [JSON.parse] undoes [JSON.stringify] on an array of strings. *)
Lemma JSON_parse_stringify_ids (l : list string) :
  JSON_parse (JSON_stringify (JArr (JStr <$> l))) = Some (JArr (JStr <$> l)).
Proof.
  rewrite JSON_stringify_ids. unfold JSON_parse.
  destruct l as [|x l]; [reflexivity |].
  pose proof (length_join_ids l x) as Hlen.
  set (text := "[" +:+ join "," (QuoteJSONString <$> x :: l) +:+ "]").
  replace (2 * String.length text + 2)%nat
    with (S (S (2 * String.length text)))%nat by lia.
  subst text. rewrite append_cons.
  change ("" +:+ join "," (QuoteJSONString <$> x :: l) +:+ "]")
    with (join "," (QuoteJSONString <$> x :: l) +:+ String "]" "").
  rewrite parse_value_bracket_ids, parse_elements_ids; [reflexivity |].
  cbn [String.length]. rewrite length_append. lia.
Qed.

(** ** Fuel of the JSON parser *)

Lemma skip_ws_length (s : string) :
  (String.length (skip_ws s) <= String.length s)%nat.
Proof.
  induction s as [|c s IH]; cbn [skip_ws]; [lia |].
  destruct (is_json_ws c); cbn [String.length]; lia.
Qed.

Lemma eat_length (c : ascii) (s r : string) :
  eat c s = Some r -> String.length s = S (String.length r).
Proof.
  destruct s as [|c' s]; cbn [eat]; [discriminate |].
  destruct (Ascii.eqb c' c); [| discriminate]. now intros [= ->].
Qed.

Lemma expect_length (c : ascii) (s r : string) :
  expect c s = Some r -> (String.length r < String.length s)%nat.
Proof.
  unfold expect. intros H. apply eat_length in H.
  pose proof (skip_ws_length s). lia.
Qed.

Lemma scan_chars_length (n : nat) :
  forall s ts r,
    (String.length s <= n)%nat ->
    scan_chars s = Some (ts, r) -> (String.length r < String.length s)%nat.
Proof.
  induction n as [|n IH]; intros s ts r Hn H.
  - destruct s; [discriminate | cbn in Hn; lia].
  - destruct s as [|c s]; [discriminate |].
    cbn [scan_chars] in H. cbn [String.length] in *.
    destruct (Ascii.eqb c dquote); [injection H as _ <-; lia |].
    destruct (Ascii.eqb c backslash).
    + destruct s as [|e r1]; [discriminate |]. cbn [String.length] in *.
      assert (Hsimple : forall x,
                match scan_chars r1 with
                | Some (ts0, r') => Some (Raw x :: ts0, r')
                | None => None
                end = Some (ts, r) -> (String.length r < S (S (String.length r1)))%nat).
      { intros x Hx. destruct (scan_chars r1) as [[ts0 r']|] eqn:E; [| discriminate].
        injection Hx as _ <-. apply IH in E; lia. }
      repeat match type of H with
             | (if ?b then _ else _) = _ => destruct b; [now apply (Hsimple _ H) |]
             end.
      destruct (Ascii.eqb e "u"); [| discriminate].
      destruct r1 as [|h1 [|h2 [|h3 [|h4 r2]]]]; try discriminate.
      cbn [String.length] in *.
      destruct (hex4 h1 h2 h3 h4); [| discriminate].
      destruct (scan_chars r2) as [[ts0 r']|] eqn:E; [| discriminate].
      injection H as _ <-. apply IH in E; lia.
    + destruct (code c <? 32); [discriminate |].
      destruct (scan_chars s) as [[ts0 r']|] eqn:E; [| discriminate].
      injection H as _ <-. apply IH in E; lia.
Qed.

Lemma parse_string_length (s x r : string) :
  parse_string s = Some (x, r) -> (String.length r < String.length s)%nat.
Proof.
  unfold parse_string. destruct (scan_chars s) as [[ts r']|] eqn:E; [| discriminate].
  intros [= _ <-]. now apply (scan_chars_length (String.length s)) in E.
Qed.

Lemma span_digits_length (s : string) :
  (String.length (fst (span_digits s)) + String.length (snd (span_digits s))
   = String.length s)%nat.
Proof.
  induction s as [|c s IH]; cbn [span_digits]; [reflexivity |].
  destruct (is_digit c); [| reflexivity].
  destruct (span_digits s) as [d r]. cbn in *. lia.
Qed.

Lemma strip_prefix_length (p s r : string) :
  strip_prefix p s = Some r ->
  String.length s = (String.length p + String.length r)%nat.
Proof.
  revert s. induction p as [|a p IH]; intros s; cbn [strip_prefix].
  - now intros [= ->].
  - destruct s as [|b s]; [discriminate |].
    destruct (Ascii.eqb a b); [| discriminate].
    intros H. apply IH in H. cbn [String.length]. lia.
Qed.

Lemma lex_int_length (s i r : string) :
  lex_int s = Some (i, r) -> (String.length r < String.length s)%nat.
Proof.
  unfold lex_int. destruct (eat "0" s) as [r0|] eqn:E.
  - intros [= _ <-]. apply eat_length in E. lia.
  - pose proof (span_digits_length s) as H.
    destruct (span_digits s) as [[|c d] r']; [discriminate |].
    intros [= _ <-]. cbn [fst snd String.length] in H. lia.
Qed.

Lemma lex_frac_length (s f r : string) :
  lex_frac s = Some (f, r) -> (String.length r <= String.length s)%nat.
Proof.
  unfold lex_frac. destruct (eat "." s) as [r0|] eqn:E.
  - apply eat_length in E. pose proof (span_digits_length r0) as H.
    destruct (span_digits r0) as [[|c d] r']; [discriminate |].
    intros [= _ <-]. cbn [fst snd String.length] in H. lia.
  - intros [= _ <-]. lia.
Qed.

Lemma span_digits_rest (s x r : string) (lexeme : ascii -> string -> string) :
  match span_digits s with
  | (EmptyString, _) => None
  | (String c d, r') => Some (lexeme c d, r')
  end = Some (x, r) ->
  (String.length r <= String.length s)%nat.
Proof.
  pose proof (span_digits_length s) as H.
  destruct (span_digits s) as [[|c d] r']; [discriminate |].
  intros [= _ <-]. cbn [fst snd String.length] in H. lia.
Qed.

Lemma lex_exp_length (s x r : string) :
  lex_exp s = Some (x, r) -> (String.length r <= String.length s)%nat.
Proof.
  unfold lex_exp. destruct s as [|e s]; [intros [= _ <-]; lia |].
  destruct (Ascii.eqb e "e" || Ascii.eqb e "E"); [| intros [= _ <-]; lia].
  cbn [String.length].
  destruct (eat "+" s) as [r1|] eqn:E1;
    [| destruct (eat "-" s) as [r1|] eqn:E2];
    intros H;
    apply (span_digits_rest _ _ _ (fun c d => String e _ +:+ String c d)) in H;
    try apply eat_length in E1; try apply eat_length in E2; lia.
Qed.

Lemma lex_number_length (s l r : string) :
  lex_number s = Some (l, r) -> (String.length r < String.length s)%nat.
Proof.
  unfold lex_number.
  assert (H : forall sign s1, (String.length s1 <= String.length s)%nat ->
            match lex_int s1 with
            | None => None
            | Some (i, s2) =>
              match lex_frac s2 with
              | None => None
              | Some (f, s3) =>
                match lex_exp s3 with
                | None => None
                | Some (x, s4) => Some (sign +:+ i +:+ f +:+ x, s4)
                end
              end
            end = Some (l, r) -> (String.length r < String.length s)%nat).
  { intros sign s1 Hle.
    destruct (lex_int s1) as [[i s2]|] eqn:E1; [| discriminate].
    destruct (lex_frac s2) as [[f s3]|] eqn:E2; [| discriminate].
    destruct (lex_exp s3) as [[x s4]|] eqn:E3; [| discriminate].
    intros [= _ <-].
    apply lex_int_length in E1. apply lex_frac_length in E2.
    apply lex_exp_length in E3. lia. }
  destruct (eat "-" s) as [s1|] eqn:E.
  - apply eat_length in E. apply H. lia.
  - apply H. lia.
Qed.

Lemma parse_scalar_length (s : string) (v : json) (r : string) :
  parse_scalar s = Some (v, r) -> (String.length r < String.length s)%nat.
Proof.
  unfold parse_scalar.
  destruct (strip_prefix "true" s) as [r1|] eqn:E1.
  { intros [= _ <-]. apply strip_prefix_length in E1. cbn in E1. lia. }
  destruct (strip_prefix "false" s) as [r2|] eqn:E2.
  { intros [= _ <-]. apply strip_prefix_length in E2. cbn in E2. lia. }
  destruct (strip_prefix "null" s) as [r3|] eqn:E3.
  { intros [= _ <-]. apply strip_prefix_length in E3. cbn in E3. lia. }
  destruct (lex_number s) as [[l r4]|] eqn:E4; [| discriminate].
  intros [= _ <-]. now apply lex_number_length in E4.
Qed.

Lemma parse_value_S (fuel : nat) (s : string) :
  parse_value (S fuel) s =
    match skip_ws s with
    | EmptyString => None
    | String c r =>
      if Ascii.eqb c "[" then
        match expect "]" r with
        | Some r' => Some (JArr [], r')
        | None => parse_elements fuel r []
        end
      else if Ascii.eqb c "{" then
        match expect "}" r with
        | Some r' => Some (JObj [], r')
        | None => parse_members fuel r []
        end
      else if Ascii.eqb c dquote then
        match parse_string r with
        | Some (x, r') => Some (JStr x, r')
        | None => None
        end
      else parse_scalar (String c r)
    end.
Proof. reflexivity. Qed.

Lemma parse_members_S (fuel : nat) (s : string) (acc : list (string * json)) :
  parse_members (S fuel) s acc =
    match expect dquote s with
    | Some r =>
      match parse_string r with
      | Some (k, r1) =>
        match expect ":" r1 with
        | Some r2 =>
          match parse_value fuel r2 with
          | Some (v, r3) =>
            match expect "," r3, expect "}" r3 with
            | Some r4, _ => parse_members fuel r4 (acc ++ [(k, v)])
            | None, Some r4 => Some (JObj (acc ++ [(k, v)]), r4)
            | None, None => None
            end
          | None => None
          end
        | None => None
        end
      | None => None
      end
    | None => None
    end.
Proof. reflexivity. Qed.

(** A successful parse consumes at least one character. *)
Lemma parse_consumes (n : nat) :
  (forall s v r, parse_value n s = Some (v, r) ->
     (String.length r < String.length s)%nat) /\
  (forall s acc v r, parse_elements n s acc = Some (v, r) ->
     (String.length r < String.length s)%nat) /\
  (forall s acc v r, parse_members n s acc = Some (v, r) ->
     (String.length r < String.length s)%nat).
Proof.
  induction n as [|n [IHv [IHe IHm]]]; [repeat split; discriminate |].
  split; [| split].
  - intros s v r. rewrite parse_value_S.
    pose proof (skip_ws_length s) as Hs.
    destruct (skip_ws s) as [|c r0]; [discriminate |]. cbn [String.length] in Hs.
    destruct (Ascii.eqb c "[").
    { destruct (expect "]" r0) as [r'|] eqn:E.
      - intros [= _ <-]. apply expect_length in E. lia.
      - intros H. apply IHe in H. lia. }
    destruct (Ascii.eqb c "{").
    { destruct (expect "}" r0) as [r'|] eqn:E.
      - intros [= _ <-]. apply expect_length in E. lia.
      - intros H. apply IHm in H. lia. }
    destruct (Ascii.eqb c dquote).
    { destruct (parse_string r0) as [[x r']|] eqn:E; [| discriminate].
      intros [= _ <-]. apply parse_string_length in E. lia. }
    intros H. apply parse_scalar_length in H. cbn [String.length] in H. lia.
  - intros s acc v r. rewrite parse_elements_S.
    destruct (parse_value n s) as [[v1 r1]|] eqn:Ev; [| discriminate].
    apply IHv in Ev.
    destruct (expect "," r1) as [r'|] eqn:E1.
    { apply expect_length in E1. intros H. apply IHe in H. lia. }
    destruct (expect "]" r1) as [r'|] eqn:E2; [| discriminate].
    apply expect_length in E2. intros [= _ <-]. lia.
  - intros s acc v r. rewrite parse_members_S.
    destruct (expect dquote s) as [r0|] eqn:E0; [| discriminate].
    apply expect_length in E0.
    destruct (parse_string r0) as [[k r1]|] eqn:Ek; [| discriminate].
    apply parse_string_length in Ek.
    destruct (expect ":" r1) as [r2|] eqn:Ec; [| discriminate].
    apply expect_length in Ec.
    destruct (parse_value n r2) as [[v1 r3]|] eqn:Ev; [| discriminate].
    apply IHv in Ev.
    destruct (expect "," r3) as [r4|] eqn:E1.
    { apply expect_length in E1. intros H. apply IHm in H. lia. }
    destruct (expect "}" r3) as [r4|] eqn:E2; [| discriminate].
    apply expect_length in E2. intros [= _ <-]. lia.
Qed.

(** A parse that succeeds with some fuel succeeds, with the same result,
    with any fuel above twice the length of the text. *)
Lemma parse_fuel_enough (n : nat) :
  (forall s x, parse_value n s = Some x ->
     forall m, (2 * String.length s + 1 <= m)%nat -> parse_value m s = Some x) /\
  (forall s acc x, parse_elements n s acc = Some x ->
     forall m, (2 * String.length s + 2 <= m)%nat -> parse_elements m s acc = Some x) /\
  (forall s acc x, parse_members n s acc = Some x ->
     forall m, (2 * String.length s + 2 <= m)%nat -> parse_members m s acc = Some x).
Proof.
  induction n as [|n [IHv [IHe IHm]]]; [repeat split; discriminate |].
  destruct (parse_consumes n) as [Cv _].
  split; [| split].
  - intros s x H m Hm. destruct m as [|m]; [lia |].
    rewrite parse_value_S in *.
    pose proof (skip_ws_length s) as Hs.
    destruct (skip_ws s) as [|c r0]; [discriminate |]. cbn [String.length] in Hs.
    destruct (Ascii.eqb c "[").
    { destruct (expect "]" r0); [exact H |]. apply (IHe _ _ _ H). lia. }
    destruct (Ascii.eqb c "{").
    { destruct (expect "}" r0); [exact H |]. apply (IHm _ _ _ H). lia. }
    exact H.
  - intros s acc x H m Hm. destruct m as [|m]; [lia |].
    rewrite parse_elements_S in *.
    destruct (parse_value n s) as [[v1 r1]|] eqn:Ev; [| discriminate].
    rewrite (IHv _ _ Ev m) by lia. apply Cv in Ev.
    destruct (expect "," r1) as [r'|] eqn:E1; [| exact H].
    apply expect_length in E1. apply (IHe _ _ _ H). lia.
  - intros s acc x H m Hm. destruct m as [|m]; [lia |].
    rewrite parse_members_S in *.
    destruct (expect dquote s) as [r0|] eqn:E0; [| discriminate].
    apply expect_length in E0.
    destruct (parse_string r0) as [[k r1]|] eqn:Ek; [| discriminate].
    apply parse_string_length in Ek.
    destruct (expect ":" r1) as [r2|] eqn:Ec; [| discriminate].
    apply expect_length in Ec.
    destruct (parse_value n r2) as [[v1 r3]|] eqn:Ev; [| discriminate].
    rewrite (IHv _ _ Ev m) by lia. apply Cv in Ev.
    destruct (expect "," r3) as [r4|] eqn:E1; [| exact H].
    apply expect_length in E1. apply (IHm _ _ _ H). lia.
Qed.

(** [JSON_parse] fails only on a text that no amount of fuel parses. *)
Lemma JSON_parse_complete (n : nat) (text : string) (v : json) (r : string) :
  parse_value n text = Some (v, r) -> skip_ws r = "" -> JSON_parse text = Some v.
Proof.
  intros H Hr. unfold JSON_parse.
  rewrite (proj1 (parse_fuel_enough n) _ _ H) by lia.
  now rewrite Hr.
Qed.

(** ** Sets of ids *)

Lemma Set_has_ids (l : list string) (x : string) :
  Set_has (JStr <$> l) (JStr x) = true <-> x ∈ l.
Proof.
  unfold Set_has. induction l as [|y l IH]; cbn [fmap list_fmap existsb SameValueZero].
  - split; [discriminate | intros H; inversion H].
  - rewrite orb_true_iff, IH, String.eqb_eq, elem_of_cons. reflexivity.
Qed.

Lemma Set_has_ids_false (l : list string) (x : string) :
  Set_has (JStr <$> l) (JStr x) = false <-> x ∉ l.
Proof.
  rewrite <- Set_has_ids. destruct (Set_has _ _); split; congruence.
Qed.

Lemma Set_add_ids (l : list string) (x : string) :
  NoDup l ->
  exists l', Set_add (JStr <$> l) (JStr x) = JStr <$> l' /\ NoDup l' /\
             (forall y, y ∈ l' <-> y ∈ l \/ y = x).
Proof.
  intros Hl. unfold Set_add.
  destruct (Set_has (JStr <$> l) (JStr x)) eqn:E.
  - exists l. split; [reflexivity |]. split; [assumption |].
    apply Set_has_ids in E. intros y; split; [tauto | intros [?| ->]; assumption].
  - exists (l ++ [x]). apply Set_has_ids_false in E.
    split; [now rewrite fmap_app |]. split.
    + apply NoDup_app. split; [assumption |]. split; [| apply NoDup_singleton].
      intros y Hy Hy'. apply list_elem_of_singleton in Hy'. now subst.
    + intros y. rewrite elem_of_app, list_elem_of_singleton. reflexivity.
Qed.

Lemma Set_add_id_set (s : JSSet) (x : string) :
  id_set s -> id_set (Set_add s (JStr x)).
Proof.
  intros [l [-> Hl]]. destruct (Set_add_ids l x Hl) as [l' [H1 [H2 _]]].
  exists l'. now split.
Qed.

Lemma Set_has_add (s : JSSet) (x : string) :
  Set_has (Set_add s (JStr x)) (JStr x) = true.
Proof.
  unfold Set_add. destruct (Set_has s (JStr x)) eqn:E; [assumption |].
  unfold Set_has. rewrite existsb_app. cbn. rewrite String.eqb_refl.
  now rewrite orb_true_r.
Qed.

Lemma Set_size_add (s : JSSet) (v : json) :
  Set_has s v = false -> Set_size (Set_add s v) = S (Set_size s).
Proof.
  intros H. unfold Set_add, Set_size. rewrite H, length_app. cbn. lia.
Qed.

Lemma fold_Set_add_ids (l acc : list string) :
  NoDup (acc ++ l) ->
  fold_left Set_add (JStr <$> l) (JStr <$> acc) = JStr <$> (acc ++ l).
Proof.
  revert acc. induction l as [|x l IH]; intros acc Hnd.
  - now rewrite app_nil_r.
  - cbn [fmap list_fmap fold_left].
    change (JStr x :: list_fmap string json JStr l) with (JStr x :: (JStr <$> l)).
    assert (Hx : x ∉ acc).
    { apply NoDup_app in Hnd. destruct Hnd as [_ [Hd _]]. intros Hin.
      apply (Hd x Hin). left. }
    unfold Set_add at 2. rewrite (proj2 (Set_has_ids_false acc x) Hx).
    change [JStr x] with (JStr <$> [x]). rewrite <- fmap_app.
    rewrite IH; rewrite <- app_assoc; [reflexivity | exact Hnd].
Qed.

Lemma new_Set_id_set (s : JSSet) : id_set s -> new_Set (JArr s) = Some s.
Proof.
  intros [l [-> Hl]]. cbn [new_Set].
  change (@nil json) with (JStr <$> @nil string).
  now rewrite (fold_Set_add_ids l []).
Qed.

(** Reading back the slot written for a set of ids gives the set. *)
Lemma Set_of_slot_stringify (s : JSSet) :
  id_set s -> Set_of_slot (Some (JSON_stringify (Array_from s))) = inr s.
Proof.
  intros Hs. pose proof Hs as [l [-> Hl]].
  unfold Set_of_slot, Array_from.
  replace (truthy (Some (JSON_stringify (JArr (JStr <$> l))))) with true
    by (rewrite JSON_stringify_ids; reflexivity).
  unfold Set_of_saved. rewrite JSON_parse_stringify_ids, new_Set_id_set; [reflexivity | exact Hs].
Qed.

Lemma id_set_nil : id_set [].
Proof. exists []. split; [reflexivity | constructor]. Qed.

Lemma elem_of_Set_add (s : JSSet) (v x : json) :
  x ∈ Set_add s v -> x ∈ s \/ x = v.
Proof.
  unfold Set_add. destruct (Set_has s v); [now left |].
  rewrite elem_of_app, list_elem_of_singleton. tauto.
Qed.

(** ** The store *)

Lemma LS_keys_distinct :
  LS_SCORE <> LS_ANSWERED /\ LS_SCORE <> LS_UNLOCKED /\ LS_ANSWERED <> LS_UNLOCKED.
Proof. repeat split; discriminate. Qed.

Lemma saved_slots (st : State) :
  let ls := localStorage (saveStateToLocalStorage st) in
  ls !! LS_SCORE = Some (Number_toString (score st)) /\
  ls !! LS_ANSWERED = Some (JSON_stringify (Array_from (answeredQuizIds st))) /\
  ls !! LS_UNLOCKED = Some (JSON_stringify (Array_from (unlockedTaskIds st))).
Proof.
  destruct LS_keys_distinct as [H1 [H2 H3]].
  cbn [saveStateToLocalStorage set_localStorage localStorage].
  repeat split.
  - rewrite lookup_insert_ne, lookup_insert_ne, lookup_insert_eq by congruence. reflexivity.
  - rewrite lookup_insert_ne, lookup_insert_eq by congruence. reflexivity.
  - rewrite lookup_insert_eq. reflexivity.
Qed.

Lemma restore_cases (st : State) :
  let ls := localStorage st in
  let st1 := set_score (score_of_slot (ls !! LS_SCORE)) st in
  restoreStateFromLocalStorage st =
    match Set_of_slot (ls !! LS_ANSWERED) with
    | inl e => Thrown e st1
    | inr a =>
      let st3 := set_answeredCorrectlyCount (Set_size a) (set_answeredQuizIds a st1) in
      match Set_of_slot (ls !! LS_UNLOCKED) with
      | inl e => Thrown e st3
      | inr u => Returned (set_unlockedTaskIds u st3)
      end
    end.
Proof. reflexivity. Qed.

(** The outcome of the script, slot by slot. *)
Lemma script_cases (page : Document) (ls : gmap string string) :
  let sc := score_of_slot (ls !! LS_SCORE) in
  match Set_of_slot (ls !! LS_ANSWERED), Set_of_slot (ls !! LS_UNLOCKED) with
  | inl e, _ =>
    exists st, script page ls = Thrown e st /\
      score st = sc /\ answeredQuizIds st = [] /\ unlockedTaskIds st = [] /\
      answeredCorrectlyCount st = 0%nat /\
      localStorage st = ls /\ document st = page /\ listeners st = false
  | inr a, inl e =>
    exists st, script page ls = Thrown e st /\
      score st = sc /\ answeredQuizIds st = a /\ unlockedTaskIds st = [] /\
      answeredCorrectlyCount st = Set_size a /\
      localStorage st = ls /\ document st = page /\ listeners st = false
  | inr a, inr u =>
    exists st, script page ls = Returned st /\
      score st = sc /\ answeredQuizIds st = a /\ unlockedTaskIds st = u /\
      answeredCorrectlyCount st = Set_size a /\
      localStorage st = ls /\ listeners st = true
  end.
Proof.
  unfold script, initializeGame. rewrite restore_cases.
  cbn [localStorage].
  destruct (Set_of_slot (ls !! LS_ANSWERED)) as [e|a].
  - eexists. split; [reflexivity |]. repeat split; reflexivity.
  - cbv zeta. destruct (Set_of_slot (ls !! LS_UNLOCKED)) as [e|u].
    + eexists. split; [reflexivity |]. repeat split; reflexivity.
    + eexists. split; [reflexivity |]. repeat split; reflexivity.
Qed.

Lemma score_of_slot_mirror (slot : option string) (x : number) :
  slot_mirrors slot (Number_toString x) (x = Int 0) -> score_of_slot slot = x.
Proof.
  intros [-> | [-> ->]]; [| reflexivity].
  unfold score_of_slot. now rewrite Number_toString_truthy, parseInt_Number_toString.
Qed.

Lemma Set_of_slot_mirror (slot : option string) (s : JSSet) :
  id_set s ->
  slot_mirrors slot (JSON_stringify (Array_from s)) (s = []) ->
  Set_of_slot slot = inr s.
Proof.
  intros Hs [-> | [-> ->]]; [| reflexivity].
  now apply Set_of_slot_stringify.
Qed.

(** Loading a store that mirrors a state gives back its variables. *)
Lemma script_mirror (page : Document) (st : State) :
  id_sets st -> mirrors st ->
  exists st', script page (localStorage st) = Returned st' /\
    score st' = score st /\
    answeredQuizIds st' = answeredQuizIds st /\
    unlockedTaskIds st' = unlockedTaskIds st /\
    answeredCorrectlyCount st' = Set_size (answeredQuizIds st) /\
    localStorage st' = localStorage st /\
    listeners st' = true.
Proof.
  intros [Ha Hu] [Ms [Ma Mu]].
  pose proof (script_cases page (localStorage st)) as H. cbv zeta in H.
  rewrite (score_of_slot_mirror _ _ Ms) in H.
  rewrite (Set_of_slot_mirror _ _ Ha Ma), (Set_of_slot_mirror _ _ Hu Mu) in H.
  exact H.
Qed.

Lemma mirrors_saved (st : State) : mirrors (saveStateToLocalStorage st).
Proof.
  destruct (saved_slots st) as [H1 [H2 H3]]. cbv zeta in *.
  unfold mirrors. cbv zeta. rewrite H1, H2, H3.
  repeat split; left; reflexivity.
Qed.

(** ** The handlers *)

(** A first correct answer: one more answered id, one more point, a save,
    and the id of the task recorded when the task is now complete. *)
Lemma handleOptionClick_first_correct
  (ti qi oi : nat) (st : State) (task : Task) (quiz : Quiz) :
  tasks (document st) !! ti = Some task ->
  quizzes task !! qi = Some quiz ->
  options quiz !! oi = Some (Some "true") ->
  Set_has (answeredQuizIds st) (JStr (quizId_of task qi)) = false ->
  let st' := handleOptionClick ti qi oi st in
  score st' = incr (score st) /\
  answeredCorrectlyCount st' = S (answeredCorrectlyCount st) /\
  answeredQuizIds st' = Set_add (answeredQuizIds st) (JStr (quizId_of task qi)) /\
  (unlockedTaskIds st' = unlockedTaskIds st \/
   unlockedTaskIds st' = Set_add (unlockedTaskIds st) (JStr (id task))) /\
  mirrors st' /\ listeners st' = listeners st.
Proof.
  intros Ht Hq Ho Hh. cbv zeta. unfold handleOptionClick.
  rewrite Ht, Hq, Ho, Hh. rewrite bool_decide_eq_true_2 by reflexivity.
  cbn [saveStateToLocalStorage set_localStorage set_answeredQuizIds
       set_answeredCorrectlyCount set_score on_tasks set_document document
       set_tasks tasks].
  rewrite list_lookup_alter_eq, Ht. cbn [fmap option_fmap option_map].
  destruct (task_complete _);
    repeat split; try reflexivity; try assumption;
    first [ now right | now left | apply mirrors_saved
          | apply (mirrors_saved (set_answeredQuizIds _ _)) ].
Qed.

(** What a click on an option does to the variables and the store: nothing,
    or what a first correct answer does. *)
Lemma handleOptionClick_effect (ti qi oi : nat) (st : State) :
  let st' := handleOptionClick ti qi oi st in
  st' = st \/
  exists task quiz,
    tasks (document st) !! ti = Some task /\
    quizzes task !! qi = Some quiz /\
    options quiz !! oi = Some (Some "true") /\
    Set_has (answeredQuizIds st) (JStr (quizId_of task qi)) = false /\
    score st' = incr (score st) /\
    answeredCorrectlyCount st' = S (answeredCorrectlyCount st) /\
    answeredQuizIds st' = Set_add (answeredQuizIds st) (JStr (quizId_of task qi)) /\
    (unlockedTaskIds st' = unlockedTaskIds st \/
     unlockedTaskIds st' = Set_add (unlockedTaskIds st) (JStr (id task))) /\
    mirrors st' /\ listeners st' = listeners st.
Proof.
  cbv zeta.
  destruct (tasks (document st) !! ti) as [task|] eqn:Ht;
    [| left; unfold handleOptionClick; now rewrite Ht].
  destruct (quizzes task !! qi) as [quiz|] eqn:Hq;
    [| left; unfold handleOptionClick; now rewrite Ht, Hq].
  destruct (options quiz !! oi) as [opt|] eqn:Ho;
    [| left; unfold handleOptionClick; now rewrite Ht, Hq, Ho].
  destruct (Set_has (answeredQuizIds st) (JStr (quizId_of task qi))) eqn:Hh;
    [left; unfold handleOptionClick; now rewrite Ht, Hq, Ho, Hh |].
  destruct (decide (opt = Some "true")) as [-> | Hn].
  - right. exists task, quiz.
    pose proof (handleOptionClick_first_correct ti qi oi st task quiz Ht Hq Ho Hh) as H.
    cbv zeta in H. tauto.
  - left. unfold handleOptionClick. rewrite Ht, Hq, Ho, Hh.
    now rewrite bool_decide_eq_false_2.
Qed.

(** Changing a task without changing its id does not change which element
    an id finds. *)
Lemma getElementById_alter (f : Task -> Task) (i : string) (ts : list Task) :
  (forall t, id (f t) = id t) ->
  forall ti,
    match getElementById i ts with
    | Some (ni, nt) =>
      exists nt', getElementById i (alter f ti ts) = Some (ni, nt') /\ id nt' = i /\ id nt = i
    | None => getElementById i (alter f ti ts) = None
    end.
Proof.
  intros Hf. unfold getElementById.
  induction ts as [|t ts IH]; intros ti; [reflexivity |].
  destruct ti as [|ti]; cbn [alter list_alter list_find].
  - destruct (decide (id t = i)) as [E|E].
    + rewrite decide_True by (now rewrite Hf). cbn.
      exists (f t). now rewrite Hf.
    + rewrite decide_False by (now rewrite Hf).
      destruct (list_find _ ts) as [[n x]|] eqn:El; cbn; [| reflexivity].
      apply list_find_Some in El. destruct El as [_ [Hx _]]. eauto.
  - specialize (IH ti). change (list_alter f ti ts) with (alter f ti ts).
    destruct (decide (id t = i)) as [E|E].
    + cbn. eauto.
    + destruct (list_find _ ts) as [[n x]|] eqn:El; cbn.
      * destruct IH as [nt' [-> [H1 H2]]]. cbn. eauto.
      * now rewrite IH.
Qed.

(** What a click on a next button does: the current task is deactivated;
    then either the element with the next id is unlocked, activated and
    recorded, and the state saved, or the final alert is shown. *)
Lemma handleNextButtonClick_effect (ti : nat) (st : State) (task : Task) :
  tasks (document st) !! ti = Some task ->
  let st' := handleNextButtonClick ti st in
  score st' = score st /\
  answeredQuizIds st' = answeredQuizIds st /\
  answeredCorrectlyCount st' = answeredCorrectlyCount st /\
  listeners st' = listeners st /\
  match getElementById (nextTaskId_of task) (tasks (document st)) with
  | Some (ni, _) =>
    unlockedTaskIds st' = Set_add (unlockedTaskIds st) (JStr (nextTaskId_of task)) /\
    mirrors st' /\
    tasks (document st') =
      alter (fun t => set_active true (set_locked false t)) ni
        (alter (set_active false) ti (tasks (document st))) /\
    alert (document st') = alert (document st)
  | None =>
    unlockedTaskIds st' = unlockedTaskIds st /\
    localStorage st' = localStorage st /\
    tasks (document st') = alter (set_active false) ti (tasks (document st)) /\
    hidden (alert (document st')) = false /\
    title (alert (document st')) = "Congratulations!"
  end.
Proof.
  intros Ht. cbv zeta. unfold handleNextButtonClick. rewrite Ht.
  cbn [on_tasks set_document document set_tasks tasks].
  pose proof (getElementById_alter (set_active false) (nextTaskId_of task)
                (tasks (document st)) (fun t => eq_refl) ti) as Hg.
  destruct (getElementById (nextTaskId_of task) (tasks (document st)))
    as [[ni nt]|] eqn:Eg.
  - destruct Hg as [nt' [-> [Hid _]]].
    rewrite Hid.
    do 4 (split; [reflexivity |]).
    split; [reflexivity |]. split; [apply mirrors_saved |]. split; reflexivity.
  - rewrite Hg. repeat split; reflexivity.
Qed.

Lemma handleTaskHeaderClick_frame (ti : nat) (st : State) :
  let st' := handleTaskHeaderClick ti st in
  score st' = score st /\
  answeredCorrectlyCount st' = answeredCorrectlyCount st /\
  answeredQuizIds st' = answeredQuizIds st /\
  unlockedTaskIds st' = unlockedTaskIds st /\
  localStorage st' = localStorage st /\
  listeners st' = listeners st.
Proof.
  cbv zeta. unfold handleTaskHeaderClick.
  destruct (tasks (document st) !! ti) as [task|]; [| repeat split; reflexivity].
  destruct (locked task); repeat split; reflexivity.
Qed.

(** ** The invariant of the states reached from a first visit *)

Lemma consistent_ext (st st' : State) :
  score st' = score st ->
  answeredQuizIds st' = answeredQuizIds st ->
  unlockedTaskIds st' = unlockedTaskIds st ->
  localStorage st' = localStorage st ->
  consistent st -> consistent st'.
Proof.
  intros Hs Ha Hu Hl.
  unfold consistent, id_sets, score_counts, mirrors.
  cbv zeta. now rewrite Hs, Ha, Hu, Hl.
Qed.

Lemma consistent_handle (c : Command) (st : State) :
  consistent st -> consistent (handle c st).
Proof.
  intros Hc. destruct c as [ti|ti qi oi|ti|]; cbn [handle].
  - destruct (handleTaskHeaderClick_frame ti st) as [H1 [_ [H2 [H3 [H4 _]]]]].
    now apply (consistent_ext st).
  - destruct (handleOptionClick_effect ti qi oi st)
      as [-> | [task [quiz [Ht [_ [_ [Hh [Hs [_ [Ha [Hu [Hm _]]]]]]]]]]]]; [assumption |].
    destruct Hc as [[Ia Iu] [Isc _]].
    split; [| split]; [| | exact Hm].
    + split.
      * rewrite Ha. now apply Set_add_id_set.
      * destruct Hu as [-> | ->]; [assumption | now apply Set_add_id_set].
    + unfold score_counts in *. rewrite Hs, Ha, Isc, (Set_size_add _ _ Hh).
      cbn [incr]. f_equal. lia.
  - destruct (tasks (document st) !! ti) as [task|] eqn:Ht.
    + destruct (handleNextButtonClick_effect ti st task Ht) as [Hs [Ha [_ [_ Hx]]]].
      cbv zeta in *.
      destruct (getElementById (nextTaskId_of task) (tasks (document st))) as [[ni nt]|].
      * destruct Hx as [Hu [Hm _]]. destruct Hc as [[Ia Iu] [Isc _]].
        split; [| split]; [| | exact Hm].
        -- split; [now rewrite Ha |]. rewrite Hu. now apply Set_add_id_set.
        -- unfold score_counts in *. now rewrite Hs, Ha.
      * destruct Hx as [Hu [Hl _]]. now apply (consistent_ext st).
    + unfold handleNextButtonClick. now rewrite Ht.
  - now apply (consistent_ext st).
Qed.

Lemma consistent_dispatch (c : Command) (st : State) :
  consistent st -> consistent (dispatch c st).
Proof.
  intros Hc. unfold dispatch.
  destruct (listeners st); [| assumption].
  destruct c as [ti|ti qi oi|ti|]; try now apply consistent_handle.
  destruct (tasks (document st) !! ti) as [t|]; [| assumption].
  destruct (nextButton t) as [[|]|]; try assumption.
  now apply consistent_handle.
Qed.

Lemma consistent_script (page : Document) (st : State) :
  consistent st -> consistent (state_of (script page (localStorage st))).
Proof.
  intros [Hi [Hsc Hm]].
  destruct (script_mirror page st Hi Hm) as [st' [-> [Hs [Ha [Hu [_ [Hl _]]]]]]].
  cbn [state_of]. apply (consistent_ext st); try assumption.
  now split; [| split].
Qed.

Lemma consistent_first_visit (page : Document) :
  consistent (state_of (script page ∅)).
Proof.
  pose proof (script_cases page ∅) as H. cbv zeta in H.
  rewrite !lookup_empty in H. cbn [Set_of_slot score_of_slot] in H.
  destruct H as [st [-> [Hs [Ha [Hu [_ [Hl _]]]]]]]. cbn [state_of].
  split; [| split].
  - split; [rewrite Ha | rewrite Hu]; apply id_set_nil.
  - unfold score_counts. now rewrite Hs, Ha.
  - unfold mirrors. cbv zeta. rewrite Hl, !lookup_empty.
    repeat split; right; split; auto.
Qed.

Lemma consistent_reset (page : Document) (st : State) :
  consistent (state_of (resetBtn_click page st)).
Proof.
  destruct LS_keys_distinct as [K1 [K2 K3]].
  unfold resetBtn_click.
  set (ls := delete LS_UNLOCKED (delete LS_ANSWERED (delete LS_SCORE (localStorage st)))).
  assert (H1 : ls !! LS_SCORE = None).
  { subst ls. rewrite !lookup_delete_ne, lookup_delete_eq by congruence. reflexivity. }
  assert (H2 : ls !! LS_ANSWERED = None).
  { subst ls. rewrite lookup_delete_ne, lookup_delete_eq by congruence. reflexivity. }
  assert (H3 : ls !! LS_UNLOCKED = None).
  { subst ls. now rewrite lookup_delete_eq. }
  pose proof (script_cases page ls) as H. cbv zeta in H.
  rewrite H1, H2, H3 in H. cbn [Set_of_slot score_of_slot] in H.
  destruct H as [st' [-> [Hs [Ha [Hu [_ [Hl _]]]]]]]. cbn [state_of].
  split; [| split].
  - split; [rewrite Ha | rewrite Hu]; apply id_set_nil.
  - unfold score_counts. now rewrite Hs, Ha.
  - unfold mirrors. cbv zeta. rewrite Hl, H1, H2, H3.
    repeat split; right; split; auto.
Qed.

Lemma reachable_consistent (page : Document) (st : State) :
  reachable page st -> consistent st.
Proof.
  induction 1 as [|c st _ IH|st _ IH|st _ IH _ _].
  - apply consistent_first_visit.
  - now apply consistent_dispatch.
  - now apply consistent_script.
  - apply consistent_reset.
Qed.

(** ** How the task elements evolve *)

Lemma task_complete_mono (t t' : Task) :
  questionsTotal t' = questionsTotal t ->
  (answeredInTask t <= answeredInTask t')%nat ->
  task_complete t = true -> task_complete t' = true.
Proof.
  unfold task_complete. intros -> Hle.
  destruct (parseInt_opt (questionsTotal t)) as [|y]; cbn [ge]; [discriminate |].
  rewrite !Z.leb_le. lia.
Qed.

Lemma task_evolves_refl (t : Task) : task_evolves t t.
Proof. unfold task_evolves. repeat split; auto. Qed.

Lemma task_evolves_trans (x y z : Task) :
  task_evolves x y -> task_evolves y z -> task_evolves x z.
Proof.
  intros [I1 [T1 [L1 [A1 B1]]]] [I2 [T2 [L2 [A2 B2]]]].
  unfold task_evolves. repeat split.
  - congruence.
  - congruence.
  - auto.
  - lia.
  - destruct B2 as [E2 | [E2 C2]]; [| now right].
    destruct B1 as [E1 | [E1 C1]]; [left; congruence |].
    right. split; [congruence |]. now apply (task_complete_mono y).
Qed.

Lemma evolves_list_refl (ts : list Task) : Forall2 task_evolves ts ts.
Proof. apply Forall_Forall2_diag, Forall_forall. intros; apply task_evolves_refl. Qed.

Lemma evolves_alter (f : Task -> Task) (i : nat) (l k : list Task) :
  (forall y, k !! i = Some y -> task_evolves y (f y)) ->
  Forall2 task_evolves l k -> Forall2 task_evolves l (alter f i k).
Proof.
  intros Hf H. apply Forall2_alter_r; [assumption |].
  intros x y _ Hy Hxy. apply (task_evolves_trans x y); auto.
Qed.

Lemma evolves_imap (f : nat -> Task -> Task) (l k : list Task) :
  (forall i y, task_evolves y (f i y)) ->
  Forall2 task_evolves l k -> Forall2 task_evolves l (imap f k).
Proof.
  intros Hf H. revert f Hf.
  induction H as [|x y l k Hxy _ IH]; intros f Hf; cbn; constructor.
  - apply (task_evolves_trans x y); auto.
  - apply IH. intros i z. apply Hf.
Qed.

Lemma evolves_fmap (f : Task -> Task) (l k : list Task) :
  (forall y, task_evolves y (f y)) ->
  Forall2 task_evolves l k -> Forall2 task_evolves l (f <$> k).
Proof.
  intros Hf H. apply Forall2_fmap_r.
  eapply Forall2_impl; [exact H |].
  intros x y Hxy. apply (task_evolves_trans x y); auto.
Qed.

Lemma evolves_set_active (b : bool) (t : Task) : task_evolves t (set_active b t).
Proof. unfold task_evolves. repeat split; auto. Qed.

Lemma evolves_set_locked_false (t : Task) : task_evolves t (set_locked false t).
Proof. unfold task_evolves. repeat split; auto. Qed.

Lemma evolves_enable (t : Task) :
  task_complete t = true -> task_evolves t (enable_nextButton t).
Proof.
  intros Hc. unfold task_evolves. repeat split; auto.
  cbn [enable_nextButton nextButton].
  destruct (nextButton t); [right | left]; auto.
Qed.

Lemma answered_count_alter (qs : list Quiz) (qi : nat) :
  (length (filter (fun q => answered q = true) qs)
   <= length (filter (fun q => answered q = true) (alter (set_answered true) qi qs)))%nat.
Proof.
  revert qi. induction qs as [|q qs IH]; intros qi; [reflexivity |].
  destruct qi as [|qi]; cbn [alter list_alter]; rewrite !filter_cons.
  - rewrite (decide_True (P := answered (set_answered true q) = true)) by reflexivity.
    destruct (decide (answered q = true)); cbn [length]; lia.
  - specialize (IH qi). change (list_alter (set_answered true) qi qs)
      with (alter (set_answered true) qi qs).
    destruct (decide (answered q = true)); cbn [length]; lia.
Qed.

Lemma answered_count_imap (c : nat -> bool) (qs : list Quiz) :
  (length (filter (fun q => answered q = true) qs)
   <= length (filter (fun q => answered q = true)
               (imap (fun i q => if c i then set_answered true q else q) qs)))%nat.
Proof.
  revert c. induction qs as [|q qs IH]; intros c; [reflexivity |].
  rewrite imap_cons, !filter_cons.
  specialize (IH (c ∘ S)).
  change (imap ((fun i q => if c i then set_answered true q else q) ∘ S) qs)
    with (imap (fun i q => if (c ∘ S) i then set_answered true q else q) qs).
  destruct (c 0%nat).
  - rewrite (decide_True (P := answered (set_answered true q) = true)) by reflexivity.
    destruct (decide (answered q = true)); cbn [length]; lia.
  - destruct (decide (answered q = true)); cbn [length]; lia.
Qed.

Lemma evolves_set_quizzes (qs : list Quiz) (t : Task) :
  (answeredInTask t <= length (filter (fun q => answered q = true) qs))%nat ->
  task_evolves t (set_quizzes qs t).
Proof. intros H. unfold task_evolves. repeat split; auto. Qed.

Lemma handleTaskHeaderClick_evolves (ti : nat) (st : State) :
  Forall2 task_evolves (tasks (document st))
    (tasks (document (handleTaskHeaderClick ti st))).
Proof.
  unfold handleTaskHeaderClick.
  destruct (tasks (document st) !! ti) as [task|]; [| apply evolves_list_refl].
  destruct (locked task); [apply evolves_list_refl |].
  cbn [on_tasks set_document document set_tasks tasks].
  apply evolves_alter; [intros; apply evolves_set_active |].
  apply evolves_imap; [| apply evolves_list_refl].
  intros i y. destruct (_ && _); [apply evolves_set_active | apply task_evolves_refl].
Qed.

Lemma handleOptionClick_evolves (ti qi oi : nat) (st : State) :
  Forall2 task_evolves (tasks (document st))
    (tasks (document (handleOptionClick ti qi oi st))).
Proof.
  unfold handleOptionClick.
  destruct (tasks (document st) !! ti) as [task|] eqn:Ht; [| apply evolves_list_refl].
  destruct (quizzes task !! qi) as [quiz|]; [| apply evolves_list_refl].
  destruct (options quiz !! oi) as [opt|]; [| apply evolves_list_refl].
  destruct (Set_has _ _); [apply evolves_list_refl |].
  case_bool_decide; [| apply evolves_list_refl].
  cbv zeta.
  cbn [saveStateToLocalStorage set_localStorage set_answeredQuizIds
       set_answeredCorrectlyCount set_score on_tasks set_document document
       set_tasks tasks].
  assert (Hmark : Forall2 task_evolves (tasks (document st))
            (alter (fun t => set_quizzes (alter (set_answered true) qi (quizzes t)) t) ti
               (tasks (document st)))).
  { apply evolves_alter; [| apply evolves_list_refl].
    intros y _. apply evolves_set_quizzes, answered_count_alter. }
  destruct (alter _ ti (tasks (document st)) !! ti) as [t'|] eqn:Ht'; [| exact Hmark].
  destruct (task_complete t') eqn:Hc; [| exact Hmark].
  cbn [set_unlockedTaskIds on_tasks set_document document set_tasks tasks
       saveStateToLocalStorage set_localStorage].
  apply evolves_alter; [| exact Hmark].
  intros y Hy. pose proof (eq_trans (eq_sym Hy) Ht') as E.
  injection E as ->. now apply evolves_enable.
Qed.

Lemma handleNextButtonClick_evolves (ti : nat) (st : State) :
  Forall2 task_evolves (tasks (document st))
    (tasks (document (handleNextButtonClick ti st))).
Proof.
  destruct (tasks (document st) !! ti) as [task|] eqn:Ht.
  - destruct (handleNextButtonClick_effect ti st task Ht) as [_ [_ [_ [_ Hx]]]].
    cbv zeta in Hx.
    destruct (getElementById _ _) as [[ni nt]|].
    + destruct Hx as [_ [_ [-> _]]].
      apply evolves_alter.
      * intros y _. apply (task_evolves_trans _ (set_locked false y));
          [apply evolves_set_locked_false | apply evolves_set_active].
      * apply evolves_alter; [intros; apply evolves_set_active | apply evolves_list_refl].
    + destruct Hx as [_ [_ [-> _]]].
      apply evolves_alter; [intros; apply evolves_set_active | apply evolves_list_refl].
  - unfold handleNextButtonClick. rewrite Ht. apply evolves_list_refl.
Qed.

Lemma handle_evolves (c : Command) (st : State) :
  Forall2 task_evolves (tasks (document st)) (tasks (document (handle c st))).
Proof.
  destruct c; cbn [handle].
  - apply handleTaskHeaderClick_evolves.
  - apply handleOptionClick_evolves.
  - apply handleNextButtonClick_evolves.
  - apply evolves_list_refl.
Qed.

Lemma dispatch_evolves (c : Command) (st : State) :
  Forall2 task_evolves (tasks (document st)) (tasks (document (dispatch c st))).
Proof.
  unfold dispatch. destruct (listeners st); [| apply evolves_list_refl].
  destruct c as [ti|ti qi oi|ti|]; try apply handle_evolves.
  destruct (tasks (document st) !! ti) as [t|]; [| apply evolves_list_refl].
  destruct (nextButton t) as [[|]|]; try apply evolves_list_refl.
  apply handle_evolves.
Qed.

Lemma restoreUIState_evolves (st : State) :
  Forall2 task_evolves (tasks (document st)) (tasks (document (restoreUIState st))).
Proof.
  unfold restoreUIState.
  cbn [on_tasks set_document document set_tasks tasks].
  apply evolves_fmap.
  { intros y. destruct (task_complete y) eqn:Hc;
      [now apply evolves_enable | apply task_evolves_refl]. }
  apply evolves_fmap.
  { intros y. destruct (Set_has _ _);
      [apply evolves_set_locked_false | apply task_evolves_refl]. }
  apply evolves_fmap; [| apply evolves_list_refl].
  intros y. apply evolves_set_quizzes.
  apply (answered_count_imap
           (fun i => Set_has (answeredQuizIds st) (JStr (quizId_of y i)))).
Qed.

Lemma script_evolves (page : Document) (ls : gmap string string) :
  Forall2 task_evolves (tasks page) (tasks (document (state_of (script page ls)))).
Proof.
  unfold script, initializeGame. rewrite restore_cases. cbv zeta.
  cbn [localStorage].
  destruct (Set_of_slot (ls !! LS_ANSWERED)) as [e|a]; [apply evolves_list_refl |].
  destruct (Set_of_slot (ls !! LS_UNLOCKED)) as [e|u]; [apply evolves_list_refl |].
  cbn [state_of].
  match goal with |- context [restoreUIState ?s] =>
    exact (restoreUIState_evolves s) end.
Qed.

(** In every reachable state each task has evolved from the task as
    served. *)
Lemma reachable_evolves (page : Document) (st : State) :
  reachable page st -> Forall2 task_evolves (tasks page) (tasks (document st)).
Proof.
  induction 1 as [|c st _ IH|st _ IH|st _ IH _ _].
  - apply script_evolves.
  - eapply Forall2_trans; [| exact IH | apply dispatch_evolves].
    intros x y z. apply task_evolves_trans.
  - apply script_evolves.
  - apply script_evolves.
Qed.

(** ** Ids of the form task<N> *)

Lemma Number_toString_inj (x y : number) :
  Number_toString x = Number_toString y -> x = y.
Proof.
  intros H. rewrite <- (parseInt_Number_toString x), <- (parseInt_Number_toString y).
  now rewrite H.
Qed.

Lemma nextTaskId_of_task (t : Task) (z : Z) :
  id t = "task" +:+ Number_toString (Int z) ->
  nextTaskId_of t = "task" +:+ Number_toString (Int (z + 1)).
Proof.
  intros H. unfold nextTaskId_of. rewrite H.
  change (String_replace "task" "" ("task" +:+ Number_toString (Int z)))
    with (Number_toString (Int z)).
  now rewrite parseInt_Number_toString.
Qed.

Lemma nextTaskId_of_fresh (t : Task) (z : Z) :
  id t = "task" +:+ Number_toString (Int z) -> nextTaskId_of t <> id t.
Proof.
  intros H E. rewrite (nextTaskId_of_task t z H), H in E.
  injection E as E.
  change (Number_toString (Int (z + 1)) = Number_toString (Int z)) in E.
  apply Number_toString_inj in E. injection E as E. lia.
Qed.

(** ** Scores *)

Lemma score_le_refl (x : number) : score_le x x.
Proof. destruct x; cbn; [exact I | lia]. Qed.

Lemma score_le_incr (x : number) : score_le x (incr x).
Proof. destruct x; cbn; [exact I | lia]. Qed.

Lemma score_le_trans (x y z : number) : score_le x y -> score_le y z -> score_le x z.
Proof. destruct x, y, z; cbn; try tauto; lia. Qed.

Lemma score_le_handle (c : Command) (st : State) :
  score_le (score st) (score (handle c st)).
Proof.
  destruct c as [ti|ti qi oi|ti|]; cbn [handle].
  - destruct (handleTaskHeaderClick_frame ti st) as [-> _]. apply score_le_refl.
  - destruct (handleOptionClick_effect ti qi oi st)
      as [-> | [task [quiz [_ [_ [_ [_ [-> _]]]]]]]];
      [apply score_le_refl | apply score_le_incr].
  - destruct (tasks (document st) !! ti) as [task|] eqn:Ht.
    + destruct (handleNextButtonClick_effect ti st task Ht) as [-> _].
      apply score_le_refl.
    + unfold handleNextButtonClick. rewrite Ht. apply score_le_refl.
  - apply score_le_refl.
Qed.

Lemma score_le_dispatch (c : Command) (st : State) :
  score_le (score st) (score (dispatch c st)).
Proof.
  unfold dispatch. destruct (listeners st); [| apply score_le_refl].
  destruct c as [ti|ti qi oi|ti|]; try apply score_le_handle.
  destruct (tasks (document st) !! ti) as [t|]; [| apply score_le_refl].
  destruct (nextButton t) as [[|]|]; try apply score_le_refl.
  apply score_le_handle.
Qed.

Lemma score_le_run (cs : list Command) (st : State) :
  score_le (score st) (score (run cs st)).
Proof.
  unfold run. revert st. induction cs as [|c cs IH]; intros st; cbn [fold_left].
  - apply score_le_refl.
  - eapply score_le_trans; [apply (score_le_dispatch c) | apply IH].
Qed.

(** ** Sessions: what a command does to the page and to the sets *)

Lemma State_eq (a b : State) :
  score a = score b ->
  answeredCorrectlyCount a = answeredCorrectlyCount b ->
  answeredQuizIds a = answeredQuizIds b ->
  unlockedTaskIds a = unlockedTaskIds b ->
  localStorage a = localStorage b ->
  document a = document b ->
  listeners a = listeners b -> a = b.
Proof. destruct a, b; cbn; intros; subst; reflexivity. Qed.

Lemma Document_eq (a b : Document) :
  tasks a = tasks b -> alert a = alert b -> resetBtn a = resetBtn b -> a = b.
Proof. destruct a, b; cbn; intros; subst; reflexivity. Qed.

(** A click is dropped, or handled with the listeners attached; a handled
    click on a next button finds the button enabled. *)
Lemma dispatch_cases (c : Command) (st : State) :
  dispatch c st = st \/
  (listeners st = true /\ dispatch c st = handle c st /\
   forall ti, c = NextClick ti ->
     exists t, tasks (document st) !! ti = Some t /\ nextButton t = Some false).
Proof.
  unfold dispatch. destruct (listeners st); [| now left].
  destruct c as [ti|ti qi oi|ti|]; try (right; repeat split; discriminate).
  destruct (tasks (document st) !! ti) as [t|] eqn:Ht; [| now left].
  destruct (nextButton t) as [[|]|] eqn:Hb; try now left.
  right. repeat split. intros ? [= <-]. now exists t.
Qed.

Lemma restoreUIState_tasks (st : State) :
  tasks (document (restoreUIState st))
  = restored_task (answeredQuizIds st) (unlockedTaskIds st) <$> tasks (document st).
Proof.
  unfold restoreUIState. cbn [on_tasks set_document document set_tasks tasks].
  rewrite <- !list_fmap_compose. reflexivity.
Qed.

(** What the script leaves when it returns. *)
Lemma script_returned (page : Document) (ls : gmap string string) (st : State) :
  script page ls = Returned st ->
  listeners st = true /\ localStorage st = ls /\
  score st = score_of_slot (ls !! LS_SCORE) /\
  Set_of_slot (ls !! LS_ANSWERED) = inr (answeredQuizIds st) /\
  Set_of_slot (ls !! LS_UNLOCKED) = inr (unlockedTaskIds st) /\
  answeredCorrectlyCount st = Set_size (answeredQuizIds st) /\
  alert (document st) = alert page /\ resetBtn (document st) = resetBtn page /\
  tasks (document st)
  = restored_task (answeredQuizIds st) (unlockedTaskIds st) <$> tasks page.
Proof.
  unfold script, initializeGame. rewrite restore_cases. cbv zeta.
  cbn [localStorage].
  destruct (Set_of_slot (ls !! LS_ANSWERED)) as [e|a]; [discriminate |].
  destruct (Set_of_slot (ls !! LS_UNLOCKED)) as [e|u]; [discriminate |].
  intros [= <-]. rewrite restoreUIState_tasks. repeat split.
Qed.

(** What the script leaves when it throws: the page as served, and no
    listener. *)
Lemma script_thrown (page : Document) (ls : gmap string string) (e : error) (st : State) :
  script page ls = Thrown e st ->
  listeners st = false /\ localStorage st = ls /\ document st = page /\
  score st = score_of_slot (ls !! LS_SCORE) /\
  answeredCorrectlyCount st = Set_size (answeredQuizIds st) /\
  (is_Some (ls !! LS_ANSWERED) \/ is_Some (ls !! LS_UNLOCKED)).
Proof.
  unfold script, initializeGame. rewrite restore_cases. cbv zeta.
  cbn [localStorage].
  destruct (ls !! LS_ANSWERED) as [a|] eqn:Ea.
  - destruct (Set_of_slot (Some a)) as [e1|a1].
    + intros [= <- <-]. repeat split. left. eauto.
    + destruct (Set_of_slot (ls !! LS_UNLOCKED)) as [e2|u]; [| discriminate].
      intros [= <- <-]. repeat split. left. eauto.
  - cbn [Set_of_slot].
    destruct (ls !! LS_UNLOCKED) as [u|] eqn:Eu; [| discriminate].
    destruct (Set_of_slot (Some u)) as [e2|u2]; [| discriminate].
    intros [= <- <-]. repeat split. right. eauto.
Qed.

(** Induction over a session: a property of every state that the script
    returns, kept by every command, holds in every reachable state. *)
Lemma reachable_session_ind (page : Document) (P : State -> Prop) :
  (forall ls st, script page ls = Returned st -> P st) ->
  (forall c st, reachable page st -> P st -> P (dispatch c st)) ->
  forall st, reachable page st -> P st.
Proof.
  intros Hs Hd st Hr.
  induction Hr as [|c st Hr IH|st Hr IH|st Hr IH Hl Hb].
  - pose proof (script_cases page ∅) as H. cbv zeta in H.
    rewrite !lookup_empty in H. cbn [Set_of_slot] in H.
    destruct H as [st [E _]]. rewrite E. cbn [state_of]. exact (Hs ∅ st E).
  - now apply Hd.
  - destruct (reachable_consistent page st Hr) as [Hi [_ Hm]].
    destruct (script_mirror page st Hi Hm) as [st' [E _]].
    rewrite E. cbn [state_of]. exact (Hs _ _ E).
  - assert (Hx : reachable page (state_of (resetBtn_click page st)))
      by now apply reach_reset.
    unfold resetBtn_click in *.
    set (ls := delete LS_UNLOCKED (delete LS_ANSWERED (delete LS_SCORE (localStorage st)))) in *.
    destruct LS_keys_distinct as [K1 [K2 K3]].
    assert (H2 : ls !! LS_ANSWERED = None).
    { subst ls. rewrite lookup_delete_ne, lookup_delete_eq by congruence. reflexivity. }
    assert (H3 : ls !! LS_UNLOCKED = None).
    { subst ls. now rewrite lookup_delete_eq. }
    pose proof (script_cases page ls) as H. cbv zeta in H.
    rewrite H2, H3 in H. cbn [Set_of_slot] in H.
    destruct H as [st' [E _]]. rewrite E. cbn [state_of]. exact (Hs _ _ E).
Qed.

(** A click on an option either changes nothing, or is the first correct
    answer to a quiz: the task of the quiz becomes [answered_task], the
    quiz id joins [answeredQuizIds], and the id of the task joins
    [unlockedTaskIds] when the task is complete by then. *)
Lemma handleOptionClick_step (ti qi oi : nat) (st : State) :
  let st' := handleOptionClick ti qi oi st in
  st' = st \/
  exists task quiz,
    tasks (document st) !! ti = Some task /\
    quizzes task !! qi = Some quiz /\
    options quiz !! oi = Some (Some "true") /\
    Set_has (answeredQuizIds st) (JStr (quizId_of task qi)) = false /\
    tasks (document st') = alter (answered_task qi) ti (tasks (document st)) /\
    alert (document st') = alert (document st) /\
    resetBtn (document st') = resetBtn (document st) /\
    answeredQuizIds st' = Set_add (answeredQuizIds st) (JStr (quizId_of task qi)) /\
    unlockedTaskIds st' =
      (if task_complete (marked_task qi task)
       then Set_add (unlockedTaskIds st) (JStr (id task))
       else unlockedTaskIds st) /\
    exists x, st' = saveStateToLocalStorage x.
Proof.
  cbv zeta. unfold handleOptionClick.
  destruct (tasks (document st) !! ti) as [task|] eqn:Ht; [| now left].
  destruct (quizzes task !! qi) as [quiz|] eqn:Hq; [| now left].
  destruct (options quiz !! oi) as [opt|] eqn:Ho; [| now left].
  destruct (Set_has _ _) eqn:Hh; [now left |].
  case_bool_decide as Hc; [subst opt | now left].
  right. exists task, quiz.
  do 4 (split; [assumption || reflexivity |]).
  cbn [saveStateToLocalStorage set_localStorage set_answeredQuizIds
       set_answeredCorrectlyCount set_score on_tasks set_document document
       set_tasks tasks score answeredCorrectlyCount answeredQuizIds
       unlockedTaskIds localStorage listeners].
  rewrite list_lookup_alter_eq, Ht. cbn [fmap option_fmap option_map].
  change (set_quizzes (alter (set_answered true) qi (quizzes task)) task)
    with (marked_task qi task).
  destruct (task_complete (marked_task qi task)) eqn:Hcomp.
  - cbn [saveStateToLocalStorage set_localStorage set_unlockedTaskIds
         on_tasks set_document document set_tasks tasks score alert resetBtn
         answeredCorrectlyCount answeredQuizIds unlockedTaskIds localStorage
         listeners id marked_task set_quizzes].
    split; [| repeat split; eauto].
    cbn [set_answeredQuizIds set_answeredCorrectlyCount set_score on_tasks
         set_document document set_tasks tasks].
    rewrite list_alter_alter_eq. apply list_alter_ext; [| reflexivity].
    intros x Hx. assert (x = task) as -> by congruence.
    unfold answered_task, compose. cbv zeta.
    change (set_quizzes (alter (set_answered true) qi (quizzes task)) task)
      with (marked_task qi task).
    now rewrite Hcomp.
  - cbn [on_tasks set_document document set_tasks tasks score alert resetBtn
         answeredCorrectlyCount answeredQuizIds unlockedTaskIds localStorage
         listeners].
    split; [| repeat split; eauto].
    apply list_alter_ext; [| reflexivity].
    intros x Hx. assert (x = task) as -> by congruence.
    unfold answered_task. cbv zeta. now rewrite Hcomp.
Qed.

(** What a delivered command does to the tasks and to the two sets. *)
Lemma dispatch_steps (c : Command) (st : State) :
  let st' := dispatch c st in
  let ts := tasks (document st) in
  (tasks (document st') = ts /\
   answeredQuizIds st' = answeredQuizIds st /\
   unlockedTaskIds st' = unlockedTaskIds st) \/
  (exists ti task,
     ts !! ti = Some task /\ locked task = false /\
     tasks (document st') = header_tasks ti ts /\
     answeredQuizIds st' = answeredQuizIds st /\
     unlockedTaskIds st' = unlockedTaskIds st) \/
  (exists ti qi task quiz,
     ts !! ti = Some task /\ quizzes task !! qi = Some quiz /\
     Set_has (answeredQuizIds st) (JStr (quizId_of task qi)) = false /\
     tasks (document st') = alter (answered_task qi) ti ts /\
     answeredQuizIds st' = Set_add (answeredQuizIds st) (JStr (quizId_of task qi)) /\
     unlockedTaskIds st' =
       (if task_complete (marked_task qi task)
        then Set_add (unlockedTaskIds st) (JStr (id task))
        else unlockedTaskIds st)) \/
  (exists ti task,
     ts !! ti = Some task /\ nextButton task = Some false /\
     answeredQuizIds st' = answeredQuizIds st /\
     ((tasks (document st') = alter (set_active false) ti ts /\
       unlockedTaskIds st' = unlockedTaskIds st) \/
      (exists ni next,
         ts !! ni = Some next /\ id next = nextTaskId_of task /\
         tasks (document st')
         = alter (fun t => set_active true (set_locked false t)) ni
             (alter (set_active false) ti ts) /\
         unlockedTaskIds st' = Set_add (unlockedTaskIds st) (JStr (id next))))).
Proof.
  cbv zeta.
  destruct (dispatch_cases c st) as [-> | [_ [-> Hn]]]; [now left |].
  destruct c as [ti|ti qi oi|ti|]; cbn [handle].
  - unfold handleTaskHeaderClick.
    destruct (tasks (document st) !! ti) as [task|] eqn:Ht; [| now left].
    destruct (locked task) eqn:Hl; [now left |].
    right; left. exists ti, task. repeat split; assumption.
  - destruct (handleOptionClick_step ti qi oi st)
      as [-> | [task [quiz [Ht [Hq [_ [Hh [Hts [_ [_ [Ha [Hu _]]]]]]]]]]]]; [now left |].
    right; right; left. exists ti, qi, task, quiz. repeat split; assumption.
  - destruct (Hn ti eq_refl) as [task [Ht Hb]].
    destruct (handleNextButtonClick_effect ti st task Ht) as [_ [Ha [_ [_ Hx]]]].
    cbv zeta in Hx.
    right; right; right. exists ti, task.
    do 3 (split; [assumption |]).
    destruct (getElementById (nextTaskId_of task) (tasks (document st)))
      as [[ni next]|] eqn:Hg.
    + right. exists ni, next.
      apply list_find_Some in Hg. destruct Hg as [Hni [Hid _]].
      destruct Hx as [Hu [_ [Hts _]]]. rewrite Hid. repeat split; assumption.
    + left. destruct Hx as [Hu [_ [Hts _]]]. now split.
  - now left.
Qed.

Lemma set_active_same (t : Task) : set_active (active t) t = t.
Proof. now destruct t. Qed.

(** After a click on the header of the unlocked task [ti], the task is
    toggled and every other task is closed. *)
Lemma header_tasks_lookup (ti j : nat) (ts : list Task) :
  header_tasks ti ts !! j
  = (fun t => set_active (bool_decide (j = ti) && negb (active t)) t) <$> ts !! j.
Proof.
  unfold header_tasks. rewrite list_lookup_alter.
  destruct (decide (ti = j)) as [<- | Hne].
  - rewrite list_lookup_imap. destruct (ts !! ti) as [t|]; [| reflexivity].
    cbn. rewrite Nat.eqb_refl, andb_false_r, bool_decide_eq_true_2 by reflexivity.
    reflexivity.
  - rewrite list_lookup_imap. destruct (ts !! j) as [t|]; [| reflexivity].
    cbn. rewrite bool_decide_eq_false_2 by congruence.
    apply Nat.eqb_neq in Hne. rewrite Nat.eqb_sym in Hne. rewrite Hne. cbn.
    destruct (active t) eqn:Ea; cbn; [reflexivity |].
    now rewrite <- Ea, set_active_same.
Qed.

(** What a delivered command does to one task element. *)
Lemma dispatch_pointwise (c : Command) (st : State) (j : nat) (t : Task) :
  tasks (document st) !! j = Some t ->
  exists t',
    tasks (document (dispatch c st)) !! j = Some t' /\
    (t' = t \/
     (exists b, t' = set_active b t) \/
     (exists qi quiz,
        quizzes t !! qi = Some quiz /\
        answeredQuizIds (dispatch c st)
        = Set_add (answeredQuizIds st) (JStr (quizId_of t qi)) /\
        unlockedTaskIds (dispatch c st) =
          (if task_complete (marked_task qi t)
           then Set_add (unlockedTaskIds st) (JStr (id t))
           else unlockedTaskIds st) /\
        t' = answered_task qi t) \/
     (t' = set_active true (set_locked false t) /\
      unlockedTaskIds (dispatch c st)
      = Set_add (unlockedTaskIds st) (JStr (id t)))).
Proof.
  intros Hj.
  destruct (dispatch_steps c st)
    as [[Hts _] | [[ti [task [Ht [Hl [Hts _]]]]]
       | [[ti [qi [task [quiz [Ht [Hq [Hh [Hts [Ha Hu]]]]]]]]]
       | [ti [task [Ht [Hb [Ha [[Hts Hu] | [ni [next [Hni [Hid [Hts Hu]]]]]]]]]]]]]];
    cbv zeta in *; rewrite Hts.
  - exists t. split; [assumption | now left].
  - rewrite header_tasks_lookup, Hj. cbn. eexists. split; [reflexivity |].
    right; left. eauto.
  - rewrite list_lookup_alter. destruct (decide (ti = j)) as [<- | Hne].
    + rewrite Hj. cbn. eexists. split; [reflexivity |].
      assert (task = t) as -> by congruence.
      right; right; left. exists qi, quiz. repeat split; assumption.
    + exists t. split; [assumption | now left].
  - rewrite list_lookup_alter. destruct (decide (ti = j)) as [<- | Hne].
    + rewrite Hj. cbn. eexists. split; [reflexivity |]. right; left. eauto.
    + exists t. split; [assumption | now left].
  - rewrite list_lookup_alter. destruct (decide (ni = j)) as [<- | Hne].
    + assert (next = t) as -> by congruence.
      exists (set_active true (set_locked false t)). split.
      * rewrite list_lookup_alter.
        destruct (decide (ti = ni)) as [-> | ?]; rewrite Hj; reflexivity.
      * right; right; right. now split.
    + rewrite list_lookup_alter. destruct (decide (ti = j)) as [<- | Hne'].
      * rewrite Hj. cbn. eexists. split; [reflexivity |]. right; left. eauto.
      * exists t. split; [assumption | now left].
Qed.

(** No command takes an element out of a set. *)
Lemma Set_has_Set_add_mono (s : JSSet) (x v : json) :
  Set_has s v = true -> Set_has (Set_add s x) v = true.
Proof.
  intros H. unfold Set_add. destruct (Set_has s x); [assumption |].
  unfold Set_has in *. rewrite existsb_app, H. reflexivity.
Qed.

Lemma sets_grow_dispatch (c : Command) (st : State) (v : json) :
  (Set_has (answeredQuizIds st) v = true ->
   Set_has (answeredQuizIds (dispatch c st)) v = true) /\
  (Set_has (unlockedTaskIds st) v = true ->
   Set_has (unlockedTaskIds (dispatch c st)) v = true).
Proof.
  destruct (dispatch_steps c st)
    as [[_ [Ha Hu]]
       | [[ti [task [_ [_ [_ [Ha Hu]]]]]]
       | [[ti [qi [task [quiz [_ [_ [_ [_ [Ha Hu]]]]]]]]]
       | [ti [task [_ [_ [Ha [[_ Hu] | [ni [next [_ [_ [_ Hu]]]]]]]]]]]]]];
    cbv zeta in *; rewrite Ha, Hu; split; try tauto;
    try apply Set_has_Set_add_mono.
  destruct (task_complete _); [apply Set_has_Set_add_mono | tauto].
Qed.

(** ** Invariants of a session *)

(** [answeredCorrectlyCount] follows the size of [answeredQuizIds]. *)
Lemma count_size_dispatch (c : Command) (st : State) :
  answeredCorrectlyCount st = Set_size (answeredQuizIds st) ->
  answeredCorrectlyCount (dispatch c st) = Set_size (answeredQuizIds (dispatch c st)).
Proof.
  intros Hc.
  destruct (dispatch_cases c st) as [-> | [_ [-> Hn]]]; [assumption |].
  destruct c as [ti|ti qi oi|ti|]; cbn [handle].
  - destruct (handleTaskHeaderClick_frame ti st) as [_ [H1 [H2 _]]]. congruence.
  - destruct (handleOptionClick_effect ti qi oi st)
      as [-> | [task [quiz [_ [_ [_ [Hh [_ [Hn' [Ha _]]]]]]]]]]; [assumption |].
    rewrite Hn', Ha, (Set_size_add _ _ Hh). congruence.
  - destruct (Hn ti eq_refl) as [task [Ht _]].
    destruct (handleNextButtonClick_effect ti st task Ht) as [_ [Ha [Hk _]]].
    congruence.
  - exact Hc.
Qed.

(** The score slot reads back as the score. *)
Lemma score_slot_dispatch (c : Command) (st : State) :
  score_of_slot (localStorage st !! LS_SCORE) = score st ->
  score_of_slot (localStorage (dispatch c st) !! LS_SCORE) = score (dispatch c st).
Proof.
  intros Hc.
  destruct (dispatch_cases c st) as [-> | [_ [-> Hn]]]; [assumption |].
  destruct c as [ti|ti qi oi|ti|]; cbn [handle].
  - destruct (handleTaskHeaderClick_frame ti st) as [H1 [_ [_ [_ [H2 _]]]]]. congruence.
  - destruct (handleOptionClick_effect ti qi oi st)
      as [-> | [task [quiz [_ [_ [_ [_ [_ [_ [_ [_ [[Hm _] _]]]]]]]]]]]]; [assumption |].
    now apply score_of_slot_mirror.
  - destruct (Hn ti eq_refl) as [task [Ht _]].
    destruct (handleNextButtonClick_effect ti st task Ht) as [Hs [_ [_ [_ Hx]]]].
    cbv zeta in Hx.
    destruct (getElementById _ _) as [[ni nt]|].
    + destruct Hx as [_ [[Hm _] _]]. now apply score_of_slot_mirror.
    + destruct Hx as [_ [Hl _]]. congruence.
  - exact Hc.
Qed.

Lemma score_slot_script (page : Document) (ls : gmap string string) :
  let st := state_of (script page ls) in
  score_of_slot (localStorage st !! LS_SCORE) = score st /\
  answeredCorrectlyCount st = Set_size (answeredQuizIds st) /\
  localStorage st = ls.
Proof.
  cbv zeta. destruct (script page ls) as [st|e st] eqn:E; cbn [state_of].
  - destruct (script_returned page ls st E) as [_ [Hl [Hs [_ [_ [Hc _]]]]]].
    rewrite Hl. now split.
  - destruct (script_thrown page ls e st E) as [_ [Hl [_ [Hs [Hc _]]]]].
    rewrite Hl. now split.
Qed.

Lemma run_invariant (P : State -> Prop) (cs : list Command) (st : State) :
  (forall c s, P s -> P (dispatch c s)) -> P st -> P (run cs st).
Proof.
  intros Hd. revert st. unfold run.
  induction cs as [|c cs IH]; intros st Hst; cbn [fold_left]; [assumption |].
  apply IH. now apply Hd.
Qed.

(** *** The quizzes of a task *)

Lemma quiz_evolves_refl (q : Quiz) : quiz_evolves q q.
Proof. now split. Qed.

Lemma quizzes_evolve_refl (t : Task) : quizzes_evolve t t.
Proof.
  split; [reflexivity |]. apply Forall_Forall2_diag, Forall_forall.
  intros; apply quiz_evolves_refl.
Qed.

Lemma quizzes_evolve_trans (x y z : Task) :
  quizzes_evolve x y -> quizzes_evolve y z -> quizzes_evolve x z.
Proof.
  intros [I1 Q1] [I2 Q2]. split; [congruence |].
  apply (Forall2_trans _ _ _ _ _ _ (fun a b c H1 H2 =>
           conj (eq_trans (proj1 H2) (proj1 H1))
                (fun Ha => proj2 H2 (proj2 H1 Ha))) Q1 Q2).
Qed.

Lemma quizzes_marked (qi : nat) (qs : list Quiz) :
  Forall2 quiz_evolves qs (alter (set_answered true) qi qs).
Proof.
  apply Forall2_alter_r.
  - apply Forall_Forall2_diag, Forall_forall. intros; apply quiz_evolves_refl.
  - intros x y _ _ [Ho _]. split; [exact Ho | reflexivity].
Qed.

Lemma quizzes_answered_task (qi : nat) (t : Task) :
  quizzes (answered_task qi t) = alter (set_answered true) qi (quizzes t) /\
  id (answered_task qi t) = id t /\
  locked (answered_task qi t) = locked t /\
  task_complete (answered_task qi t) = task_complete (marked_task qi t) /\
  (task_complete (answered_task qi t) = true ->
   nextButton (answered_task qi t) <> Some true).
Proof.
  unfold answered_task. cbv zeta.
  destruct (task_complete (marked_task qi t)) eqn:E.
  - repeat split; try assumption.
    intros _. cbn. destruct (nextButton t); discriminate.
  - repeat split; try assumption. congruence.
Qed.

Lemma quizzes_restored_task (a u : JSSet) (t : Task) :
  quizzes (restored_task a u t)
  = imap (fun quizIdx quiz =>
            if Set_has a (JStr (quizId_of t quizIdx))
            then set_answered true quiz else quiz) (quizzes t) /\
  id (restored_task a u t) = id t /\
  locked (restored_task a u t) = locked t && negb (Set_has u (JStr (id t))) /\
  (task_complete (restored_task a u t) = true ->
   nextButton (restored_task a u t) <> Some true).
Proof.
  unfold restored_task. cbv zeta. cbn [id set_quizzes].
  destruct (Set_has u (JStr (id t))) eqn:Eu;
    match goal with
    | |- context [task_complete ?x] => destruct (task_complete x) eqn:E
    end;
    (split; [reflexivity |]); (split; [reflexivity |]);
    (split; [cbn; now rewrite ?andb_true_r, ?andb_false_r |]).
  all: try congruence.
  all: intros _; cbn; destruct (nextButton t); discriminate.
Qed.

Lemma quizzes_evolve_answered_task (qi : nat) (t : Task) :
  quizzes_evolve t (answered_task qi t).
Proof.
  destruct (quizzes_answered_task qi t) as [Hq [Hi _]].
  split; [exact Hi |]. rewrite Hq. apply quizzes_marked.
Qed.

Lemma quizzes_evolve_restored_task (a u : JSSet) (t : Task) :
  quizzes_evolve t (restored_task a u t).
Proof.
  destruct (quizzes_restored_task a u t) as [Hq [Hi _]].
  split; [exact Hi |]. rewrite Hq.
  apply Forall2_same_length_lookup. split; [now rewrite length_imap |].
  intros i x y Hx. rewrite list_lookup_imap, Hx. cbn. intros [= <-].
  destruct (Set_has _ _); [now split | apply quiz_evolves_refl].
Qed.

Lemma dispatch_quizzes_evolve (c : Command) (st : State) (j : nat) (t t' : Task) :
  tasks (document st) !! j = Some t ->
  tasks (document (dispatch c st)) !! j = Some t' ->
  quizzes_evolve t t'.
Proof.
  intros Hj Hj'.
  destruct (dispatch_pointwise c st j t Hj)
    as [t'' [E [-> | [[b ->] | [[qi [quiz [_ [_ [_ ->]]]]] | [-> _]]]]]];
    rewrite E in Hj'; injection Hj' as <-;
    try apply quizzes_evolve_refl; try apply quizzes_evolve_answered_task;
    (split; [reflexivity |]; apply Forall_Forall2_diag, Forall_forall;
     intros; apply quiz_evolves_refl).
Qed.

(** The tasks of a reachable state, index by index, against the page as
    served. *)
Lemma reachable_lookup (page : Document) (st : State) (j : nat) (t : Task) :
  reachable page st -> tasks (document st) !! j = Some t ->
  exists t0, tasks page !! j = Some t0 /\ task_evolves t0 t.
Proof.
  intros Hr Hj.
  exact (Forall2_lookup_r _ _ _ _ _ (reachable_evolves page st Hr) Hj).
Qed.

Lemma dispatch_lookup (c : Command) (st : State) (j : nat) (t' : Task) :
  tasks (document (dispatch c st)) !! j = Some t' ->
  exists t, tasks (document st) !! j = Some t.
Proof.
  intros Hj.
  destruct (Forall2_lookup_r _ _ _ _ _ (dispatch_evolves c st) Hj) as [t [Ht _]].
  eauto.
Qed.

Lemma reachable_quizzes_evolve (page : Document) (st : State) :
  reachable page st ->
  forall j t0 t,
    tasks page !! j = Some t0 -> tasks (document st) !! j = Some t ->
    quizzes_evolve t0 t.
Proof.
  intros Hr. pattern st. revert st Hr. apply reachable_session_ind.
  - intros ls st E j t0 t H0 Hj.
    destruct (script_returned page ls st E) as [_ [_ [_ [_ [_ [_ [_ [_ Hts]]]]]]]].
    rewrite Hts, list_lookup_fmap, H0 in Hj. injection Hj as <-.
    apply quizzes_evolve_restored_task.
  - intros c st _ IH j t0 t' H0 Hj.
    destruct (dispatch_lookup c st j t' Hj) as [t Ht].
    apply (quizzes_evolve_trans t0 t t'); [now apply (IH j) |].
    now apply (dispatch_quizzes_evolve c st j).
Qed.

(** *** Quiz ids *)

Lemma digits_only_uint (d : Decimal.uint) :
  digits_only (NilEmpty.string_of_uint d) = true.
Proof.
  induction d; [reflexivity | ..];
    cbn [NilEmpty.string_of_uint digits_only]; rewrite IHd; vm_compute; reflexivity.
Qed.

Lemma digits_only_index (n : nat) :
  digits_only (Number_toString (Int (Z.of_nat n))) = true.
Proof.
  unfold Number_toString. destruct (Z.of_nat n) as [|p|p] eqn:E; [reflexivity | | lia].
  cbn [Z.to_int NilZero.string_of_int].
  rewrite (NilZero_string_of_uint_nonnil _ (DecimalPos.Unsigned.to_uint_nonnil p)).
  apply digits_only_uint.
Qed.

Lemma digits_only_underscore (a b : string) :
  digits_only (a +:+ String "_" b) = false.
Proof.
  induction a as [|c a IH]; [reflexivity |].
  rewrite append_cons. cbn [digits_only]. rewrite IH. apply andb_false_r.
Qed.

(** A text that ends with an underscore and a number splits in one way
    only. *)
Lemma split_at_last_underscore (a b d e : string) :
  digits_only d = true -> digits_only e = true ->
  a +:+ String "_" d = b +:+ String "_" e -> a = b /\ d = e.
Proof.
  revert b. induction a as [|c a IH]; intros [|c' b] Hd He H.
  - change (String "_" d = String "_" e) in H. injection H as ->. now split.
  - change (String "_" d = String c' (b +:+ String "_" e)) in H.
    injection H as _ ->. now rewrite digits_only_underscore in Hd.
  - change (String c (a +:+ String "_" d) = String "_" e) in H.
    injection H as _ <-. now rewrite digits_only_underscore in He.
  - rewrite !append_cons in H. injection H as -> H.
    destruct (IH b Hd He H) as [-> ->]. now split.
Qed.

Lemma quizId_of_inj (t1 t2 : Task) (q1 q2 : nat) :
  quizId_of t1 q1 = quizId_of t2 q2 -> id t1 = id t2 /\ q1 = q2.
Proof.
  intros H.
  destruct (split_at_last_underscore (id t1) (id t2) _ _
              (digits_only_index q1) (digits_only_index q2) H) as [Hi Hn].
  split; [exact Hi |].
  apply Number_toString_inj in Hn. injection Hn as Hn. lia.
Qed.

Lemma quizId_of_id (t t' : Task) (qi : nat) :
  id t' = id t -> quizId_of t' qi = quizId_of t qi.
Proof. intros H. unfold quizId_of. now rewrite H. Qed.

Lemma Set_has_Set_add_inv (s : JSSet) (x y : string) :
  Set_has (Set_add s (JStr x)) (JStr y) = true ->
  Set_has s (JStr y) = true \/ y = x.
Proof.
  unfold Set_add. destruct (Set_has s (JStr x)); [now left |].
  unfold Set_has. rewrite existsb_app. intros [H | H]%orb_true_iff; [now left |].
  right. cbn in H. rewrite orb_false_r in H. now apply String.eqb_eq.
Qed.

Lemma quiz_ids_elem (ts : list Task) (ti qi : nat) (t : Task) (q : Quiz) :
  ts !! ti = Some t -> quizzes t !! qi = Some q -> quizId_of t qi ∈ quiz_ids ts.
Proof.
  intros Ht Hq. unfold quiz_ids. apply list_elem_of_In, in_concat.
  exists (imap (fun quizIdx _ => quizId_of t quizIdx) (quizzes t)). split.
  - apply list_elem_of_In, list_elem_of_fmap. exists t. split; [reflexivity |].
    apply list_elem_of_lookup. eauto.
  - apply list_elem_of_In.
    exact (elem_of_lookup_imap_2 (fun quizIdx _ => quizId_of t quizIdx) _ q qi Hq).
Qed.

Lemma length_quiz_ids (d : Document) : length (quiz_ids (tasks d)) = count_quizzes d.
Proof.
  unfold quiz_ids, count_quizzes.
  induction (tasks d) as [|t ts IH]; [reflexivity |].
  cbn [fmap list_fmap concat]. rewrite !length_app, length_imap. now f_equal.
Qed.

(** *** The page of a reachable state *)

Lemma reachable_ids (page : Document) (st : State) :
  reachable page st -> id <$> tasks (document st) = id <$> tasks page.
Proof.
  intros Hr. pose proof (reachable_evolves page st Hr) as He.
  induction He as [|t0 t l k [Hi _] _ IH]; [reflexivity |].
  cbn [fmap list_fmap]. now rewrite Hi, IH.
Qed.

Lemma distinct_ids_lookup (ts : list Task) (i j : nat) (a b : Task) :
  distinct_ids ts -> ts !! i = Some a -> ts !! j = Some b -> id a = id b -> i = j.
Proof.
  intros Hd Ha Hb E.
  apply (NoDup_lookup (id <$> ts) i j (id a) Hd).
  - now rewrite list_lookup_fmap, Ha.
  - now rewrite list_lookup_fmap, Hb, E.
Qed.

Lemma reachable_buttons_open (page : Document) (st : State) :
  reachable page st -> buttons_open (tasks (document st)).
Proof.
  intros Hr. pattern st. revert st Hr. apply reachable_session_ind.
  - intros ls st E. apply Forall_lookup. intros j t Hj.
    destruct (script_returned page ls st E) as [_ [_ [_ [_ [_ [_ [_ [_ Hts]]]]]]]].
    rewrite Hts, list_lookup_fmap in Hj.
    destruct (tasks page !! j) as [t0|]; [| discriminate]. injection Hj as <-.
    apply quizzes_restored_task.
  - intros c st _ IH. apply Forall_lookup. intros j t' Hj.
    destruct (dispatch_lookup c st j t' Hj) as [t Ht].
    pose proof (proj1 (Forall_lookup _ _) IH j t Ht) as Pt.
    destruct (dispatch_pointwise c st j t Ht)
      as [t'' [E [-> | [[b ->] | [[qi [quiz [_ [_ [_ ->]]]]] | [-> _]]]]]];
      rewrite E in Hj; injection Hj as <-;
      try exact Pt; apply quizzes_answered_task.
Qed.

Lemma reachable_unlocks_recorded (page : Document) (st : State) :
  reachable page st -> unlocks_recorded (tasks page) st.
Proof.
  intros Hr. pattern st. revert st Hr. apply reachable_session_ind.
  - intros ls st E ti t0 t H0 Hj Hl.
    destruct (script_returned page ls st E) as [_ [_ [_ [_ [_ [_ [_ [_ Hts]]]]]]]].
    rewrite Hts, list_lookup_fmap, H0 in Hj. injection Hj as <-.
    destruct (quizzes_restored_task (answeredQuizIds st) (unlockedTaskIds st) t0)
      as [_ [Hi [Hk _]]].
    rewrite Hk in Hl. rewrite Hi.
    destruct (locked t0); [right | now left]. cbn in Hl.
    now destruct (Set_has _ _).
  - intros c st _ IH ti t0 t' H0 Hj Hl.
    destruct (dispatch_lookup c st ti t' Hj) as [t Ht].
    pose proof (proj2 (sets_grow_dispatch c st (JStr (id t)))) as Hm.
    destruct (dispatch_pointwise c st ti t Ht)
      as [t'' [E [-> | [[b ->] | [[qi [quiz [_ [_ [_ ->]]]]] | [-> Hu]]]]]];
      rewrite E in Hj; injection Hj as <-.
    + destruct (IH ti t0 t H0 Ht Hl); [now left | right; auto].
    + destruct (IH ti t0 t H0 Ht Hl); [now left | right; auto].
    + destruct (quizzes_answered_task qi t) as [_ [Hi [Hk _]]].
      rewrite Hk in Hl. rewrite Hi.
      destruct (IH ti t0 t H0 Ht Hl); [now left | right; auto].
    + right. rewrite Hu. apply Set_has_add.
Qed.

Lemma reachable_marks_recorded (page : Document) (st : State) :
  reachable page st -> marks_recorded (tasks page) st.
Proof.
  intros Hr. pattern st. revert st Hr. apply reachable_session_ind.
  - intros ls st E ti t0 t qi q0 q H0 Hj Hq0 Hq Ha.
    destruct (script_returned page ls st E) as [_ [_ [_ [_ [_ [_ [_ [_ Hts]]]]]]]].
    rewrite Hts, list_lookup_fmap, H0 in Hj. injection Hj as <-.
    destruct (quizzes_restored_task (answeredQuizIds st) (unlockedTaskIds st) t0)
      as [Hqs [Hi _]].
    rewrite Hqs, list_lookup_imap, Hq0 in Hq. cbn in Hq. injection Hq as <-.
    rewrite (quizId_of_id t0 _ qi Hi).
    destruct (Set_has _ _); [now right | now left].
  - intros c st _ IH ti t0 t' qi q0 q' H0 Hj Hq0 Hq' Ha.
    destruct (dispatch_lookup c st ti t' Hj) as [t Ht].
    destruct (dispatch_quizzes_evolve c st ti t t' Ht Hj) as [Hi Hqs].
    destruct (Forall2_lookup_r _ _ _ _ _ Hqs Hq') as [q [Hq _]].
    rewrite (quizId_of_id t t' qi Hi).
    pose proof (proj1 (sets_grow_dispatch c st (JStr (quizId_of t qi)))) as Hm.
    destruct (answered q) eqn:Eq.
    + destruct (IH ti t0 t qi q0 q H0 Ht Hq0 Hq Eq); [now left | right; auto].
    + destruct (dispatch_pointwise c st ti t Ht)
        as [t'' [E [-> | [[b ->] | [[qj [quiz [_ [Hadd [_ ->]]]]] | [-> _]]]]]];
        rewrite E in Hj; injection Hj as <-;
        try (exfalso; cbn in Hq'; congruence).
      destruct (quizzes_answered_task qj t) as [Hqt _].
      rewrite Hqt, list_lookup_alter in Hq'.
      destruct (decide (qj = qi)) as [-> | Hne]; [| congruence].
      right. rewrite Hadd. apply Set_has_add.
Qed.

Lemma reachable_recorded_marked (page : Document) (st : State) :
  distinct_ids (tasks page) -> reachable page st -> recorded_marked st.
Proof.
  intros Hd Hr. pattern st. revert st Hr. apply reachable_session_ind.
  - intros ls st E ti t qi q Hj Hq Hh.
    destruct (script_returned page ls st E) as [_ [_ [_ [_ [_ [_ [_ [_ Hts]]]]]]]].
    rewrite Hts, list_lookup_fmap in Hj.
    destruct (tasks page !! ti) as [t0|]; [| discriminate]. injection Hj as <-.
    destruct (quizzes_restored_task (answeredQuizIds st) (unlockedTaskIds st) t0)
      as [Hqs [Hi _]].
    rewrite (quizId_of_id t0 _ qi Hi) in Hh.
    rewrite Hqs, list_lookup_imap in Hq.
    destruct (quizzes t0 !! qi) as [q0|]; [| discriminate].
    cbn in Hq. rewrite Hh in Hq. now injection Hq as <-.
  - intros c st Hr IH ti t' qi q' Hj Hq' Hh.
    destruct (dispatch_lookup c st ti t' Hj) as [t Ht].
    destruct (dispatch_quizzes_evolve c st ti t t' Ht Hj) as [Hi Hqs].
    destruct (Forall2_lookup_r _ _ _ _ _ Hqs Hq') as [q [Hq [_ Hmono]]].
    rewrite (quizId_of_id t t' qi Hi) in Hh.
    assert (Hold : Set_has (answeredQuizIds st) (JStr (quizId_of t qi)) = true ->
                   answered q' = true).
    { intros H. apply Hmono. exact (IH ti t qi q Ht Hq H). }
    destruct (dispatch_steps c st)
      as [[_ [Ha _]]
         | [[tj [task [_ [_ [_ [Ha _]]]]]]
         | [[tj [qj [task [quiz [Htj [_ [_ [Hts [Ha _]]]]]]]]]
         | [tj [task [_ [_ [Ha _]]]]]]]];
      cbv zeta in *; rewrite Ha in Hh; try (now apply Hold).
    destruct (Set_has_Set_add_inv _ _ _ Hh) as [H | H]; [now apply Hold |].
    destruct (quizId_of_inj t task qi qj H) as [Hid ->].
    assert (ti = tj) as ->.
    { apply (distinct_ids_lookup (tasks (document st)) ti tj t task); try assumption.
      unfold distinct_ids. now rewrite (reachable_ids page st Hr). }
    assert (task = t) as -> by congruence.
    rewrite Hts, list_lookup_alter_eq, Ht in Hj. cbn in Hj. injection Hj as <-.
    destruct (quizzes_answered_task qj t) as [Hqt _].
    rewrite Hqt, list_lookup_alter_eq, Hq in Hq'. cbn in Hq'. now injection Hq' as <-.
Qed.

Lemma reachable_answers_known (page : Document) (st : State) :
  reachable page st -> answers_known (tasks page) st.
Proof.
  induction 1 as [|c st Hr IH|st Hr IH|st Hr IH _ _].
  - pose proof (consistent_first_visit page) as [_ [Hs _]].
    pose proof (script_cases page ∅) as H. cbv zeta in H.
    rewrite !lookup_empty in H. cbn [Set_of_slot] in H.
    destruct H as [st [-> [_ [Ha _]]]]. cbn [state_of].
    intros x Hx. rewrite Ha in Hx. now apply elem_of_nil in Hx.
  - intros x Hx.
    destruct (dispatch_steps c st)
      as [[_ [Ha _]]
         | [[tj [task [_ [_ [_ [Ha _]]]]]]
         | [[tj [qj [task [quiz [Htj [Hqj [_ [_ [Ha _]]]]]]]]]
         | [tj [task [_ [_ [Ha _]]]]]]]];
      cbv zeta in *; rewrite Ha in Hx; try (now apply IH).
    destruct (elem_of_Set_add _ _ _ Hx) as [H | H]; [now apply IH |].
    injection H as ->.
    destruct (reachable_lookup page st tj task Hr Htj) as [t0 [H0 _]].
    destruct (reachable_quizzes_evolve page st Hr tj t0 task H0 Htj) as [Hi Hqs].
    destruct (Forall2_lookup_r _ _ _ _ _ Hqs Hqj) as [q0 [Hq0 _]].
    rewrite (quizId_of_id t0 task qj Hi).
    exact (quiz_ids_elem (tasks page) tj qj t0 q0 H0 Hq0).
  - destruct (reachable_consistent page st Hr) as [Hi [_ Hm]].
    destruct (script_mirror page st Hi Hm) as [st' [-> [_ [Ha _]]]].
    cbn [state_of]. intros x Hx. rewrite Ha in Hx. now apply IH.
  - destruct LS_keys_distinct as [K1 [K2 K3]].
    unfold resetBtn_click.
    set (ls := delete LS_UNLOCKED (delete LS_ANSWERED (delete LS_SCORE (localStorage st)))).
    assert (H2 : ls !! LS_ANSWERED = None).
    { subst ls. rewrite lookup_delete_ne, lookup_delete_eq by congruence. reflexivity. }
    assert (H3 : ls !! LS_UNLOCKED = None).
    { subst ls. now rewrite lookup_delete_eq. }
    pose proof (script_cases page ls) as H. cbv zeta in H.
    rewrite H2, H3 in H. cbn [Set_of_slot] in H.
    destruct H as [st' [-> [_ [Ha _]]]]. cbn [state_of].
    intros x Hx. rewrite Ha in Hx. now apply elem_of_nil in Hx.
Qed.

(** ** The claims *)

(** *** C1: score and answered ids *)

(** C1, counterexample.  The score slot and the answered slot are read
    independently: from a store that holds only a score of 5, the script
    starts with score 5 and no answered id. *)
Lemma score_desync_after_load :
  ~ score_counts (state_of (script demo_page {[ LS_SCORE := "5" ]})).
Proof. unfold score_counts. vm_compute. discriminate. Qed.

(** C1, as amended.  In every state reached from a first visit (an empty
    store) by commands, page reloads and resets, the score equals the
    number of answered ids; and from any state whatever, no sequence of
    commands of a session decreases the score. *)
Theorem score_counts_answered_ids
  (page : Document) (st st0 : State) (cs : list Command) :
  reachable page st ->
  score st = Int (Z.of_nat (Set_size (answeredQuizIds st))) /\
  score_le (score st0) (score (run cs st0)).
Proof.
  intros H. split.
  - apply (reachable_consistent page st H).
  - apply score_le_run.
Qed.

Lemma score_counts_answered_ids_witness :
  reachable demo_page (dispatch (OptionClick 0 0 0) demo_start) /\
  score (dispatch (OptionClick 0 0 0) demo_start) = Int 1 /\
  score (dispatch (OptionClick 0 0 0) demo_start)
    = Int (Z.of_nat (Set_size (answeredQuizIds (dispatch (OptionClick 0 0 0) demo_start)))) /\
  score_le (score demo_start)
    (score (run [OptionClick 0 0 0; OptionClick 0 0 0; NextClick 0] demo_start)).
Proof.
  split; [apply reach_command, reach_first_visit |].
  split; [vm_compute; reflexivity |].
  apply (score_counts_answered_ids demo_page).
  apply reach_command, reach_first_visit.
Defined.

(** *** C2: advancing *)

(** In a state reached on a page that is served with every enabled next
    button on a complete task, every enabled next button is on a complete
    task: the script enables a button only after the test
    [answeredInTask >= totalInTask]. *)
Lemma reachable_buttons_gated (page : Document) (st : State) :
  reachable page st -> buttons_gated (tasks page) ->
  buttons_gated (tasks (document st)).
Proof.
  intros Hr Hg. pose proof (reachable_evolves page st Hr) as He.
  unfold buttons_gated in *. rewrite Forall_lookup in *.
  intros i t Ht Hb.
  destruct (Forall2_lookup_r _ _ _ _ _ He Ht) as [t0 [Ht0 [_ [Hq [_ [Ha Hn]]]]]].
  destruct Hn as [Hn | [_ Hc]]; [| exact Hc].
  apply (task_complete_mono t0 t Hq Ha).
  apply (Hg i t0 Ht0). congruence.
Qed.

(** C2, counterexample.  On a first visit of the demo page no quiz of
    task1 is answered, yet the handler of its next button, once called,
    records task2 as unlocked. *)
Lemma advance_is_not_rechecked :
  tasks (document demo_start) !! 0%nat = Some demo_task1 /\
  task_complete demo_task1 = false /\
  unlockedTaskIds demo_start = [] /\
  unlockedTaskIds (handleNextButtonClick 0 demo_start) = [JStr "task2"].
Proof. vm_compute. repeat split. Qed.

(** C2, as amended.  [handleNextButtonClick] makes no eligibility test:
    called on any task, complete or not, it leaves the score and the
    answered ids unchanged and, when an element with the next id exists,
    adds that id to [unlockedTaskIds] (it adds nothing when there is none).
    An advance on a task that is not complete is kept out by the page only:
    a click on a disabled or missing next button is not delivered, and in
    the states reached on a page served with its buttons gated, a button is
    enabled only on a complete task. *)
Theorem advance_trusts_the_button
  (page : Document) (ti : nat) (st : State) (task : Task) :
  tasks (document st) !! ti = Some task ->
  score (handleNextButtonClick ti st) = score st /\
  answeredQuizIds (handleNextButtonClick ti st) = answeredQuizIds st /\
  (is_Some (getElementById (nextTaskId_of task) (tasks (document st))) ->
   unlockedTaskIds (handleNextButtonClick ti st)
     = Set_add (unlockedTaskIds st) (JStr (nextTaskId_of task))) /\
  (getElementById (nextTaskId_of task) (tasks (document st)) = None ->
   unlockedTaskIds (handleNextButtonClick ti st) = unlockedTaskIds st) /\
  (nextButton task <> Some false -> dispatch (NextClick ti) st = st) /\
  (reachable page st -> buttons_gated (tasks page) ->
   nextButton task = Some false -> task_complete task = true).
Proof.
  intros Ht.
  destruct (handleNextButtonClick_effect ti st task Ht) as [Hs [Ha [_ [_ Hx]]]].
  cbv zeta in Hx.
  split; [exact Hs |]. split; [exact Ha |].
  split; [| split; [| split]].
  - intros [[ni nt] E]. rewrite E in Hx. apply Hx.
  - intros E. rewrite E in Hx. apply Hx.
  - intros Hb. unfold dispatch. rewrite Ht.
    destruct (listeners st); [| reflexivity].
    destruct (nextButton task) as [[|]|]; congruence.
  - intros Hr Hg Hb.
    pose proof (reachable_buttons_gated page st Hr Hg) as G.
    unfold buttons_gated in G. rewrite Forall_lookup in G.
    exact (G ti task Ht Hb).
Qed.

Lemma advance_trusts_the_button_witness :
  tasks (document demo_start) !! 0%nat = Some demo_task1 /\
  (score (handleNextButtonClick 0 demo_start) = score demo_start /\
   answeredQuizIds (handleNextButtonClick 0 demo_start) = answeredQuizIds demo_start /\
   (is_Some (getElementById (nextTaskId_of demo_task1) (tasks (document demo_start))) ->
    unlockedTaskIds (handleNextButtonClick 0 demo_start)
      = Set_add (unlockedTaskIds demo_start) (JStr (nextTaskId_of demo_task1))) /\
   (getElementById (nextTaskId_of demo_task1) (tasks (document demo_start)) = None ->
    unlockedTaskIds (handleNextButtonClick 0 demo_start) = unlockedTaskIds demo_start) /\
   (nextButton demo_task1 <> Some false -> dispatch (NextClick 0) demo_start = demo_start) /\
   (reachable demo_page demo_start -> buttons_gated (tasks demo_page) ->
    nextButton demo_task1 = Some false -> task_complete demo_task1 = true)).
Proof.
  split; [vm_compute; reflexivity |].
  apply (advance_trusts_the_button demo_page 0 demo_start demo_task1).
  vm_compute; reflexivity.
Defined.

(** *** C3: answering an answered item *)

(** C3.  A click on an option of a quiz whose id is in [answeredQuizIds]
    returns at once: the whole state, store included, is unchanged, and so
    it is after a reload that gave the id back.  Hence after a first correct
    answer, which adds one to the score and one id to the set, every further
    click on the same quiz changes nothing: two correct answers count
    once. *)
Theorem submitAnswer_answered_is_noop
  (ti qi oi oi' : nat) (st : State) (task : Task) :
  tasks (document st) !! ti = Some task ->
  (Set_has (answeredQuizIds st) (JStr (quizId_of task qi)) = true ->
   handleOptionClick ti qi oi st = st) /\
  (forall quiz,
     quizzes task !! qi = Some quiz ->
     options quiz !! oi = Some (Some "true") ->
     Set_has (answeredQuizIds st) (JStr (quizId_of task qi)) = false ->
     score (handleOptionClick ti qi oi st) = incr (score st) /\
     Set_size (answeredQuizIds (handleOptionClick ti qi oi st))
       = S (Set_size (answeredQuizIds st)) /\
     handleOptionClick ti qi oi' (handleOptionClick ti qi oi st)
       = handleOptionClick ti qi oi st) /\
  (forall page st_r task_r,
     id_sets st -> mirrors st ->
     script page (localStorage st) = Returned st_r ->
     tasks (document st_r) !! ti = Some task_r ->
     Set_has (answeredQuizIds st) (JStr (quizId_of task_r qi)) = true ->
     handleOptionClick ti qi oi st_r = st_r).
Proof.
  intros Ht.
  assert (Hnoop : forall s t o, tasks (document s) !! ti = Some t ->
            Set_has (answeredQuizIds s) (JStr (quizId_of t qi)) = true ->
            handleOptionClick ti qi o s = s).
  { intros s t o Hs Hh. unfold handleOptionClick. rewrite Hs.
    destruct (quizzes t !! qi) as [q|]; [| reflexivity].
    destruct (options q !! o) as [x|]; [| reflexivity].
    now rewrite Hh. }
  split; [apply (Hnoop st task oi Ht) |]. split.
  - intros quiz Hq Ho Hh.
    pose proof (handleOptionClick_evolves ti qi oi st) as He.
    destruct (Forall2_lookup_l _ _ _ _ _ He Ht) as [t1 [Ht1 [Hid _]]].
    destruct (handleOptionClick_first_correct ti qi oi st task quiz Ht Hq Ho Hh)
      as [Hs [_ [Ha _]]].
    split; [exact Hs |]. split.
    + rewrite Ha. now apply Set_size_add.
    + apply (Hnoop _ t1 oi' Ht1). rewrite Ha.
      unfold quizId_of. rewrite Hid. apply Set_has_add.
  - intros page st_r task_r Hi Hm Hr Htr Hh.
    destruct (script_mirror page st Hi Hm) as [st' [E [_ [Ha _]]]].
    rewrite Hr in E. injection E as <-.
    apply (Hnoop st_r task_r oi Htr). now rewrite Ha.
Qed.

Lemma submitAnswer_answered_is_noop_witness :
  tasks (document demo_start) !! 0%nat = Some demo_task1 /\
  score (handleOptionClick 0 0 0 (handleOptionClick 0 0 0 demo_start)) = Int 1 /\
  handleOptionClick 0 0 0 (handleOptionClick 0 0 0 demo_start)
    = handleOptionClick 0 0 0 demo_start.
Proof.
  split; [vm_compute; reflexivity |].
  split; [vm_compute; reflexivity |].
  refine (proj2 (proj2 (proj1 (proj2
    (submitAnswer_answered_is_noop 0 0 0 0 demo_start demo_task1 _)) demo_quiz _ _ _)));
    vm_compute; reflexivity.
Defined.

(** *** C4: task1 and the unlocked set *)

(** C4, counterexample.  On a first visit of the demo page, whose first
    task is task1, the unlocked set is empty: task1 is not in it. *)
Lemma task1_is_not_force_added :
  id <$> tasks demo_page !! 0%nat = Some "task1" /\
  script demo_page ∅ = Returned demo_start /\
  Set_has (unlockedTaskIds demo_start) (JStr "task1") = false.
Proof. vm_compute. repeat split. Qed.

(** C4, as amended.  When the unlocked slot is absent at load,
    [unlockedTaskIds] is the empty set and nothing is added to it: task1 is
    not force-added.  What holds in every reachable state is that a task
    served without the locked mark, as task1 is, keeps its id and stays
    without it. *)
Theorem unlocked_slot_absent_gives_empty_set
  (page : Document) (ls : gmap string string) (st : State) :
  ls !! LS_UNLOCKED = None ->
  reachable page st ->
  unlockedTaskIds (state_of (script page ls)) = [] /\
  (forall i t0,
     tasks page !! i = Some t0 -> locked t0 = false ->
     exists t, tasks (document st) !! i = Some t /\ id t = id t0 /\ locked t = false).
Proof.
  intros Hls Hr. split.
  - pose proof (script_cases page ls) as H. cbv zeta in H.
    rewrite Hls in H. cbn [Set_of_slot] in H.
    destruct (Set_of_slot (ls !! LS_ANSWERED));
      destruct H as [st' [-> [_ [_ [Hu _]]]]]; exact Hu.
  - intros i t0 Ht0 Hl.
    destruct (Forall2_lookup_l _ _ _ _ _ (reachable_evolves page st Hr) Ht0)
      as [t [Ht [Hid [_ [Hlk _]]]]].
    exists t. auto.
Qed.

Lemma unlocked_slot_absent_gives_empty_set_witness :
  (∅ : gmap string string) !! LS_UNLOCKED = None /\
  reachable demo_page (dispatch (OptionClick 0 0 0) demo_start) /\
  unlockedTaskIds (state_of (script demo_page ∅)) = [] /\
  (forall i t0,
     tasks demo_page !! i = Some t0 -> locked t0 = false ->
     exists t, tasks (document (dispatch (OptionClick 0 0 0) demo_start)) !! i = Some t /\
               id t = id t0 /\ locked t = false).
Proof.
  split; [reflexivity |].
  split; [apply reach_command, reach_first_visit |].
  apply (unlocked_slot_absent_gives_empty_set demo_page ∅);
    [reflexivity | apply reach_command, reach_first_visit].
Defined.

(** *** C5: loading the three slots *)

(** C5, counterexample.  With an answered slot that does not parse, the
    script throws before it reads the unlocked slot: the stored unlocked ids
    are not loaded and no listener is set up.  And a score slot that is not
    a number loads as NaN, not as 0. *)
Lemma corrupt_slot_blocks_the_others :
  Set_of_slot (Some (JSON_stringify (JArr [JStr "task1"; JStr "task2"])))
    = inr [JStr "task1"; JStr "task2"] /\
  (exists st,
     script demo_page
       (<[LS_ANSWERED := "{oops"]>
          {[ LS_UNLOCKED := JSON_stringify (JArr [JStr "task1"; JStr "task2"]) ]})
     = Thrown SyntaxError st /\
     unlockedTaskIds st = [] /\ listeners st = false) /\
  score (state_of (script demo_page {[ LS_SCORE := "high" ]})) = NaN.
Proof.
  split; [vm_compute; reflexivity |]. split.
  - eexists. split; [vm_compute; reflexivity |]. split; reflexivity.
  - vm_compute; reflexivity.
Qed.

(** C5, as amended.  Each slot that is missing or empty loads as its
    default (score 0, empty sets), and a score slot with text loads as
    [parseInt] of it (NaN when it has no leading number).  A failure in a
    set slot is not recovered: if the answered slot fails, the script stops
    there, with both sets empty and no listener; if the unlocked slot fails,
    it stops with the score and the answered ids loaded, the unlocked set
    empty and no listener.  When both set slots parse, the three variables
    hold what the slots give and the listeners are set up. *)
Theorem load_slot_by_slot (page : Document) (ls : gmap string string) :
  (truthy (ls !! LS_SCORE) = false -> score (state_of (script page ls)) = Int 0) /\
  (forall s, ls !! LS_SCORE = Some s -> truthy (Some s) = true ->
             score (state_of (script page ls)) = parseInt s) /\
  (truthy (ls !! LS_ANSWERED) = false ->
     answeredQuizIds (state_of (script page ls)) = []) /\
  (truthy (ls !! LS_UNLOCKED) = false ->
     unlockedTaskIds (state_of (script page ls)) = []) /\
  (forall e, Set_of_slot (ls !! LS_ANSWERED) = inl e ->
     exists st, script page ls = Thrown e st /\
       answeredQuizIds st = [] /\ unlockedTaskIds st = [] /\ listeners st = false) /\
  (forall a e, Set_of_slot (ls !! LS_ANSWERED) = inr a ->
     Set_of_slot (ls !! LS_UNLOCKED) = inl e ->
     exists st, script page ls = Thrown e st /\
       answeredQuizIds st = a /\ unlockedTaskIds st = [] /\ listeners st = false) /\
  (forall a u, Set_of_slot (ls !! LS_ANSWERED) = inr a ->
     Set_of_slot (ls !! LS_UNLOCKED) = inr u ->
     exists st, script page ls = Returned st /\
       answeredQuizIds st = a /\ unlockedTaskIds st = u /\ listeners st = true).
Proof.
  pose proof (script_cases page ls) as H. cbv zeta in H.
  assert (Hsc : score (state_of (script page ls)) = score_of_slot (ls !! LS_SCORE)).
  { destruct (Set_of_slot (ls !! LS_ANSWERED));
      [| destruct (Set_of_slot (ls !! LS_UNLOCKED))];
      destruct H as [st [-> [Hs _]]]; exact Hs. }
  assert (Hdef : forall slot, truthy slot = false -> Set_of_slot slot = inr []).
  { intros [s|] Hf; [| reflexivity]. unfold Set_of_slot. now rewrite Hf. }
  split; [| split; [| split; [| split; [| split; [| split]]]]].
  - intros Hf. rewrite Hsc. unfold score_of_slot.
    destruct (ls !! LS_SCORE); [now rewrite Hf | reflexivity].
  - intros s Hs Ht. rewrite Hsc, Hs. unfold score_of_slot. now rewrite Ht.
  - intros Hf. rewrite (Hdef _ Hf) in H.
    destruct (Set_of_slot (ls !! LS_UNLOCKED));
      destruct H as [st [-> [_ [Ha _]]]]; exact Ha.
  - intros Hf. rewrite (Hdef _ Hf) in H.
    destruct (Set_of_slot (ls !! LS_ANSWERED));
      destruct H as [st [-> [_ [_ [Hu _]]]]]; exact Hu.
  - intros e He. rewrite He in H.
    destruct H as [st [E [_ [Ha [Hu [_ [_ [_ Hl]]]]]]]]. exists st. auto.
  - intros a e Ha He. rewrite Ha, He in H.
    destruct H as [st [E [_ [Ha' [Hu [_ [_ [_ Hl]]]]]]]]. exists st. auto.
  - intros a u Ha Hu. rewrite Ha, Hu in H.
    destruct H as [st [E [_ [Ha' [Hu' [_ [_ Hl]]]]]]]. exists st. auto.
Qed.

(** *** C6: saving, then loading *)

(** C6.  For every state whose two sets hold ids and whose score is NaN
    or a safe integer, the script run on a fresh page over the store just
    saved returns normally, with the same score, the same answered ids and
    the same unlocked ids.  (The scores of the engine are counts of
    answered quizzes.  From 10^21 on the saved text of a number is in
    exponent form, of which [parseInt] reads the leading digits only.) *)
Theorem save_then_load_round_trip (page : Document) (st : State) :
  id_sets st ->
  safe_number (score st) ->
  exists st',
    script page (localStorage (saveStateToLocalStorage st)) = Returned st' /\
    score st' = score st /\
    answeredQuizIds st' = answeredQuizIds st /\
    unlockedTaskIds st' = unlockedTaskIds st.
Proof.
  intros Hi _.
  destruct (script_mirror page (saveStateToLocalStorage st) Hi (mirrors_saved st))
    as [st' [E [Hs [Ha [Hu _]]]]].
  exists st'. auto.
Qed.

Lemma save_then_load_round_trip_witness :
  id_sets (handleNextButtonClick 0 (handleOptionClick 0 0 0 demo_start)) /\
  safe_number (score (handleNextButtonClick 0 (handleOptionClick 0 0 0 demo_start))) /\
  exists st',
    script demo_page
      (localStorage (saveStateToLocalStorage
         (handleNextButtonClick 0 (handleOptionClick 0 0 0 demo_start)))) = Returned st' /\
    score st' = Int 1 /\
    answeredQuizIds st' = [JStr "task1_0"] /\
    unlockedTaskIds st' = [JStr "task2"].
Proof.
  assert (Hi : id_sets (handleNextButtonClick 0 (handleOptionClick 0 0 0 demo_start))).
  { split; [exists ["task1_0"] | exists ["task2"]];
      (split; [vm_compute; reflexivity | apply NoDup_singleton]). }
  assert (Hs : safe_number
                 (score (handleNextButtonClick 0 (handleOptionClick 0 0 0 demo_start)))).
  { vm_compute. split; reflexivity. }
  split; [exact Hi |]. split; [exact Hs |].
  exact (save_then_load_round_trip demo_page _ Hi Hs).
Defined.

(** *** C7: the reset button *)

Lemma restoreUIState_fresh (st : State) :
  answeredQuizIds st = [] -> unlockedTaskIds st = [] ->
  (fun t => (id t, locked t, active t, quizzes t)) <$> tasks (document (restoreUIState st))
  = (fun t => (id t, locked t, active t, quizzes t)) <$> tasks (document st).
Proof.
  intros Ha Hu. unfold restoreUIState. rewrite Ha, Hu.
  cbn [on_tasks set_document document set_tasks tasks].
  rewrite <- !list_fmap_compose. apply list_fmap_ext. intros _ t _.
  cbn [compose Set_has existsb].
  replace (imap (fun (_ : nat) (quiz : Quiz) => quiz) (quizzes t)) with (quizzes t).
  - destruct (task_complete _); reflexivity.
  - change (fun (_ : nat) (quiz : Quiz) => quiz) with (@const (Quiz -> Quiz) nat (fun q => q)).
    now rewrite imap_const, list_fmap_id.
Qed.

(** C7, counterexample.  After a reset the unlocked set is empty; it is
    not the set that holds task1. *)
Lemma reset_leaves_unlocked_empty :
  unlockedTaskIds
    (state_of (resetBtn_click demo_page
       (handleNextButtonClick 0 (handleOptionClick 0 0 0 demo_start))))
  <> [JStr "task1"].
Proof. vm_compute. discriminate. Qed.

(** C7, as amended.  The reset listener has no condition and cannot fail:
    from any state the reloaded script returns normally, with score 0, no
    answered id, an empty unlocked set (task1 is unlocked by the page as
    served, not by membership), the three slots absent, and every task with
    the id, lock, visibility and quiz marks of the page as served. *)
Theorem reset_clears_everything (page : Document) (st : State) :
  exists st',
    resetBtn_click page st = Returned st' /\
    score st' = Int 0 /\
    answeredCorrectlyCount st' = 0%nat /\
    answeredQuizIds st' = [] /\
    unlockedTaskIds st' = [] /\
    localStorage st' !! LS_SCORE = None /\
    localStorage st' !! LS_ANSWERED = None /\
    localStorage st' !! LS_UNLOCKED = None /\
    (fun t => (id t, locked t, active t, quizzes t)) <$> tasks (document st')
    = (fun t => (id t, locked t, active t, quizzes t)) <$> tasks page.
Proof.
  destruct LS_keys_distinct as [K1 [K2 K3]].
  unfold resetBtn_click.
  set (ls := delete LS_UNLOCKED (delete LS_ANSWERED (delete LS_SCORE (localStorage st)))).
  assert (H1 : ls !! LS_SCORE = None).
  { subst ls. rewrite !lookup_delete_ne, lookup_delete_eq by congruence. reflexivity. }
  assert (H2 : ls !! LS_ANSWERED = None).
  { subst ls. rewrite lookup_delete_ne, lookup_delete_eq by congruence. reflexivity. }
  assert (H3 : ls !! LS_UNLOCKED = None).
  { subst ls. now rewrite lookup_delete_eq. }
  unfold script, initializeGame. rewrite restore_cases. cbv zeta.
  cbn [localStorage]. rewrite H1, H2, H3. cbn [Set_of_slot score_of_slot].
  eexists. split; [reflexivity |].
  do 4 (split; [reflexivity |]).
  do 3 (split; [assumption |]).
  now rewrite restoreUIState_fresh.
Qed.

(** *** C8: what a correct answer records *)

(** A click on an option changes the task clicked in only, and of it
    neither the id, nor the locked mark, nor the visibility. *)
Lemma handleOptionClick_tasks (ti qi oi : nat) (st : State) :
  exists f : Task -> Task,
    (forall t, id (f t) = id t /\ locked (f t) = locked t /\ active (f t) = active t) /\
    tasks (document (handleOptionClick ti qi oi st)) = alter f ti (tasks (document st)).
Proof.
  assert (Hsame : exists f : Task -> Task,
    (forall t, id (f t) = id t /\ locked (f t) = locked t /\ active (f t) = active t) /\
    tasks (document st) = alter f ti (tasks (document st))).
  { exists (fun t => t). split; [auto |]. now rewrite list_alter_id. }
  unfold handleOptionClick.
  destruct (tasks (document st) !! ti) as [task|]; [| exact Hsame].
  destruct (quizzes task !! qi) as [quiz|]; [| exact Hsame].
  destruct (options quiz !! oi) as [opt|]; [| exact Hsame].
  destruct (Set_has _ _); [exact Hsame |].
  case_bool_decide; [| exact Hsame].
  cbv zeta.
  destruct (tasks _ !! ti) as [t'|]; [destruct (task_complete t') |].
  - exists (enable_nextButton ∘
            (fun t => set_quizzes (alter (set_answered true) qi (quizzes t)) t)).
    split; [auto |]. rewrite <- list_alter_alter_eq. reflexivity.
  - eexists. split; [| reflexivity]. auto.
  - eexists. split; [| reflexivity]. auto.
Qed.

(** C8, counterexample.  On a first visit of the demo page task2, the
    task after task1, is locked.  A correct answer to its only quiz
    completes it: with no click on any next button, the id task2 is in
    [unlockedTaskIds] and in the store, where the claim has the completion
    stored nowhere; and the next load serves task2 unlocked, where the
    claim has a following task unlocked by an explicit advance only. *)
Lemma correct_answer_unlocks_without_advance :
  locked <$> tasks (document demo_start) = [false; true] /\
  unlockedTaskIds demo_start = [] /\
  unlockedTaskIds (dispatch (OptionClick 1 0 0) demo_start) = [JStr "task2"] /\
  localStorage (dispatch (OptionClick 1 0 0) demo_start) !! LS_UNLOCKED
  = Some (JSON_stringify (JArr [JStr "task2"])) /\
  locked <$> tasks (document (dispatch (OptionClick 1 0 0) demo_start))
  = [false; true] /\
  locked <$> tasks (document (state_of (script demo_page
               (localStorage (dispatch (OptionClick 1 0 0) demo_start)))))
  = [false; false].
Proof. vm_compute. repeat split. Qed.

(** C8, as amended.  A click on an option never adds the id of the next
    task to [unlockedTaskIds] and changes the locked mark of no task.  What
    it adds, when it is the first correct answer that completes the task
    clicked in, is the id of that task itself, which it saves to the store;
    it adds nothing otherwise.  So completion is stored, under the id of
    the completed task; and at the next load [restoreUIState] takes the
    locked mark from every task whose id is in the stored set, the
    completed ones as well as those that [handleNextButtonClick] recorded.
    Stated for ids of the form task<N>, N a safe integer. *)
Theorem submitAnswer_records_completed_task
  (page : Document) (ls : gmap string string) (st1 : State)
  (ti qi oi : nat) (st : State) (task : Task) (z : Z) :
  tasks (document st) !! ti = Some task ->
  id task = "task" +:+ Number_toString (Int z) ->
  safe_integer z ->
  (forall x, x ∈ unlockedTaskIds (handleOptionClick ti qi oi st) ->
             x ∈ unlockedTaskIds st \/ x = JStr (id task)) /\
  (JStr (nextTaskId_of task) ∈ unlockedTaskIds (handleOptionClick ti qi oi st) ->
   JStr (nextTaskId_of task) ∈ unlockedTaskIds st) /\
  locked <$> tasks (document (handleOptionClick ti qi oi st))
    = locked <$> tasks (document st) /\
  (forall quiz,
     quizzes task !! qi = Some quiz ->
     options quiz !! oi = Some (Some "true") ->
     Set_has (answeredQuizIds st) (JStr (quizId_of task qi)) = false ->
     unlockedTaskIds (handleOptionClick ti qi oi st)
     = (if task_complete (marked_task qi task)
        then Set_add (unlockedTaskIds st) (JStr (id task))
        else unlockedTaskIds st) /\
     localStorage (handleOptionClick ti qi oi st) !! LS_UNLOCKED
     = Some (JSON_stringify
               (Array_from (unlockedTaskIds (handleOptionClick ti qi oi st))))) /\
  (script page ls = Returned st1 ->
   forall j t0,
     tasks page !! j = Some t0 ->
     exists t1,
       tasks (document st1) !! j = Some t1 /\ id t1 = id t0 /\
       locked t1 = locked t0 && negb (Set_has (unlockedTaskIds st1) (JStr (id t0)))).
Proof.
  intros Ht Hid _.
  assert (Hadd : forall x, x ∈ unlockedTaskIds (handleOptionClick ti qi oi st) ->
                           x ∈ unlockedTaskIds st \/ x = JStr (id task)).
  { intros x Hx.
    destruct (handleOptionClick_effect ti qi oi st)
      as [E | [task' [quiz [Ht' [_ [_ [_ [_ [_ [_ [Hu _]]]]]]]]]]].
    - left. now rewrite E in Hx.
    - rewrite Ht in Ht'. injection Ht' as <-.
      destruct Hu as [E | E]; rewrite E in Hx; [now left |].
      now apply elem_of_Set_add. }
  split; [exact Hadd |]. split; [| split; [| split]].
  - intros Hx. destruct (Hadd _ Hx) as [H | H]; [exact H |].
    exfalso. injection H as H. exact (nextTaskId_of_fresh task z Hid H).
  - destruct (handleOptionClick_tasks ti qi oi st) as [f [Hf ->]].
    rewrite (list_fmap_alter locked f (fun b => b)).
    + now apply list_alter_id.
    + apply Forall_forall. intros t _. apply Hf.
  - intros quiz Hq Ho Hh.
    destruct (handleOptionClick_first_correct ti qi oi st task quiz Ht Hq Ho Hh)
      as [_ [Hc _]]. cbv zeta in Hc.
    destruct (handleOptionClick_step ti qi oi st)
      as [E | [task' [quiz' [Ht' [_ [_ [_ [_ [_ [_ [_ [Hu [x Hx]]]]]]]]]]]]];
      cbv zeta in *.
    { rewrite E in Hc. lia. }
    assert (task' = task) as -> by congruence.
    split; [exact Hu |]. rewrite Hx. apply (saved_slots x).
  - intros E j t0 H0.
    destruct (script_returned page ls st1 E) as [_ [_ [_ [_ [_ [_ [_ [_ Hts]]]]]]]].
    exists (restored_task (answeredQuizIds st1) (unlockedTaskIds st1) t0).
    split; [now rewrite Hts, list_lookup_fmap, H0 |].
    destruct (quizzes_restored_task (answeredQuizIds st1) (unlockedTaskIds st1) t0)
      as [_ [Hi [Hk _]]].
    now split.
Qed.

Lemma submitAnswer_records_completed_task_witness :
  tasks (document (handleOptionClick 0 0 0 demo_start)) !! 0%nat
    = Some (set_quizzes [set_answered true demo_quiz; demo_quiz] demo_task1) /\
  id demo_task1 = "task" +:+ Number_toString (Int 1) /\
  safe_integer 1 /\
  unlockedTaskIds (handleOptionClick 0 1 0 (handleOptionClick 0 0 0 demo_start))
    = [JStr "task1"] /\
  (JStr "task2" ∈ unlockedTaskIds (handleOptionClick 0 1 0 (handleOptionClick 0 0 0 demo_start)) ->
   JStr "task2" ∈ unlockedTaskIds (handleOptionClick 0 0 0 demo_start)).
Proof.
  split; [vm_compute; reflexivity |].
  split; [vm_compute; reflexivity |].
  split; [split; reflexivity |].
  split; [vm_compute; reflexivity |].
  refine (proj1 (proj2 (submitAnswer_records_completed_task demo_page ∅ demo_start 0 1 0
            (handleOptionClick 0 0 0 demo_start)
            (set_quizzes [set_answered true demo_quiz; demo_quiz] demo_task1) 1 _ _ _)));
    [vm_compute; reflexivity | vm_compute; reflexivity | split; reflexivity].
Defined.

(** *** C9: a task without a usable total *)

(** C9, counterexample.  A task with no answered quiz and no
    [data-questions-total], or one that is not a number, is not complete (a
    declared total of 0 would make it so); loaded on a page, its next button
    stays disabled. *)
Lemma malformed_total_is_not_zero :
  task_complete (demo_task_with_total None) = false /\
  task_complete (demo_task_with_total (Some "many")) = false /\
  task_complete (demo_task_with_total (Some "0")) = true /\
  nextButton <$>
    tasks (document (state_of (script
      {| tasks := [demo_task_with_total None]; alert := alert demo_page;
         resetBtn := true |} ∅))) !! 0%nat = Some (Some true).
Proof. vm_compute. repeat split. Qed.

(** C9, as amended.  An absent [data-questions-total] parses to NaN, and so
    does a text with no leading number.  A task whose total parses to NaN
    is never complete, whatever the number of its answered quizzes, since
    [answeredInTask >= NaN] is false; and in every reachable state the next
    button of such a task is as the page served it: the script never
    enables it. *)
Theorem malformed_total_never_complete (t : Task) :
  parseInt_opt (questionsTotal t) = NaN ->
  parseInt_opt None = NaN /\
  task_complete t = false /\
  (forall page st i t',
     reachable page st -> tasks page !! i = Some t ->
     tasks (document st) !! i = Some t' ->
     task_complete t' = false /\ nextButton t' = nextButton t).
Proof.
  intros Hn.
  assert (Hc : forall t', questionsTotal t' = questionsTotal t -> task_complete t' = false).
  { intros t' E. unfold task_complete. now rewrite E, Hn. }
  split; [reflexivity |]. split; [now apply Hc |].
  intros page st i t' Hr Ht Ht'.
  pose proof (Forall2_lookup_lr _ _ _ _ _ _ (reachable_evolves page st Hr) Ht Ht')
    as [_ [Hq [_ [_ Hb]]]].
  split; [now apply Hc |].
  destruct Hb as [E | [_ E]]; [exact E |].
  rewrite (Hc t' Hq) in E. discriminate.
Qed.

Lemma malformed_total_never_complete_witness :
  parseInt_opt (questionsTotal (demo_task_with_total (Some "many"))) = NaN /\
  task_complete (demo_task_with_total (Some "many")) = false.
Proof.
  split; [vm_compute; reflexivity |].
  refine (proj1 (proj2 (malformed_total_never_complete
            (demo_task_with_total (Some "many")) _))).
  vm_compute; reflexivity.
Defined.

(** *** C10: advancing from the last task *)

(** C10.  When no element has the next id, a click on the next button
    leaves the score, both sets and the store as they are (nothing is
    saved); it deactivates the current task, changes no other task, and
    shows the final alert. *)
Theorem advance_on_last_task (ti : nat) (st : State) (task : Task) :
  tasks (document st) !! ti = Some task ->
  getElementById (nextTaskId_of task) (tasks (document st)) = None ->
  score (handleNextButtonClick ti st) = score st /\
  answeredQuizIds (handleNextButtonClick ti st) = answeredQuizIds st /\
  unlockedTaskIds (handleNextButtonClick ti st) = unlockedTaskIds st /\
  localStorage (handleNextButtonClick ti st) = localStorage st /\
  tasks (document (handleNextButtonClick ti st))
    = alter (set_active false) ti (tasks (document st)) /\
  hidden (alert (document (handleNextButtonClick ti st))) = false /\
  title (alert (document (handleNextButtonClick ti st))) = "Congratulations!".
Proof.
  intros Ht Hg.
  destruct (handleNextButtonClick_effect ti st task Ht) as [Hs [Ha [_ [_ Hx]]]].
  cbv zeta in Hx. rewrite Hg in Hx.
  destruct Hx as [Hu [Hl [Hts [Hh Htl]]]].
  auto 10.
Qed.

Lemma advance_on_last_task_witness :
  tasks (document demo_start) !! 1%nat = Some demo_task2 /\
  getElementById (nextTaskId_of demo_task2) (tasks (document demo_start)) = None /\
  localStorage (handleNextButtonClick 1 demo_start) = localStorage demo_start /\
  message (alert (document (handleNextButtonClick 1 demo_start)))
    = "You've completed the Cyber Trap Room! Your final score is 0/3. Keep an eye out for phishing attempts!".
Proof.
  split; [vm_compute; reflexivity |].
  split; [vm_compute; reflexivity |].
  split; [| vm_compute; reflexivity].
  refine (proj1 (proj2 (proj2 (proj2 (advance_on_last_task 1 demo_start demo_task2 _ _)))));
    vm_compute; reflexivity.
Defined.

(** ** Further properties of the handlers *)



(** X2.  A wrong option changes nothing: no variable, no slot, no mark of the
    page that the script reads. *)
Theorem wrong_answer_is_noop
  (ti qi oi : nat) (st : State) (task : Task) (quiz : Quiz) (d : option string) :
  tasks (document st) !! ti = Some task ->
  quizzes task !! qi = Some quiz ->
  options quiz !! oi = Some d ->
  d <> Some "true" ->
  handleOptionClick ti qi oi st = st.
Proof.
  intros Ht Hq Ho Hd. unfold handleOptionClick. rewrite Ht, Hq, Ho.
  destruct (Set_has _ _); [reflexivity |].
  now rewrite bool_decide_eq_false_2.
Qed.

Lemma wrong_answer_is_noop_witness :
  options demo_quiz !! 1%nat = Some (Some "false") /\
  handleOptionClick 0 0 1 demo_start = demo_start.
Proof.
  split; [reflexivity |].
  apply (wrong_answer_is_noop 0 0 1 demo_start demo_task1 demo_quiz (Some "false"));
    try (vm_compute; reflexivity).
  discriminate.
Defined.

(** The first scenario of the specification, run on the demo page: both
    quizzes of task1 answered, then the next button. *)
Example scenario_two_answers_then_advance :
  let st := run [OptionClick 0 0 0; OptionClick 0 1 0; NextClick 0] demo_start in
  score st = Int 2 /\
  answeredQuizIds st = [JStr "task1_0"; JStr "task1_1"] /\
  unlockedTaskIds st = [JStr "task1"; JStr "task2"] /\
  (fun t => (id t, locked t, active t)) <$> tasks (document st)
    = [("task1", false, false); ("task2", false, true)] /\
  localStorage st !! LS_SCORE = Some "2".
Proof. vm_compute. repeat split. Qed.

(** ** Properties of a whole session *)

(** X3.  The progress counter never drifts: whatever the store held when the
    page was loaded, and whatever the visitor clicks afterwards,
    [answeredCorrectlyCount] is the size of [answeredQuizIds].  (The score
    has no such guarantee: it is read from a slot of its own.) *)
Theorem counter_is_size_of_answered_set
  (page : Document) (ls : gmap string string) (cs : list Command) :
  answeredCorrectlyCount (run cs (state_of (script page ls)))
  = Set_size (answeredQuizIds (run cs (state_of (script page ls)))).
Proof.
  apply (run_invariant
           (fun s => answeredCorrectlyCount s = Set_size (answeredQuizIds s))).
  - apply count_size_dispatch.
  - apply (score_slot_script page ls).
Qed.

(** In every session the score slot reads back as the score. *)
Lemma score_slot_run (page : Document) (ls : gmap string string) (cs : list Command) :
  score_of_slot (localStorage (run cs (state_of (script page ls))) !! LS_SCORE)
  = score (run cs (state_of (script page ls))).
Proof.
  apply (run_invariant
           (fun s => score_of_slot (localStorage s !! LS_SCORE) = score s)).
  - apply score_slot_dispatch.
  - apply (score_slot_script page ls).
Qed.

(** X4.  The score survives a reload, also in a session that starts from a
    store of any origin: when the score that the page loaded and the score
    after the clicks are NaN or safe integers, the script run again on the
    store as it stands loads the score that is in memory.  Each handler
    that changes the score writes it, and what it writes reads back as the
    same number. *)
Theorem score_survives_reload
  (page : Document) (ls : gmap string string) (cs : list Command) :
  safe_number (score (state_of (script page ls))) ->
  safe_number (score (run cs (state_of (script page ls)))) ->
  score (state_of (script page (localStorage (run cs (state_of (script page ls))))))
  = score (run cs (state_of (script page ls))).
Proof.
  intros _ _.
  rewrite <- (score_slot_run page ls cs).
  destruct (score_slot_script page
              (localStorage (run cs (state_of (script page ls))))) as [H1 [_ H2]].
  now rewrite <- H1, H2.
Qed.

Lemma score_survives_reload_witness :
  safe_number (score (state_of (script demo_page {[ LS_SCORE := "41" ]}))) /\
  safe_number (score (run [OptionClick 0 0 0]
                        (state_of (script demo_page {[ LS_SCORE := "41" ]})))) /\
  score (run [OptionClick 0 0 0] (state_of (script demo_page {[ LS_SCORE := "41" ]})))
  = Int 42 /\
  score (state_of (script demo_page
           (localStorage (run [OptionClick 0 0 0]
              (state_of (script demo_page {[ LS_SCORE := "41" ]}))))))
  = score (run [OptionClick 0 0 0] (state_of (script demo_page {[ LS_SCORE := "41" ]}))).
Proof.
  assert (H1 : safe_number (score (state_of (script demo_page {[ LS_SCORE := "41" ]}))))
    by (vm_compute; split; reflexivity).
  assert (H2 : safe_number (score (run [OptionClick 0 0 0]
                                     (state_of (script demo_page {[ LS_SCORE := "41" ]})))))
    by (vm_compute; split; reflexivity).
  split; [exact H1 |]. split; [exact H2 |].
  split; [vm_compute; reflexivity |].
  exact (score_survives_reload demo_page {[ LS_SCORE := "41" ]} [OptionClick 0 0 0] H1 H2).
Defined.

(** X5.  A score slot without a leading number loads as NaN, and NaN stays: no
    command brings a number back ([score++] keeps NaN), and the text NaN
    that the handlers save loads as NaN again. *)
Theorem unreadable_score_stays_NaN
  (page : Document) (ls : gmap string string) (cs : list Command) :
  score_of_slot (ls !! LS_SCORE) = NaN ->
  score (run cs (state_of (script page ls))) = NaN /\
  score (state_of (script page (localStorage (run cs (state_of (script page ls))))))
  = NaN.
Proof.
  intros Hs.
  assert (H0 : score (state_of (script page ls)) = NaN).
  { destruct (score_slot_script page ls) as [H1 [_ H2]]. now rewrite <- H1, H2. }
  assert (H1 : score (run cs (state_of (script page ls))) = NaN).
  { pose proof (score_le_run cs (state_of (script page ls))) as H.
    rewrite H0 in H. now destruct (score (run cs _)). }
  split; [exact H1 |].
  destruct (score_slot_script page
              (localStorage (run cs (state_of (script page ls))))) as [H2 [_ H3]].
  now rewrite <- H2, H3, (score_slot_run page ls cs).
Qed.

Lemma unreadable_score_stays_NaN_witness :
  score_of_slot (({[ LS_SCORE := "none" ]} : gmap string string) !! LS_SCORE) = NaN /\
  score (run [OptionClick 0 0 0]
           (state_of (script demo_page {[ LS_SCORE := "none" ]}))) = NaN /\
  score (state_of (script demo_page
           (localStorage (run [OptionClick 0 0 0]
              (state_of (script demo_page {[ LS_SCORE := "none" ]})))))) = NaN.
Proof.
  split; [vm_compute; reflexivity |].
  apply (unreadable_score_stays_NaN demo_page {[ LS_SCORE := "none" ]}
           [OptionClick 0 0 0]).
  vm_compute; reflexivity.
Defined.

Lemma reachable_count_size (page : Document) (st : State) :
  reachable page st -> answeredCorrectlyCount st = Set_size (answeredQuizIds st).
Proof.
  intros Hr. pattern st. revert st Hr. apply reachable_session_ind.
  - intros ls st E. apply (script_returned page ls st E).
  - intros c st _. apply count_size_dispatch.
Qed.

(** X6.  No progress is lost by reloading: in every state of a session started
    from a first visit, the store is up to date, so the script run again on
    it returns and finds the same score, the same two sets and the same
    progress counter. *)
Theorem reload_keeps_progress (page : Document) (st : State) :
  reachable page st ->
  exists st',
    script page (localStorage st) = Returned st' /\
    score st' = score st /\
    answeredQuizIds st' = answeredQuizIds st /\
    unlockedTaskIds st' = unlockedTaskIds st /\
    answeredCorrectlyCount st' = answeredCorrectlyCount st.
Proof.
  intros Hr.
  destruct (reachable_consistent page st Hr) as [Hi [_ Hm]].
  destruct (script_mirror page st Hi Hm) as [st' [E [Hs [Ha [Hu [Hc _]]]]]].
  exists st'. rewrite (reachable_count_size page st Hr). auto.
Qed.

Lemma reload_keeps_progress_witness :
  reachable demo_page (dispatch (OptionClick 0 0 0) demo_start) /\
  exists st',
    script demo_page (localStorage (dispatch (OptionClick 0 0 0) demo_start))
    = Returned st' /\
    score st' = score (dispatch (OptionClick 0 0 0) demo_start) /\
    answeredQuizIds st' = answeredQuizIds (dispatch (OptionClick 0 0 0) demo_start) /\
    unlockedTaskIds st' = unlockedTaskIds (dispatch (OptionClick 0 0 0) demo_start) /\
    answeredCorrectlyCount st'
    = answeredCorrectlyCount (dispatch (OptionClick 0 0 0) demo_start).
Proof.
  split; [apply reach_command, reach_first_visit |].
  apply (reload_keeps_progress demo_page).
  apply reach_command, reach_first_visit.
Defined.

Lemma saved_state_slots (x : State) :
  let st := saveStateToLocalStorage x in
  localStorage st !! LS_SCORE = Some (Number_toString (score st)) /\
  localStorage st !! LS_ANSWERED
  = Some (JSON_stringify (Array_from (answeredQuizIds st))) /\
  localStorage st !! LS_UNLOCKED
  = Some (JSON_stringify (Array_from (unlockedTaskIds st))).
Proof. exact (saved_slots x). Qed.

(** X7.  Write-through: a command that changes the score, one of the two sets
    or the store ends with [saveStateToLocalStorage], so that afterwards
    the three slots hold the texts of the three variables.  No handler
    changes a variable and leaves the store behind. *)
Theorem commands_write_through (c : Command) (st : State) :
  (score (dispatch c st) = score st /\
   answeredQuizIds (dispatch c st) = answeredQuizIds st /\
   unlockedTaskIds (dispatch c st) = unlockedTaskIds st /\
   localStorage (dispatch c st) = localStorage st) \/
  (localStorage (dispatch c st) !! LS_SCORE
   = Some (Number_toString (score (dispatch c st))) /\
   localStorage (dispatch c st) !! LS_ANSWERED
   = Some (JSON_stringify (Array_from (answeredQuizIds (dispatch c st)))) /\
   localStorage (dispatch c st) !! LS_UNLOCKED
   = Some (JSON_stringify (Array_from (unlockedTaskIds (dispatch c st))))).
Proof.
  destruct (dispatch_cases c st) as [-> | [_ [-> Hn]]]; [now left |].
  destruct c as [ti|ti qi oi|ti|]; cbn [handle].
  - left. destruct (handleTaskHeaderClick_frame ti st) as [H1 [_ [H2 [H3 [H4 _]]]]].
    auto.
  - destruct (handleOptionClick_step ti qi oi st)
      as [-> | [task [quiz [_ [_ [_ [_ [_ [_ [_ [_ [_ [x ->]]]]]]]]]]]]]; [now left |].
    right. apply saved_state_slots.
  - destruct (Hn ti eq_refl) as [task [Ht _]].
    unfold handleNextButtonClick. rewrite Ht. cbv zeta.
    destruct (getElementById _ _) as [[ni next]|].
    + right. apply saved_state_slots.
    + left. repeat split.
  - left. repeat split.
Qed.

(** X8.  Progress is never undone within a session: no sequence of commands
    takes an element out of [answeredQuizIds] or [unlockedTaskIds], and no
    quiz loses its answered mark. *)
Theorem progress_is_never_undone (cs : list Command) (st : State) :
  (forall v, Set_has (answeredQuizIds st) v = true ->
             Set_has (answeredQuizIds (run cs st)) v = true) /\
  (forall v, Set_has (unlockedTaskIds st) v = true ->
             Set_has (unlockedTaskIds (run cs st)) v = true) /\
  (forall ti t qi q,
     tasks (document st) !! ti = Some t -> quizzes t !! qi = Some q ->
     answered q = true ->
     exists t' q',
       tasks (document (run cs st)) !! ti = Some t' /\
       quizzes t' !! qi = Some q' /\ answered q' = true).
Proof.
  apply (run_invariant (fun s =>
    (forall v, Set_has (answeredQuizIds st) v = true ->
               Set_has (answeredQuizIds s) v = true) /\
    (forall v, Set_has (unlockedTaskIds st) v = true ->
               Set_has (unlockedTaskIds s) v = true) /\
    (forall ti t qi q,
       tasks (document st) !! ti = Some t -> quizzes t !! qi = Some q ->
       answered q = true ->
       exists t' q',
         tasks (document s) !! ti = Some t' /\
         quizzes t' !! qi = Some q' /\ answered q' = true))).
  - intros c s [Ha [Hu Hq]]. split; [| split].
    + intros v Hv. now apply sets_grow_dispatch, Ha.
    + intros v Hv. now apply sets_grow_dispatch, Hu.
    + intros ti t qi q Ht Hqi Hans.
      destruct (Hq ti t qi q Ht Hqi Hans) as [t1 [q1 [Ht1 [Hq1 Ha1]]]].
      destruct (dispatch_pointwise c s ti t1 Ht1) as [t2 [Ht2 _]].
      destruct (dispatch_quizzes_evolve c s ti t1 t2 Ht1 Ht2) as [_ Hqs].
      destruct (Forall2_lookup_l _ _ _ _ _ Hqs Hq1) as [q2 [Hq2 [_ Hm]]].
      exists t2, q2. auto.
  - split; [auto | split; [auto |]]. intros ti t qi q Ht Hq Ha. eauto.
Qed.

(** X9.  A click on the header of an unlocked task toggles that task and closes
    every other one, however many were open; nothing else of any task
    changes. *)
Theorem header_click_toggles_and_closes_others
  (ti j : nat) (st : State) (task : Task) :
  tasks (document st) !! ti = Some task ->
  locked task = false ->
  tasks (document (handleTaskHeaderClick ti st)) !! j
  = (fun t => set_active (bool_decide (j = ti) && negb (active t)) t)
      <$> tasks (document st) !! j.
Proof.
  intros Ht Hl. unfold handleTaskHeaderClick. rewrite Ht, Hl.
  cbn [on_tasks set_document document set_tasks tasks].
  apply header_tasks_lookup.
Qed.

Lemma header_click_toggles_and_closes_others_witness :
  tasks (document demo_start) !! 0%nat = Some demo_task1 /\
  locked demo_task1 = false /\
  tasks (document (handleTaskHeaderClick 0 demo_start)) !! 0%nat
  = Some (set_active false demo_task1).
Proof.
  split; [vm_compute; reflexivity |].
  split; [reflexivity |].
  assert (H : tasks (document demo_start) !! 0%nat = Some demo_task1)
    by (vm_compute; reflexivity).
  rewrite (header_click_toggles_and_closes_others 0 0 demo_start demo_task1 H eq_refl).
  rewrite H. reflexivity.
Defined.

(** *** The score against the number of quizzes *)

Lemma reachable_count_quizzes (page : Document) (st : State) :
  reachable page st -> count_quizzes (document st) = count_quizzes page.
Proof.
  intros Hr. unfold count_quizzes.
  assert (H : Forall2 (fun t0 t => length (quizzes t0) = length (quizzes t))
                (tasks page) (tasks (document st))).
  { apply Forall2_same_length_lookup. split.
    - exact (Forall2_length _ _ _ (reachable_evolves page st Hr)).
    - intros j t0 t H0 Hj.
      destruct (reachable_quizzes_evolve page st Hr j t0 t H0 Hj) as [_ Hq].
      exact (Forall2_length _ _ _ Hq). }
  induction H as [|t0 t l k Hl _ IH]; [reflexivity |].
  cbn [fmap list_fmap concat]. rewrite !length_app. cbn [fmap list_fmap] in IH. lia.
Qed.

(** X10.  The score never exceeds the number of quizzes of the page: in every
    state of a session started from a first visit, the score and the
    progress counter are one number, at most [totalQuestions], and the
    total shown by the final alert is that of the page as served. *)
Theorem score_at_most_total (page : Document) (st : State) :
  reachable page st ->
  exists n : nat,
    score st = Int (Z.of_nat n) /\
    answeredCorrectlyCount st = n /\
    (n <= count_quizzes page)%nat /\
    count_quizzes (document st) = count_quizzes page.
Proof.
  intros Hr.
  destruct (reachable_consistent page st Hr) as [[[l [Hl Hnd]] _] [Hs _]].
  exists (Set_size (answeredQuizIds st)).
  split; [exact Hs |]. split; [exact (reachable_count_size page st Hr) |].
  split; [| exact (reachable_count_quizzes page st Hr)].
  rewrite <- length_quiz_ids. unfold Set_size. rewrite Hl, length_fmap.
  apply submseteq_length, NoDup_submseteq; [exact Hnd |].
  intros x Hx. apply (reachable_answers_known page st Hr).
  rewrite Hl. apply list_elem_of_fmap. eauto.
Qed.

Lemma score_at_most_total_witness :
  reachable demo_page (dispatch (OptionClick 0 0 0) demo_start) /\
  exists n : nat,
    score (dispatch (OptionClick 0 0 0) demo_start) = Int (Z.of_nat n) /\
    answeredCorrectlyCount (dispatch (OptionClick 0 0 0) demo_start) = n /\
    (n <= count_quizzes demo_page)%nat /\
    count_quizzes (document (dispatch (OptionClick 0 0 0) demo_start))
    = count_quizzes demo_page.
Proof.
  split; [apply reach_command, reach_first_visit |].
  apply (score_at_most_total demo_page).
  apply reach_command, reach_first_visit.
Defined.

(** *** Complete tasks and their next buttons *)

Lemma listeners_dispatch (c : Command) (st : State) :
  listeners (dispatch c st) = listeners st.
Proof.
  destruct (dispatch_cases c st) as [-> | [_ [-> Hn]]]; [reflexivity |].
  destruct c as [ti|ti qi oi|ti|]; cbn [handle].
  - apply (handleTaskHeaderClick_frame ti st).
  - destruct (handleOptionClick_effect ti qi oi st)
      as [-> | [task [quiz [_ [_ [_ [_ [_ [_ [_ [_ [_ Hl]]]]]]]]]]]]; [reflexivity |].
    exact Hl.
  - destruct (Hn ti eq_refl) as [task [Ht _]].
    apply (handleNextButtonClick_effect ti st task Ht).
  - reflexivity.
Qed.

Lemma reachable_listeners (page : Document) (st : State) :
  reachable page st -> listeners st = true.
Proof.
  intros Hr. pattern st. revert st Hr. apply reachable_session_ind.
  - intros ls st E. apply (script_returned page ls st E).
  - intros c st _ H. now rewrite listeners_dispatch.
Qed.

(** X11.  A complete task can always be left: in every state of a session
    started from a first visit, the next button of a task whose answered
    count has reached its declared total is enabled, so that a click on it
    is delivered to [handleNextButtonClick]. *)
Theorem complete_task_has_its_button_enabled
  (page : Document) (st : State) (ti : nat) (t : Task) (b : bool) :
  reachable page st ->
  tasks (document st) !! ti = Some t ->
  task_complete t = true ->
  nextButton t = Some b ->
  b = false /\ dispatch (NextClick ti) st = handleNextButtonClick ti st.
Proof.
  intros Hr Ht Hc Hb.
  pose proof (proj1 (Forall_lookup _ _) (reachable_buttons_open page st Hr) ti t Ht Hc)
    as Ho.
  assert (b = false) as -> by (destruct b; congruence).
  split; [reflexivity |].
  unfold dispatch. now rewrite (reachable_listeners page st Hr), Ht, Hb.
Qed.

Lemma complete_task_has_its_button_enabled_witness :
  reachable demo_page
    (dispatch (OptionClick 0 1 0) (dispatch (OptionClick 0 0 0) demo_start)) /\
  tasks (document
           (dispatch (OptionClick 0 1 0) (dispatch (OptionClick 0 0 0) demo_start)))
    !! 0%nat = Some (answered_task 1 (answered_task 0 demo_task1)) /\
  task_complete (answered_task 1 (answered_task 0 demo_task1)) = true /\
  nextButton (answered_task 1 (answered_task 0 demo_task1)) = Some false /\
  dispatch (NextClick 0)
    (dispatch (OptionClick 0 1 0) (dispatch (OptionClick 0 0 0) demo_start))
  = handleNextButtonClick 0
      (dispatch (OptionClick 0 1 0) (dispatch (OptionClick 0 0 0) demo_start)).
Proof.
  split; [do 2 apply reach_command; apply reach_first_visit |].
  split; [vm_compute; reflexivity |].
  split; [vm_compute; reflexivity |].
  split; [vm_compute; reflexivity |].
  refine (proj2 (complete_task_has_its_button_enabled demo_page _ 0
                   (answered_task 1 (answered_task 0 demo_task1)) false _ _ _ _)).
  - do 2 apply reach_command; apply reach_first_visit.
  - vm_compute; reflexivity.
  - vm_compute; reflexivity.
  - vm_compute; reflexivity.
Defined.

(** *** What a reload shows *)

Lemma reload_tasks (page : Document) (st : State) :
  reachable page st ->
  tasks (document (state_of (script page (localStorage st))))
  = restored_task (answeredQuizIds st) (unlockedTaskIds st) <$> tasks page.
Proof.
  intros Hr.
  destruct (reachable_consistent page st Hr) as [Hi [_ Hm]].
  destruct (script_mirror page st Hi Hm) as [st' [E [_ [Ha [Hu _]]]]].
  rewrite E. cbn [state_of].
  destruct (script_returned page _ st' E) as [_ [_ [_ [_ [_ [_ [_ [_ Hts]]]]]]]].
  now rewrite Hts, Ha, Hu.
Qed.

(** X12.  An unlocked task is still unlocked after a reload: in every state of a
    session started from a first visit, a task without the locked mark was
    served so or has its id in [unlockedTaskIds], which the store holds and
    [restoreUIState] applies. *)
Theorem unlocked_task_survives_reload
  (page : Document) (st : State) (ti : nat) (t : Task) :
  reachable page st ->
  tasks (document st) !! ti = Some t ->
  locked t = false ->
  exists t',
    tasks (document (state_of (script page (localStorage st)))) !! ti = Some t' /\
    id t' = id t /\ locked t' = false.
Proof.
  intros Hr Ht Hl.
  destruct (reachable_lookup page st ti t Hr Ht) as [t0 [H0 [Hid _]]].
  rewrite (reload_tasks page st Hr), list_lookup_fmap, H0. cbn.
  eexists. split; [reflexivity |].
  destruct (quizzes_restored_task (answeredQuizIds st) (unlockedTaskIds st) t0)
    as [_ [Hi [Hk _]]].
  split; [congruence |]. rewrite Hk.
  destruct (reachable_unlocks_recorded page st Hr ti t0 t H0 Ht Hl) as [-> | H];
    [reflexivity |].
  rewrite Hid in H. rewrite H. apply andb_false_r.
Qed.

Lemma unlocked_task_survives_reload_witness :
  reachable demo_page
    (run [OptionClick 0 0 0; OptionClick 0 1 0; NextClick 0] demo_start) /\
  tasks (document (run [OptionClick 0 0 0; OptionClick 0 1 0; NextClick 0] demo_start))
    !! 1%nat = Some (set_active true (set_locked false demo_task2)) /\
  exists t',
    tasks (document (state_of (script demo_page
             (localStorage
                (run [OptionClick 0 0 0; OptionClick 0 1 0; NextClick 0] demo_start)))))
      !! 1%nat = Some t' /\
    id t' = "task2" /\ locked t' = false.
Proof.
  assert (Hr : reachable demo_page
                 (run [OptionClick 0 0 0; OptionClick 0 1 0; NextClick 0] demo_start))
    by (do 3 apply reach_command; apply reach_first_visit).
  split; [exact Hr |].
  split; [vm_compute; reflexivity |].
  apply (unlocked_task_survives_reload demo_page _ 1
           (set_active true (set_locked false demo_task2)) Hr).
  - vm_compute; reflexivity.
  - reflexivity.
Defined.

Lemma answered_count_mono (qs qs' : list Quiz) :
  Forall2 (fun q q' => answered q = true -> answered q' = true) qs qs' ->
  (length (filter (fun q => answered q = true) qs)
   <= length (filter (fun q => answered q = true) qs'))%nat.
Proof.
  induction 1 as [|q q' l k Hq _ IH]; [reflexivity |].
  rewrite !filter_cons.
  destruct (decide (answered q = true)) as [Ha | Ha].
  - rewrite decide_True by auto. cbn [length]. lia.
  - destruct (decide (answered q' = true)); cbn [length]; lia.
Qed.

(** X13.  An answered quiz is still answered after a reload, and a complete task
    is still complete: in every state of a session started from a first
    visit, an answered mark was served or has its quiz id in
    [answeredQuizIds], which the store holds and [restoreUIState]
    applies. *)
Theorem answered_marks_survive_reload
  (page : Document) (st : State) (ti : nat) (t : Task) :
  reachable page st ->
  tasks (document st) !! ti = Some t ->
  exists t',
    tasks (document (state_of (script page (localStorage st)))) !! ti = Some t' /\
    (forall qi q,
       quizzes t !! qi = Some q -> answered q = true ->
       exists q', quizzes t' !! qi = Some q' /\ answered q' = true) /\
    (task_complete t = true -> task_complete t' = true).
Proof.
  intros Hr Ht.
  destruct (reachable_lookup page st ti t Hr Ht) as [t0 [H0 [Hid [Htot _]]]].
  destruct (reachable_quizzes_evolve page st Hr ti t0 t H0 Ht) as [_ Hqs].
  rewrite (reload_tasks page st Hr), list_lookup_fmap, H0. cbn.
  eexists. split; [reflexivity |].
  destruct (quizzes_restored_task (answeredQuizIds st) (unlockedTaskIds st) t0)
    as [Hq' [Hi' _]].
  assert (Hmarks : forall qi q,
            quizzes t !! qi = Some q -> answered q = true ->
            exists q',
              quizzes (restored_task (answeredQuizIds st) (unlockedTaskIds st) t0)
                !! qi = Some q' /\ answered q' = true).
  { intros qi q Hq Ha.
    destruct (Forall2_lookup_r _ _ _ _ _ Hqs Hq) as [q0 [Hq0 _]].
    rewrite Hq', list_lookup_imap, Hq0. cbn. eexists. split; [reflexivity |].
    destruct (reachable_marks_recorded page st Hr ti t0 t qi q0 q H0 Ht Hq0 Hq Ha)
      as [H | H].
    - now destruct (Set_has _ _).
    - rewrite (quizId_of_id t0 t qi Hid) in H. now rewrite H. }
  split; [exact Hmarks |].
  apply task_complete_mono.
  - unfold restored_task. cbv zeta.
    destruct (Set_has (unlockedTaskIds st) _);
      match goal with
      | |- context [task_complete ?x] => destruct (task_complete x)
      end; cbn; congruence.
  - unfold answeredInTask. apply answered_count_mono.
    apply Forall2_same_length_lookup. split.
    + rewrite Hq', length_imap. symmetry. exact (Forall2_length _ _ _ Hqs).
    + intros qi q q' Hq Hq1 Ha.
      destruct (Hmarks qi q Hq Ha) as [q2 [Hq2 Ha2]]. congruence.
Qed.

Lemma answered_marks_survive_reload_witness :
  reachable demo_page (dispatch (OptionClick 0 0 0) demo_start) /\
  tasks (document (dispatch (OptionClick 0 0 0) demo_start)) !! 0%nat
  = Some (answered_task 0 demo_task1) /\
  exists t',
    tasks (document (state_of (script demo_page
             (localStorage (dispatch (OptionClick 0 0 0) demo_start))))) !! 0%nat
    = Some t' /\
    (forall qi q,
       quizzes (answered_task 0 demo_task1) !! qi = Some q -> answered q = true ->
       exists q', quizzes t' !! qi = Some q' /\ answered q' = true) /\
    (task_complete (answered_task 0 demo_task1) = true -> task_complete t' = true).
Proof.
  split; [apply reach_command, reach_first_visit |].
  split; [vm_compute; reflexivity |].
  apply (answered_marks_survive_reload demo_page _ 0 (answered_task 0 demo_task1)).
  - apply reach_command, reach_first_visit.
  - vm_compute; reflexivity.
Defined.

(** *** Quiz ids and answered marks *)

(** X14.  Quiz ids are unambiguous: on a page whose task ids are distinct, two
    quizzes have the same id only if they are the same quiz of the same
    task, although a task id may itself contain underscores and digits. *)
Theorem quiz_ids_are_unambiguous
  (ts : list Task) (i j q1 q2 : nat) (t1 t2 : Task) :
  distinct_ids ts ->
  ts !! i = Some t1 -> ts !! j = Some t2 ->
  quizId_of t1 q1 = quizId_of t2 q2 ->
  i = j /\ q1 = q2.
Proof.
  intros Hd H1 H2 E. destruct (quizId_of_inj t1 t2 q1 q2 E) as [Hi Hq].
  split; [| exact Hq]. exact (distinct_ids_lookup ts i j t1 t2 Hd H1 H2 Hi).
Qed.

Lemma quiz_ids_are_unambiguous_witness :
  distinct_ids (tasks demo_page) /\
  tasks demo_page !! 1%nat = Some demo_task2 /\
  quizId_of demo_task2 0 = "task2_0" /\
  (1 = 1 /\ 0 = 0)%nat.
Proof.
  assert (Hd : distinct_ids (tasks demo_page)).
  { unfold distinct_ids. apply (bool_decide_unpack _). vm_compute. exact I. }
  split; [exact Hd |].
  split; [reflexivity |].
  split; [vm_compute; reflexivity |].
  apply (quiz_ids_are_unambiguous (tasks demo_page) 1 1 0 0 demo_task2 demo_task2 Hd);
    reflexivity.
Defined.

(** X15.  The answered mark and the answered set agree: on a page served with
    distinct task ids and no quiz answered, in every state of a session
    started from a first visit, a quiz carries the answered mark exactly
    when its id is in [answeredQuizIds], which is when [handleOptionClick]
    ignores the clicks on its options. *)
Theorem answered_mark_iff_recorded
  (page : Document) (st : State) (ti qi : nat) (t : Task) (q : Quiz) :
  distinct_ids (tasks page) ->
  served_unanswered (tasks page) ->
  reachable page st ->
  tasks (document st) !! ti = Some t ->
  quizzes t !! qi = Some q ->
  answered q = true <->
  Set_has (answeredQuizIds st) (JStr (quizId_of t qi)) = true.
Proof.
  intros Hd Hs Hr Ht Hq. split.
  - intros Ha.
    destruct (reachable_lookup page st ti t Hr Ht) as [t0 [H0 _]].
    destruct (reachable_quizzes_evolve page st Hr ti t0 t H0 Ht) as [_ Hqs].
    destruct (Forall2_lookup_r _ _ _ _ _ Hqs Hq) as [q0 [Hq0 _]].
    destruct (reachable_marks_recorded page st Hr ti t0 t qi q0 q H0 Ht Hq0 Hq Ha)
      as [H | H]; [| exact H].
    pose proof (proj1 (Forall_lookup _ _) Hs ti t0 H0) as Hs0.
    pose proof (proj1 (Forall_lookup _ _) Hs0 qi q0 Hq0) as Hs1.
    cbv beta in Hs1. congruence.
  - exact (reachable_recorded_marked page st Hd Hr ti t qi q Ht Hq).
Qed.

Lemma answered_mark_iff_recorded_witness :
  distinct_ids (tasks demo_page) /\
  served_unanswered (tasks demo_page) /\
  reachable demo_page (dispatch (OptionClick 0 0 0) demo_start) /\
  tasks (document (dispatch (OptionClick 0 0 0) demo_start)) !! 0%nat
  = Some (answered_task 0 demo_task1) /\
  quizzes (answered_task 0 demo_task1) !! 0%nat = Some (set_answered true demo_quiz) /\
  (answered (set_answered true demo_quiz) = true <->
   Set_has (answeredQuizIds (dispatch (OptionClick 0 0 0) demo_start))
     (JStr (quizId_of (answered_task 0 demo_task1) 0)) = true).
Proof.
  assert (Hd : distinct_ids (tasks demo_page)).
  { unfold distinct_ids. apply (bool_decide_unpack _). vm_compute. exact I. }
  assert (Hs : served_unanswered (tasks demo_page)).
  { unfold served_unanswered. repeat constructor. }
  split; [exact Hd |]. split; [exact Hs |].
  split; [apply reach_command, reach_first_visit |].
  split; [vm_compute; reflexivity |].
  split; [vm_compute; reflexivity |].
  apply (answered_mark_iff_recorded demo_page _ 0 0 (answered_task 0 demo_task1)
           (set_answered true demo_quiz) Hd Hs).
  - apply reach_command, reach_first_visit.
  - vm_compute; reflexivity.
  - vm_compute; reflexivity.
Defined.

(** *** When the script throws *)

(** X16.  A store that makes the script throw leaves the page dead: the
    exception escapes [initializeGame] before [setupEventListeners], so no
    click is handled afterwards, the reset button included, and a reload
    throws again.  The visitor cannot repair the page from the page. *)
Theorem thrown_load_leaves_page_dead
  (page : Document) (ls : gmap string string) (e : error) (st : State)
  (cs : list Command) :
  script page ls = Thrown e st ->
  document st = page /\
  run cs st = st /\
  resetBtn_dispatch page st = Returned st /\
  script page (localStorage st) = Thrown e st.
Proof.
  intros E. destruct (script_thrown page ls e st E) as [Hl [Hs [Hd _]]].
  split; [exact Hd |]. split; [| split].
  - apply (run_invariant (fun s => s = st)); [| reflexivity].
    intros c s ->. unfold dispatch. now rewrite Hl.
  - unfold resetBtn_dispatch. now rewrite Hl.
  - now rewrite Hs.
Qed.

Lemma thrown_load_leaves_page_dead_witness :
  script demo_page {[ LS_ANSWERED := "task1_0" ]}
  = Thrown SyntaxError (state_of (script demo_page {[ LS_ANSWERED := "task1_0" ]})) /\
  run [HeaderClick 1; OptionClick 0 0 0; NextClick 0]
    (state_of (script demo_page {[ LS_ANSWERED := "task1_0" ]}))
  = state_of (script demo_page {[ LS_ANSWERED := "task1_0" ]}).
Proof.
  split; [vm_compute; reflexivity |].
  refine (proj1 (proj2 (thrown_load_leaves_page_dead demo_page
                          {[ LS_ANSWERED := "task1_0" ]} SyntaxError _ _ _))).
  vm_compute; reflexivity.
Defined.

(** *** Advancing *)

Lemma getElementById_distinct (ts : list Task) (ni : nat) (next : Task) :
  distinct_ids ts -> ts !! ni = Some next ->
  getElementById (id next) ts = Some (ni, next).
Proof.
  intros Hd Hn. unfold getElementById. apply list_find_Some.
  split; [exact Hn |]. split; [reflexivity |].
  intros j y Hj Hlt Hy.
  pose proof (distinct_ids_lookup ts j ni y next Hd Hj Hn Hy). lia.
Qed.

Lemma handleNextButtonClick_saved
  (ti ni : nat) (st : State) (task next : Task) :
  tasks (document st) !! ti = Some task ->
  getElementById (nextTaskId_of task) (tasks (document st)) = Some (ni, next) ->
  exists x, handleNextButtonClick ti st = saveStateToLocalStorage x.
Proof.
  intros Ht Hg. unfold handleNextButtonClick. rewrite Ht. cbv zeta.
  pose proof (getElementById_alter (set_active false) (nextTaskId_of task)
                (tasks (document st)) (fun _ => eq_refl) ti) as Hy.
  rewrite Hg in Hy. destruct Hy as [nt' [Hy _]].
  cbn [on_tasks set_document document set_tasks tasks]. rewrite Hy.
  eexists. reflexivity.
Qed.

(** X17.  The next button opens the successor: on a page with distinct
    task ids, a click on the next button of task<N>, N a safe integer,
    closes that task, unlocks and opens task<N+1>, leaves every other task
    as it is, and records the id of task<N+1> in [unlockedTaskIds] and in
    the store. *)
Theorem advance_opens_the_successor
  (ti ni : nat) (z : Z) (st : State) (task next : Task) :
  distinct_ids (tasks (document st)) ->
  tasks (document st) !! ti = Some task ->
  id task = "task" +:+ Number_toString (Int z) ->
  safe_integer z ->
  tasks (document st) !! ni = Some next ->
  id next = "task" +:+ Number_toString (Int (z + 1)) ->
  tasks (document (handleNextButtonClick ti st)) !! ti = Some (set_active false task) /\
  tasks (document (handleNextButtonClick ti st)) !! ni
  = Some (set_active true (set_locked false next)) /\
  (forall j, j <> ti -> j <> ni ->
     tasks (document (handleNextButtonClick ti st)) !! j = tasks (document st) !! j) /\
  Set_has (unlockedTaskIds (handleNextButtonClick ti st)) (JStr (id next)) = true /\
  localStorage (handleNextButtonClick ti st) !! LS_UNLOCKED
  = Some (JSON_stringify (Array_from (unlockedTaskIds (handleNextButtonClick ti st)))).
Proof.
  intros Hd Ht Hid _ Hn Hidn.
  assert (Hnext : nextTaskId_of task = id next).
  { rewrite Hidn. now apply nextTaskId_of_task. }
  assert (Hne : ti <> ni).
  { intros ->. assert (task = next) as -> by congruence.
    apply (nextTaskId_of_fresh next z Hid). exact Hnext. }
  pose proof (handleNextButtonClick_effect ti st task Ht) as Hx. cbv zeta in Hx.
  rewrite Hnext, (getElementById_distinct _ ni next Hd Hn) in Hx.
  destruct Hx as [_ [_ [_ [_ [Hu [Hm [Hts _]]]]]]].
  split; [| split; [| split; [| split]]].
  - rewrite Hts, list_lookup_alter_ne, list_lookup_alter_eq, Ht by congruence.
    reflexivity.
  - rewrite Hts, list_lookup_alter_eq, list_lookup_alter_ne, Hn by congruence.
    reflexivity.
  - intros j H1 H2. now rewrite Hts, !list_lookup_alter_ne by congruence.
  - rewrite Hu. apply Set_has_add.
  - destruct (handleNextButtonClick_saved ti ni st task next Ht) as [x ->].
    + rewrite Hnext. exact (getElementById_distinct _ ni next Hd Hn).
    + apply saved_state_slots.
Qed.

Lemma advance_opens_the_successor_witness :
  distinct_ids (tasks (document demo_start)) /\
  tasks (document demo_start) !! 0%nat = Some demo_task1 /\
  id demo_task1 = "task" +:+ Number_toString (Int 1) /\
  safe_integer 1 /\
  tasks (document demo_start) !! 1%nat = Some demo_task2 /\
  id demo_task2 = "task" +:+ Number_toString (Int (1 + 1)) /\
  tasks (document (handleNextButtonClick 0 demo_start)) !! 1%nat
  = Some (set_active true (set_locked false demo_task2)) /\
  unlockedTaskIds (handleNextButtonClick 0 demo_start) = [JStr "task2"].
Proof.
  assert (Hd : distinct_ids (tasks (document demo_start))).
  { unfold distinct_ids. apply (bool_decide_unpack _). vm_compute. exact I. }
  split; [exact Hd |].
  split; [vm_compute; reflexivity |].
  split; [vm_compute; reflexivity |].
  split; [split; reflexivity |].
  split; [vm_compute; reflexivity |].
  split; [vm_compute; reflexivity |].
  split; [| vm_compute; reflexivity].
  refine (proj1 (proj2 (advance_opens_the_successor 0 1 1 demo_start
                          demo_task1 demo_task2 Hd _ _ _ _ _)));
    try (vm_compute; reflexivity).
  split; reflexivity.
Defined.

(** *** Completing a task *)

Lemma answered_count_marked (qs : list Quiz) (qi : nat) (quiz : Quiz) :
  qs !! qi = Some quiz -> answered quiz = false ->
  length (filter (fun q => answered q = true) (alter (set_answered true) qi qs))
  = S (length (filter (fun q => answered q = true) qs)).
Proof.
  revert qi. induction qs as [|x qs IH]; intros [|qi] Hq Ha; try discriminate.
  - injection Hq as ->. cbn [alter list_alter]. rewrite !filter_cons.
    rewrite decide_True by reflexivity. rewrite decide_False by congruence.
    reflexivity.
  - cbn [alter list_alter]. rewrite !filter_cons.
    change (list_alter (set_answered true) qi qs)
      with (alter (set_answered true) qi qs).
    destruct (decide (answered x = true)); cbn [length]; now rewrite (IH qi).
Qed.

(** X18.  The next button opens when the count reaches the total: the first
    correct answer to an unanswered quiz raises the answered count of its
    task by one; if the count is then at least [data-questions-total], the
    next button is enabled and the id of the task is recorded in
    [unlockedTaskIds]; if not, the button and the set are left as they
    are. *)
Theorem next_button_opens_at_the_total
  (ti qi oi n : nat) (st : State) (task : Task) (quiz : Quiz) (b : bool) :
  tasks (document st) !! ti = Some task ->
  quizzes task !! qi = Some quiz ->
  answered quiz = false ->
  options quiz !! oi = Some (Some "true") ->
  Set_has (answeredQuizIds st) (JStr (quizId_of task qi)) = false ->
  questionsTotal task = Some (Number_toString (Int (Z.of_nat n))) ->
  nextButton task = Some b ->
  exists t',
    tasks (document (handleOptionClick ti qi oi st)) !! ti = Some t' /\
    answeredInTask t' = S (answeredInTask task) /\
    if (n <=? S (answeredInTask task))%nat
    then nextButton t' = Some false /\
         Set_has (unlockedTaskIds (handleOptionClick ti qi oi st)) (JStr (id task)) = true
    else nextButton t' = Some b /\
         unlockedTaskIds (handleOptionClick ti qi oi st) = unlockedTaskIds st.
Proof.
  intros Ht Hq Ha Ho Hh Htot Hb.
  assert (Hcount : answeredInTask (marked_task qi task) = S (answeredInTask task)).
  { unfold answeredInTask, marked_task. cbn [quizzes set_quizzes].
    exact (answered_count_marked _ qi quiz Hq Ha). }
  assert (Hcomp : task_complete (marked_task qi task)
                  = (n <=? S (answeredInTask task))%nat).
  { unfold task_complete. cbv zeta. rewrite Hcount.
    change (questionsTotal (marked_task qi task)) with (questionsTotal task).
    rewrite Htot. cbn [parseInt_opt]. rewrite parseInt_Number_toString. cbn [ge].
    destruct (Nat.leb_spec n (S (answeredInTask task)));
      [apply Z.leb_le | apply Z.leb_gt]; lia. }
  destruct (handleOptionClick_first_correct ti qi oi st task quiz Ht Hq Ho Hh)
    as [_ [Hc _]]. cbv zeta in Hc.
  destruct (handleOptionClick_step ti qi oi st)
    as [E | [task' [quiz' [Ht' [_ [_ [_ [Hts [_ [_ [_ [Hu _]]]]]]]]]]]]; cbv zeta in *.
  { rewrite E in Hc. lia. }
  assert (task' = task) as -> by congruence.
  exists (answered_task qi task).
  split; [now rewrite Hts, list_lookup_alter_eq, Ht |].
  rewrite Hu. unfold answered_task. cbv zeta. rewrite Hcomp.
  destruct (n <=? S (answeredInTask task))%nat.
  - split; [exact Hcount |]. split; [| apply Set_has_add].
    cbn. now rewrite Hb.
  - split; [exact Hcount |]. now split.
Qed.

Lemma next_button_opens_at_the_total_witness :
  tasks (document (handleOptionClick 0 0 0 demo_start)) !! 0%nat
  = Some (answered_task 0 demo_task1) /\
  quizzes (answered_task 0 demo_task1) !! 1%nat = Some demo_quiz /\
  exists t',
    tasks (document (handleOptionClick 0 1 0 (handleOptionClick 0 0 0 demo_start)))
      !! 0%nat = Some t' /\
    answeredInTask t' = 2%nat /\
    nextButton t' = Some false /\
    Set_has (unlockedTaskIds
               (handleOptionClick 0 1 0 (handleOptionClick 0 0 0 demo_start)))
      (JStr "task1") = true.
Proof.
  split; [vm_compute; reflexivity |].
  split; [vm_compute; reflexivity |].
  apply (next_button_opens_at_the_total 0 1 0 2 (handleOptionClick 0 0 0 demo_start)
           (answered_task 0 demo_task1) demo_quiz true);
    vm_compute; reflexivity.
Defined.

(** *** A second click on the next button *)

Lemma alter_open_close_twice (ti ni : nat) (ts : list Task) :
  alter (fun t => set_active true (set_locked false t)) ni
    (alter (set_active false) ti
       (alter (fun t => set_active true (set_locked false t)) ni
          (alter (set_active false) ti ts)))
  = alter (fun t => set_active true (set_locked false t)) ni
      (alter (set_active false) ti ts).
Proof.
  apply list_eq. intros k.
  repeat (rewrite list_lookup_alter; case_decide; subst; try congruence);
    destruct (ts !! _); reflexivity.
Qed.

Lemma nextTaskId_of_id (a b : Task) : id a = id b -> nextTaskId_of a = nextTaskId_of b.
Proof. intros H. unfold nextTaskId_of. now rewrite H. Qed.

Lemma save_fixpoint (st : State) :
  localStorage st !! LS_SCORE = Some (Number_toString (score st)) ->
  localStorage st !! LS_ANSWERED
  = Some (JSON_stringify (Array_from (answeredQuizIds st))) ->
  localStorage st !! LS_UNLOCKED
  = Some (JSON_stringify (Array_from (unlockedTaskIds st))) ->
  saveStateToLocalStorage st = st.
Proof.
  intros H1 H2 H3. unfold saveStateToLocalStorage. cbv zeta.
  rewrite (insert_id _ _ _ H1), (insert_id _ _ _ H2), (insert_id _ _ _ H3).
  now destruct st.
Qed.

(** What [handleNextButtonClick] leaves when an element has the next id. *)
Lemma handleNextButtonClick_next
  (ti ni : nat) (st : State) (task next : Task) :
  tasks (document st) !! ti = Some task ->
  getElementById (nextTaskId_of task) (tasks (document st)) = Some (ni, next) ->
  handleNextButtonClick ti st
  = saveStateToLocalStorage
      (set_unlockedTaskIds
         (Set_add (unlockedTaskIds st) (JStr (nextTaskId_of task)))
         (on_tasks (fun ts =>
            alter (fun t => set_active true (set_locked false t)) ni
              (alter (set_active false) ti ts)) st)).
Proof.
  intros Ht Hg. unfold handleNextButtonClick. rewrite Ht. cbv zeta.
  pose proof (getElementById_alter (set_active false) (nextTaskId_of task)
                (tasks (document st)) (fun _ => eq_refl) ti) as Hy.
  rewrite Hg in Hy. destruct Hy as [nt' [Hy [Hid _]]].
  cbn [on_tasks set_document document set_tasks tasks]. rewrite Hy, Hid.
  reflexivity.
Qed.

(** X19.  A second click on the next button changes nothing: the task stays
    closed and the successor open, no further task is unlocked, and the
    store is as the first click left it.  A double click does not skip a
    task. *)
Theorem next_click_twice_is_once (ti : nat) (st : State) :
  handleNextButtonClick ti (handleNextButtonClick ti st)
  = handleNextButtonClick ti st.
Proof.
  destruct (tasks (document st) !! ti) as [task|] eqn:Ht.
  2: { unfold handleNextButtonClick. now rewrite Ht, Ht. }
  destruct (getElementById (nextTaskId_of task) (tasks (document st)))
    as [[ni next]|] eqn:Hg.
  - rewrite (handleNextButtonClick_next ti ni st task next Ht Hg).
    set (F := fun ts : list Task =>
                alter (fun t => set_active true (set_locked false t)) ni
                  (alter (set_active false) ti ts)).
    set (X := set_unlockedTaskIds _ (on_tasks F st)).
    assert (Ht' : exists task', tasks (document (saveStateToLocalStorage X)) !! ti
                                = Some task' /\ id task' = id task).
    { cbn [saveStateToLocalStorage set_localStorage X set_unlockedTaskIds on_tasks
           set_document document set_tasks tasks]. unfold F.
      destruct (decide (ni = ti)) as [-> | Hne].
      - rewrite !list_lookup_alter_eq, Ht. eexists. split; reflexivity.
      - rewrite list_lookup_alter_ne, list_lookup_alter_eq, Ht by exact Hne.
        eexists. split; reflexivity. }
    destruct Ht' as [task' [Ht' Hid]].
    assert (Hg' : exists next', getElementById (nextTaskId_of task')
                    (tasks (document (saveStateToLocalStorage X))) = Some (ni, next')).
    { rewrite (nextTaskId_of_id task' task Hid).
      cbn [saveStateToLocalStorage set_localStorage X set_unlockedTaskIds on_tasks
           set_document document set_tasks tasks]. unfold F.
      pose proof (getElementById_alter (set_active false) (nextTaskId_of task)
                    (tasks (document st)) (fun _ => eq_refl) ti) as H1.
      rewrite Hg in H1. destruct H1 as [n1 [H1 _]].
      pose proof (getElementById_alter
                    (fun t => set_active true (set_locked false t))
                    (nextTaskId_of task)
                    (alter (set_active false) ti (tasks (document st)))
                    (fun _ => eq_refl) ni) as H2.
      rewrite H1 in H2. destruct H2 as [n2 [H2 _]]. eauto. }
    destruct Hg' as [next' Hg'].
    rewrite (handleNextButtonClick_next ti ni _ task' next' Ht' Hg').
    rewrite (nextTaskId_of_id task' task Hid).
    fold F.
    assert (E : set_unlockedTaskIds
                  (Set_add (unlockedTaskIds (saveStateToLocalStorage X))
                     (JStr (nextTaskId_of task)))
                  (on_tasks F (saveStateToLocalStorage X))
                = saveStateToLocalStorage X).
    { apply State_eq; try reflexivity.
      - cbn [saveStateToLocalStorage set_localStorage X set_unlockedTaskIds
             unlockedTaskIds on_tasks set_document].
        unfold Set_add at 1. now rewrite Set_has_add.
      - apply Document_eq; try reflexivity.
        cbn [saveStateToLocalStorage set_localStorage X set_unlockedTaskIds on_tasks
             set_document document set_tasks tasks]. unfold F.
        apply alter_open_close_twice. }
    rewrite E. apply save_fixpoint; apply saved_state_slots.
  - assert (Hidem : alter (set_active false) ti
                      (alter (set_active false) ti (tasks (document st)))
                    = alter (set_active false) ti (tasks (document st))).
    { rewrite list_alter_alter_eq. now apply list_alter_ext. }
    assert (Hg1 : getElementById (nextTaskId_of task)
                    (alter (set_active false) ti (tasks (document st))) = None).
    { pose proof (getElementById_alter (set_active false) (nextTaskId_of task)
                    (tasks (document st)) (fun _ => eq_refl) ti) as H1.
      now rewrite Hg in H1. }
    assert (Hl : forall s t,
              tasks (document s) !! ti = Some t -> id t = id task ->
              getElementById (nextTaskId_of task) (tasks (document s)) = None ->
              handleNextButtonClick ti s
              = showCustomAlert "Congratulations!"
                  ("You've completed the Cyber Trap Room! Your final score is "
                     +:+ Number_toString (score s) +:+ "/"
                     +:+ Number_toString
                           (Int (Z.of_nat (count_quizzes
                              (document (on_tasks (alter (set_active false) ti) s)))))
                     +:+ ". Keep an eye out for phishing attempts!")
                  (on_tasks (alter (set_active false) ti) s)).
    { intros s t Hs Hi Hn. unfold handleNextButtonClick. rewrite Hs. cbv zeta.
      rewrite (nextTaskId_of_id t task Hi).
      pose proof (getElementById_alter (set_active false) (nextTaskId_of task)
                    (tasks (document s)) (fun _ => eq_refl) ti) as H1.
      rewrite Hn in H1.
      cbn [on_tasks set_document document set_tasks tasks]. rewrite H1.
      reflexivity. }
    rewrite (Hl st task Ht eq_refl Hg).
    rewrite (Hl _ (set_active false task)).
    + apply State_eq; try reflexivity.
      cbn [showCustomAlert on_tasks set_document document set_alert set_tasks tasks
           score alert resetBtn].
      unfold count_quizzes.
      cbn [set_document document set_alert set_tasks tasks].
      now rewrite Hidem.
    + cbn [showCustomAlert on_tasks set_document document set_alert set_tasks tasks].
      now rewrite list_lookup_alter_eq, Ht.
    + reflexivity.
    + cbn [showCustomAlert on_tasks set_document document set_alert set_tasks tasks].
      exact Hg1.
Qed.

(** ** The name of the exported report *)

Import Report.

Lemma sanitize_plain (url : ustring) :
  Forall (fun cu => plain_char cu = true) (sanitize url).
Proof.
  unfold sanitize. apply Forall_fmap, Forall_forall. intros cu _. cbn.
  unfold plain_char. destruct (matches_alnum cu) eqn:E; [now rewrite E | reflexivity].
Qed.

(** X20.  The exported report gets a plain file name: whatever the analysed URL
    is, the name is made of letters, digits, underscores, hyphens and dots
    only (no slash, backslash, colon or control character), it is 22 code
    units longer than the URL, and the replacement changes nothing when
    applied again. *)
Theorem report_file_name_is_plain (url : ustring) :
  Forall (fun cu => plain_char cu = true) (pdf_file_name url) /\
  length (pdf_file_name url) = (length url + 22)%nat /\
  sanitize (sanitize url) = sanitize url.
Proof.
  split; [| split].
  - unfold pdf_file_name. rewrite !Forall_app. split; [| split].
    + apply (bool_decide_unpack _). vm_compute. exact I.
    + apply sanitize_plain.
    + apply (bool_decide_unpack _). vm_compute. exact I.
  - unfold pdf_file_name, sanitize. rewrite !length_app, length_fmap.
    change (length (of_ascii "phishguard-report-")) with 18%nat.
    change (length (of_ascii ".pdf")) with 4%nat. lia.
  - unfold sanitize. rewrite <- list_fmap_compose. apply list_fmap_ext.
    intros _ cu _. cbn. destruct (matches_alnum cu) eqn:E; [now rewrite E | reflexivity].
Qed.
